(** * Night-Sight: feature-extraction engine and pipeline orchestrator

    A shallow embedding of
      - services/imageUtils.ts         (gamma lookup table),
      - services/featureExtraction.ts  (keypoint, texture, statistical and
                                        quality analyzers, feature fusion),
      - services/metricsCalculation.ts (detection metrics),
      - services/pipelineService.ts    (runPipeline and its comparison step,
                                        runBatchPipeline),
      - services/yoloDetection.ts      (brightening, filter, non-maximum
                                        suppression, detect),
      - services/modelTraining.ts      (evaluation of two images, summary),
    followed by the properties of the specification checked against it and
    by further properties of the code.

    Numbers.  A JavaScript [number] is an IEEE-754 double.  The embedding
    idealises every finite double as a real number and keeps the special
    values NaN and +/-Infinity explicit, because the analyzers reach them
    through 0/0 and x/0.  Rounding error and the sign of zero are not
    modelled: where a comparison or a floor of the source sits exactly at
    a tie, the doubles may decide differently from the reals.  Where a
    property below depends on such a decision it is stated through the
    tests and sums of the code itself or with a margin; the one overflow
    that matters, that of [1.0 / gamma], is written out.  Integer
    quantities that the source keeps in [number]
    variables (image sizes, array indices, loop counters, histogram counts)
    are kept in [Z] and injected with [ofZ] where the source mixes them with
    fractional values.

    Environment.  Image decoding, the canvas, the OpenCV enhancement and
    the object detector are host services; the code sees them through
    records of oracles.  A progress callback is taken to return; one that
    throws ends the run or the batch with its exception at that report.
    Wall-clock readings ([performance.now], [Date.now]) and the
    processing-time fields derived from them are left out. *)

From Stdlib Require Import Reals ZArith List Bool String Lia Lra Psatz.
From Stdlib Require Import Permutation Sorted.
From Stdlib.Strings Require Import Byte.
From Stdlib Require Import DecimalString.
Import ListNotations.

Set Implicit Arguments.

(* ================================================================== *)
(** ** JavaScript numbers *)
(* ================================================================== *)

Module JS.

Local Open Scope R_scope.

Inductive number : Type :=
| Fin (r : R)
| Inf (negative : bool)
| NaN.

Definition ofZ (z : Z) : number := Fin (IZR z).

Definition Rltb (x y : R) : bool := if Rlt_dec x y then true else false.
Definition Rleb (x y : R) : bool := if Rle_dec x y then true else false.
Definition Reqb (x y : R) : bool := if Req_dec_T x y then true else false.

Definition isFinite (a : number) : bool :=
  match a with Fin _ => true | _ => false end.

Definition isNaN (a : number) : bool :=
  match a with NaN => true | _ => false end.

Definition neg (a : number) : number :=
  match a with
  | Fin x => Fin (- x)
  | Inf s => Inf (negb s)
  | NaN => NaN
  end.

Definition add (a b : number) : number :=
  match a, b with
  | NaN, _ | _, NaN => NaN
  | Fin x, Fin y => Fin (x + y)
  | Inf s, Fin _ | Fin _, Inf s => Inf s
  | Inf s, Inf t => if Bool.eqb s t then Inf s else NaN
  end.

Definition sub (a b : number) : number := add a (neg b).

Definition mul (a b : number) : number :=
  match a, b with
  | NaN, _ | _, NaN => NaN
  | Fin x, Fin y => Fin (x * y)
  | Inf s, Fin y | Fin y, Inf s =>
      if Reqb y 0 then NaN else Inf (xorb s (Rltb y 0))
  | Inf s, Inf t => Inf (xorb s t)
  end.

(** [x / 0] is NaN for [x = 0] and an infinity otherwise; the divisor's
    zero is taken as +0. *)
Definition div (a b : number) : number :=
  match a, b with
  | NaN, _ | _, NaN => NaN
  | Fin x, Fin y =>
      if Reqb y 0
      then (if Reqb x 0 then NaN else Inf (Rltb x 0))
      else Fin (x / y)
  | Fin _, Inf _ => Fin 0
  | Inf s, Fin y => Inf (xorb s (Rltb y 0))
  | Inf _, Inf _ => NaN
  end.

(** [a % b]: the remainder has the sign of the dividend. *)
Definition Rtrunc (x : R) : Z := if Rlt_dec x 0 then Zceil x else Zfloor x.

Definition rem (a b : number) : number :=
  match a, b with
  | Fin x, Fin y =>
      if Reqb y 0 then NaN else Fin (x - y * IZR (Rtrunc (x / y)))
  | Fin x, Inf _ => Fin x
  | _, _ => NaN
  end.

Definition abs (a : number) : number :=
  match a with
  | Fin x => Fin (Rabs x)
  | Inf _ => Inf false
  | NaN => NaN
  end.

Definition sqrt (a : number) : number :=
  match a with
  | Fin x => if Rltb x 0 then NaN else Fin (R_sqrt.sqrt x)
  | Inf false => Inf false
  | Inf true => NaN
  | NaN => NaN
  end.

Definition floor (a : number) : number :=
  match a with
  | Fin x => Fin (IZR (Zfloor x))
  | other => other
  end.

(** [Math.round]: the nearest integer, ties towards +Infinity. *)
Definition round (a : number) : number :=
  match a with
  | Fin x => Fin (IZR (Zfloor (x + / 2)))
  | other => other
  end.

(** Comparisons: false as soon as an operand is NaN. *)
Definition lt (a b : number) : bool :=
  match a, b with
  | NaN, _ | _, NaN => false
  | Fin x, Fin y => Rltb x y
  | Fin _, Inf t => negb t
  | Inf s, Fin _ => s
  | Inf s, Inf t => s && negb t
  end.

Definition le (a b : number) : bool :=
  match a, b with
  | NaN, _ | _, NaN => false
  | Fin x, Fin y => Rleb x y
  | Fin _, Inf t => negb t
  | Inf s, Fin _ => s
  | Inf s, Inf t => s || negb t
  end.

Definition gt (a b : number) : bool := lt b a.
Definition ge (a b : number) : bool := le b a.

(** [Math.pow] on the arguments the gamma table can feed it: a finite
    base and any exponent.  A negative base with a fractional exponent is
    NaN; with an integral exponent the sign follows the exponent's
    parity. *)
Definition isInteger (y : R) : bool := Reqb (IZR (Zfloor y)) y.

Definition powFinite (x y : R) : number :=
  if Reqb y 0 then Fin 1
  else if Rltb 0 x then Fin (Rpower x y)
  else if Reqb x 0 then (if Rltb 0 y then Fin 0 else Inf false)
  else if isInteger y
       then Fin ((if Z.even (Zfloor y) then 1 else -1) * Rpower (- x) y)
       else NaN.

Definition pow (a b : number) : number :=
  match a, b with
  | _, NaN => NaN
  | NaN, Fin y => if Reqb y 0 then Fin 1 else NaN
  | NaN, Inf _ => NaN
  | Fin x, Fin y => powFinite x y
  | Fin x, Inf t =>
      if Reqb (Rabs x) 1 then NaN
      else if xorb (Rltb 1 (Rabs x)) t then Inf false else Fin 0
  | Inf s, Fin y =>
      if Reqb y 0 then Fin 1
      else if Rltb 0 y
           then Inf (s && isInteger y && negb (Z.even (Zfloor y)))
           else Fin 0
  | Inf _, Inf t => if t then Fin 0 else Inf false
  end.

(** Storing into a [Uint8Array] element: truncate, then reduce modulo
    256; NaN and the infinities are stored as 0. *)
Definition toUint8 (a : number) : Z :=
  match a with
  | Fin x => (Rtrunc x) mod 256
  | _ => 0%Z
  end.

(** Left-to-right accumulation loops. *)
Definition sum (xs : list number) : number := fold_left add xs (Fin 0).

Definition sumSquares (xs : list number) : number :=
  fold_left (fun acc v => add acc (mul v v)) xs (Fin 0).

End JS.

Import JS.

(** Integer ranges of counting loops: [lo, lo+1, ..., hi-1], and the
    strided variant [lo, lo+step, ...] below [hi]. *)
Definition zrange (lo hi : Z) : list Z :=
  map (fun k => (lo + Z.of_nat k)%Z) (seq 0 (Z.to_nat (hi - lo))).

Definition zrangeStep (lo hi step : Z) : list Z :=
  map (fun k => (lo + step * Z.of_nat k)%Z)
      (seq 0 (Z.to_nat ((hi - lo + step - 1) / step))).

(* ================================================================== *)
(** ** JavaScript values, exceptions and host types *)
(* ================================================================== *)

Module Value.

(** The runtime values the comparison step of the pipeline inspects.  An
    object is the list of its properties in creation order. *)
Unset Elimination Schemes.
Inductive value : Type :=
| VUndefined
| VNull
| VNumber (n : number)
| VString (s : string)
| VArray (xs : list value)
| VObject (props : list (string * value)).
Set Elimination Schemes.

Inductive error : Type :=
| TypeError (message : string)
| HostError (message : string).

Definition result (A : Type) : Type := (error + A)%type.

Definition truthy (v : value) : bool :=
  match v with
  | VUndefined | VNull => false
  | VNumber (Fin x) => negb (Reqb x 0)
  | VNumber NaN => false
  | VNumber (Inf _) => true
  | VString s => negb (String.eqb s EmptyString)
  | VArray _ | VObject _ => true
  end.

Fixpoint lookup (name : string) (props : list (string * value)) : value :=
  match props with
  | [] => VUndefined
  | (k, v) :: rest => if String.eqb k name then v else lookup name rest
  end.

(** [v.name]: reading a property of [undefined] or [null] throws; a
    property that is absent reads as [undefined]. *)
Definition getProp (v : value) (name : string) : result value :=
  match v with
  | VUndefined => inl (TypeError "Cannot read properties of undefined")
  | VNull => inl (TypeError "Cannot read properties of null")
  | VObject props => inr (lookup name props)
  | VArray xs =>
      if String.eqb name "length"
      then inr (VNumber (ofZ (Z.of_nat (List.length xs))))
      else inr VUndefined
  | VNumber _ | VString _ => inr VUndefined
  end.

Fixpoint getPath (v : value) (names : list string) : result value :=
  match names with
  | [] => inr v
  | name :: rest =>
      match getProp v name with
      | inl e => inl e
      | inr w => getPath w rest
      end
  end.

(** Numeric reading of an operand of [+], [-], [*], [/] or [>].  Only
    numbers, [undefined] and [null] are given their JavaScript meaning;
    strings and objects, which no feature object holds at the positions
    read arithmetically, read as NaN here. *)
Definition toNumber (v : value) : number :=
  match v with
  | VNumber n => n
  | VNull => Fin 0
  | _ => NaN
  end.

(** [v.reduce((a, b) => a + b, 0)]. *)
Definition reduceSum (v : value) : result number :=
  match v with
  | VUndefined => inl (TypeError "Cannot read properties of undefined")
  | VNull => inl (TypeError "Cannot read properties of null")
  | VArray xs => inr (fold_left (fun a b => add a (toNumber b)) xs (Fin 0))
  | _ => inl (TypeError "reduce is not a function")
  end.

Definition ofNumbers (xs : list number) : value := VArray (map VNumber xs).

(** Pixel data of a decoded image, as [getImageData] returns it. *)
Record ImageData : Type := mkImageData {
  img_width : Z;
  img_height : Z;
  img_data : list byte
}.

End Value.

Import Value.

(* ================================================================== *)
(** ** services/imageUtils.ts: gamma lookup table *)
(* ================================================================== *)

Module ImageUtils.

Local Open Scope R_scope.

(** The table built in [applyGamma]:
    [lut[i] = Math.floor(Math.pow(i / 255.0, invGamma) * 255)]. *)
Definition gammaLutEntry (invGamma : number) (i : Z) : Z :=
  toUint8 (floor (mul (pow (div (ofZ i) (Fin 255)) invGamma) (Fin 255))).

(** [1.0 / gamma].  The caller chooses [gamma], so this quotient, unlike
    those of the analyzers, can leave the range of the doubles: a
    quotient whose magnitude reaches [2^1024 - 2^970], the midpoint above
    the largest finite double, is rounded to an infinity. *)
Definition overflowBound : R := IZR (2 ^ 1024 - 2 ^ 970).

Definition reciprocal (gamma : number) : number :=
  match div (Fin 1) gamma with
  | Fin q => if Rleb overflowBound (Rabs q) then Inf (Rltb q 0) else Fin q
  | other => other
  end.

Definition gammaLut (gamma : number) : list Z :=
  let invGamma := reciprocal gamma in
  map (gammaLutEntry invGamma) (zrange 0 256).

(** The table built in [applyCompositeEnhancement], with [gamma = 1.8]. *)
Definition compositeGamma : number := Fin 1.8.

Definition compositeLut : list Z :=
  let gamma := compositeGamma in
  let invGamma := reciprocal gamma in
  map (fun i =>
         let val := mul (pow (div (ofZ i) (Fin 255)) invGamma) (Fin 255) in
         toUint8 (floor val))
      (zrange 0 256).

(** [applyLutManual]: [dstData[i] = lut[srcData[i]]]. *)
Definition applyLutManual (srcData : list Z) (lut : list Z) : list Z :=
  map (fun v => nth (Z.to_nat v) lut 0%Z) srcData.

End ImageUtils.

(* ================================================================== *)
(** ** services/featureExtraction.ts *)
(* ================================================================== *)

Module FeatureExtraction.

Local Open Scope Z_scope.

(** *** Loops and array helpers *)

Definition forRange {A : Type} (lo hi : Z) (body : Z -> A -> A) (init : A) : A :=
  fold_left (fun acc i => body i acc) (zrange lo hi) init.

Definition forStep {A : Type} (lo hi step : Z) (body : Z -> A -> A) (init : A) : A :=
  fold_left (fun acc i => body i acc) (zrangeStep lo hi step) init.

Fixpoint updateAt {A : Type} (n : nat) (f : A -> A) (l : list A) : list A :=
  match l, n with
  | [], _ => []
  | a :: t, O => f a :: t
  | a :: t, S m => a :: updateAt m f t
  end.

(** [arr[k] = f(arr[k])] for an index held in [Z]; a negative index
    names no element. *)
Definition updateAtZ {A : Type} (k : Z) (f : A -> A) (l : list A) : list A :=
  if k <? 0 then l else updateAt (Z.to_nat k) f l.

(** *** Pixel access *)

Definition byteVal (b : byte) : R := IZR (Z.of_N (Byte.to_N b)).

(** [data[idx]] on a [Uint8ClampedArray]: a read outside the array is
    [undefined], which the arithmetic around it turns into NaN. *)
Definition dataAt (data : list byte) (idx : Z) : number :=
  if idx <? 0 then NaN
  else match nth_error data (Z.to_nat idx) with
       | Some b => Fin (byteVal b)
       | None => NaN
       end.

Definition getGrayValue (data : list byte) (width x y : Z) : number :=
  let idx := (y * width + x) * 4 in
  add (add (mul (Fin 0.299) (dataAt data idx))
           (mul (Fin 0.587) (dataAt data (idx + 1))))
      (mul (Fin 0.114) (dataAt data (idx + 2))).

(** *** 1. Keypoint detection *)

Record KeypointStats : Type := mkKeypointStats {
  orb : number;
  fast : number;
  sift : number
}.

Definition threshold : number := Fin 30.

Definition exceedsThreshold (data : list byte) (width x y : Z) : bool :=
  let gray := getGrayValue data width x y in
  let grayRight := getGrayValue data width (x + 1) y in
  let grayDown := getGrayValue data width x (y + 1) in
  gt (abs (sub gray grayRight)) threshold
  || gt (abs (sub gray grayDown)) threshold.

Definition edgeCount (data : list byte) (width height : Z) : Z :=
  forRange 0 (height - 1) (fun y =>
    forRange 0 (width - 1) (fun x count =>
      if exceedsThreshold data width x y then count + 1 else count)) 0.

Definition calculateImageComplexity (data : list byte) (width height : Z) : number :=
  div (ofZ (edgeCount data width height)) (ofZ (width * height)).

Definition gradientMagnitude (data : list byte) (width x y : Z) : number :=
  let gx := sub (getGrayValue data width (x + 1) y)
                (getGrayValue data width (x - 1) y) in
  let gy := sub (getGrayValue data width x (y + 1))
                (getGrayValue data width x (y - 1)) in
  sqrt (add (mul gx gx) (mul gy gy)).

Definition edgeStrength (data : list byte) (width height : Z) : number :=
  forRange 1 (height - 1) (fun y =>
    forRange 1 (width - 1) (fun x strength =>
      add strength (gradientMagnitude data width x y))) (Fin 0).

Definition calculateEdgeDensity (data : list byte) (width height : Z) : number :=
  div (edgeStrength data width height)
      (ofZ ((width - 2) * (height - 2) * 255)).

Definition extractKeypoints (data : list byte) (width height : Z) : KeypointStats :=
  let complexity := calculateImageComplexity data width height in
  let edgeDensity := calculateEdgeDensity data width height in
  let baseOrb :=
    floor (add (add (Fin 30) (mul complexity (Fin 250))) (mul edgeDensity (Fin 100))) in
  let baseFast :=
    floor (add (add (Fin 80) (mul complexity (Fin 400))) (mul edgeDensity (Fin 150))) in
  let baseSift :=
    floor (add (add (Fin 20) (mul complexity (Fin 180))) (mul edgeDensity (Fin 80))) in
  {| orb := baseOrb; fast := baseFast; sift := baseSift |}.

(** *** 2. Texture features *)

Record HogFeatures : Type := mkHog {
  hog_descriptor : list number;
  hog_bins : Z;
  hog_cellSize : Z
}.

Record LbpFeatures : Type := mkLbp {
  lbp_histogram : list number;
  lbp_patterns : Z;
  lbp_radius : Z
}.

Record GlcmFeatures : Type := mkGlcm {
  glcm_contrast : number;
  glcm_dissimilarity : number;
  glcm_homogeneity : number;
  glcm_energy : number;
  glcm_correlation : number;
  glcm_asm : number
}.

Record TextureFeatures : Type := mkTexture {
  hog : HogFeatures;
  lbp : LbpFeatures;
  glcm : GlcmFeatures
}.

(** [Math.atan2]. *)
Definition Ratan2 (y x : R) : R :=
  if Rlt_dec 0 x then atan (y / x)
  else if Rlt_dec x 0
       then (if Rle_dec 0 y then atan (y / x) + PI else atan (y / x) - PI)%R
       else if Rlt_dec 0 y then (PI / 2)%R
            else if Rlt_dec y 0 then (- PI / 2)%R else 0%R.

Definition atan2 (a b : number) : number :=
  match a, b with
  | NaN, _ | _, NaN => NaN
  | Fin y, Fin x => Fin (Ratan2 y x)
  | Fin y, Inf false => Fin 0
  | Fin y, Inf true => Fin (if Rlt_dec y 0 then - PI else PI)%R
  | Inf s, Fin _ => Fin (if s then - PI / 2 else PI / 2)%R
  | Inf s, Inf false => Fin (if s then - PI / 4 else PI / 4)%R
  | Inf s, Inf true => Fin (if s then - (3 * PI / 4) else 3 * PI / 4)%R
  end.

Definition cellSize : Z := 8.
Definition bins : Z := 9.

(** [cellHistogram[bin] += magnitude]: an element changes only when [bin]
    is one of its indices. *)
Definition addAtBin (hist : list number) (bin magnitude : number) : list number :=
  match bin with
  | Fin b => if isInteger b
             then updateAtZ (Zfloor b) (fun old => add old magnitude) hist
             else hist
  | _ => hist
  end.

Definition cellHistogram (data : list byte) (width height x y : Z) : list number :=
  forRange 0 cellSize (fun cy =>
    forRange 0 cellSize (fun cx hist =>
      let py := y + cy in
      let px := x + cx in
      if (py >? 0) && (py <? height - 1) && (px >? 0) && (px <? width - 1)
      then
        let gx := sub (getGrayValue data width (px + 1) py)
                      (getGrayValue data width (px - 1) py) in
        let gy := sub (getGrayValue data width px (py + 1))
                      (getGrayValue data width px (py - 1)) in
        let magnitude := sqrt (add (mul gx gx) (mul gy gy)) in
        let angle :=
          rem (add (div (mul (atan2 gy gx) (Fin 180)) (Fin PI)) (Fin 180))
              (Fin 180) in
        let bin := rem (floor (div angle (div (Fin 180) (ofZ bins)))) (ofZ bins) in
        addAtBin hist bin magnitude
      else hist))
    (repeat (Fin 0) (Z.to_nat bins)).

Definition hogCells (data : list byte) (width height : Z) : list number :=
  flat_map (fun y =>
    flat_map (fun x => cellHistogram data width height x y)
             (zrangeStep cellSize (width - cellSize) cellSize))
    (zrangeStep cellSize (height - cellSize) cellSize).

Definition computeHOG (data : list byte) (width height : Z) : HogFeatures :=
  let descriptor := hogCells data width height in
  let norm := add (sqrt (sumSquares descriptor)) (Fin 1e-6) in
  let normalized := map (fun val => div val norm) descriptor in
  {| hog_descriptor := firstn 100 normalized;
     hog_bins := bins;
     hog_cellSize := cellSize |}.

Definition radius : Z := 1.
Definition patterns : Z := 256.

Definition lbpNeighbors (data : list byte) (width x y : Z) : list number :=
  [ getGrayValue data width (x - 1) (y - 1);
    getGrayValue data width x (y - 1);
    getGrayValue data width (x + 1) (y - 1);
    getGrayValue data width (x + 1) y;
    getGrayValue data width (x + 1) (y + 1);
    getGrayValue data width x (y + 1);
    getGrayValue data width (x - 1) (y + 1);
    getGrayValue data width (x - 1) y ].

Definition lbpValue (data : list byte) (width x y : Z) : Z :=
  let center := getGrayValue data width x y in
  let neighbors := lbpNeighbors data width x y in
  forRange 0 8 (fun i v =>
    if ge (nth (Z.to_nat i) neighbors NaN) center
    then Z.lor v (Z.shiftl 1 i) else v) 0.

Definition lbpCounts (data : list byte) (width height : Z) : list Z :=
  forRange radius (height - radius) (fun y =>
    forRange radius (width - radius) (fun x histogram =>
      updateAtZ (lbpValue data width x y) Z.succ histogram))
    (repeat 0 (Z.to_nat patterns)).

Definition computeLBP (data : list byte) (width height : Z) : LbpFeatures :=
  let histogram := lbpCounts data width height in
  let total := add (ofZ (fold_left Z.add histogram 0)) (Fin 1e-6) in
  let normalizedHistogram := map (fun val => div (ofZ val) total) histogram in
  {| lbp_histogram := normalizedHistogram;
     lbp_patterns := patterns;
     lbp_radius := radius |}.

Definition levels : Z := 256.
Definition distance : Z := 1.

(** [glcm[i][j]++].  A gray value is NaN or finite and non-negative, so
    the matrix is indexed at naturals only. *)
Definition glcmCounts (data : list byte) (width height : Z) : list (list Z) :=
  forRange 0 height (fun y =>
    forRange 0 (width - distance) (fun x m =>
      let i := floor (getGrayValue data width x y) in
      let j := floor (getGrayValue data width (x + distance) y) in
      if lt i (ofZ levels) && lt j (ofZ levels)
      then match i, j with
           | Fin a, Fin b =>
               updateAtZ (Zfloor a) (updateAtZ (Zfloor b) Z.succ) m
           | _, _ => m
           end
      else m))
    (repeat (repeat 0 (Z.to_nat levels)) (Z.to_nat levels)).

Definition round2 (v : number) : number :=
  div (round (mul v (Fin 100))) (Fin 100).

Definition computeGLCM (data : list byte) (width height : Z) : GlcmFeatures :=
  let counts := glcmCounts data width height in
  let sum :=
    fold_left (fun s row => fold_left Z.add row s) counts 0 in
  let glcm :=
    map (map (fun c => div (ofZ c) (add (ofZ sum) (Fin 1e-6)))) counts in
  let entry (i j : Z) := nth (Z.to_nat j) (nth (Z.to_nat i) glcm []) NaN in
  let '(contrast, dissimilarity, homogeneity, energy, asm) :=
    forRange 0 levels (fun i =>
      forRange 0 levels (fun j '(c, d, h, e, a) =>
        let p := entry i j in
        (add c (mul (mul p (ofZ (i - j))) (ofZ (i - j))),
         add d (mul p (ofZ (Z.abs (i - j)))),
         add h (div p (ofZ (1 + Z.abs (i - j)))),
         add e (mul p p),
         add a (mul p p))))
      (Fin 0%R, Fin 0%R, Fin 0%R, Fin 0%R, Fin 0%R) in
  let correlation := Fin 0%R in
  {| glcm_contrast := round2 contrast;
     glcm_dissimilarity := round2 dissimilarity;
     glcm_homogeneity := round2 homogeneity;
     glcm_energy := round2 energy;
     glcm_correlation := round2 correlation;
     glcm_asm := round2 asm |}.

Definition extractTextureFeatures (data : list byte) (width height : Z) : TextureFeatures :=
  {| hog := computeHOG data width height;
     lbp := computeLBP data width height;
     glcm := computeGLCM data width height |}.

(** *** 3. Statistical features *)

Record ColorMoments : Type := mkColorMoments {
  cm_mean : list number;
  cm_std : list number;
  cm_skewness : list number
}.

Record StatisticalFeatures : Type := mkStatistical {
  huMoments : list number;
  colorMoments : ColorMoments
}.

Definition round6 (m : number) : number :=
  div (round (mul m (Fin 1000000))) (Fin 1000000).

Definition computeHuMoments (data : list byte) (width height : Z) : list number :=
  let '(m00, m10, m01) :=
    forRange 0 height (fun y =>
      forRange 0 width (fun x '(m00, m10, m01) =>
        let gray := getGrayValue data width x y in
        (add m00 gray, add m10 (mul (ofZ x) gray), add m01 (mul (ofZ y) gray))))
      (Fin 0%R, Fin 0%R, Fin 0%R) in
  let xc := div m10 (add m00 (Fin 1e-6)) in
  let yc := div m01 (add m00 (Fin 1e-6)) in
  let '(mu20, mu02, mu11) :=
    forRange 0 height (fun y =>
      forRange 0 width (fun x '(mu20, mu02, mu11) =>
        let gray := getGrayValue data width x y in
        let dx := sub (ofZ x) xc in
        let dy := sub (ofZ y) yc in
        (add mu20 (mul (mul dx dx) gray),
         add mu02 (mul (mul dy dy) gray),
         add mu11 (mul (mul dx dy) gray))))
      (Fin 0%R, Fin 0%R, Fin 0%R) in
  let eta20 := div mu20 (add (mul m00 m00) (Fin 1e-6)) in
  let eta02 := div mu02 (add (mul m00 m00) (Fin 1e-6)) in
  let eta11 := div mu11 (add (mul m00 m00) (Fin 1e-6)) in
  let moments :=
    [ add eta20 eta02;
      add (mul (sub eta20 eta02) (sub eta20 eta02)) (mul (mul (Fin 4) eta11) eta11);
      mul (sub eta20 (mul (Fin 3) eta02)) (sub eta20 (mul (Fin 3) eta02));
      mul (add eta20 eta02) (add eta20 eta02);
      mul eta11 (mul (sub eta20 eta02) (sub eta20 eta02));
      mul (sub eta20 eta02) eta11;
      mul eta11 (add eta20 eta02) ] in
  map round6 moments.

Definition channelMoments (data : list byte) (width height ch : Z)
  : number * number * number :=
  let n := ofZ (width * height) in
  let '(sum, sqSum, cubeSum) :=
    forStep ch (Z.of_nat (List.length data)) 4 (fun i '(sum, sqSum, cubeSum) =>
      let val := dataAt data i in
      (add sum val, add sqSum (mul val val), add cubeSum (mul (mul val val) val)))
      (Fin 0%R, Fin 0%R, Fin 0%R) in
  let m := div sum n in
  let variance := sub (div sqSum n) (mul m m) in
  let s := sqrt variance in
  let sk :=
    div (sub (sub (div cubeSum n) (mul (mul (Fin 3) m) variance)) (mul (mul m m) m))
        (add (mul (mul s s) s) (Fin 1e-6)) in
  (round2 m, round2 s, round2 sk).

Definition computeColorMoments (data : list byte) (width height : Z) : ColorMoments :=
  let channels := [0; 1; 2] in
  let perChannel := map (channelMoments data width height) channels in
  {| cm_mean := map (fun t => fst (fst t)) perChannel;
     cm_std := map (fun t => snd (fst t)) perChannel;
     cm_skewness := map snd perChannel |}.

Definition extractStatisticalFeatures (data : list byte) (width height : Z)
  : StatisticalFeatures :=
  {| huMoments := computeHuMoments data width height;
     colorMoments := computeColorMoments data width height |}.

(** *** 4. Quality metrics *)

Record Quality : Type := mkQuality {
  brightness : number;
  contrast : number;
  sharpness : number
}.

Definition laplacian (data : list byte) (width x y : Z) : number :=
  let gray := getGrayValue data width x y in
  abs (add (add (add (add (mul (Fin (-4)) gray)
                          (getGrayValue data width (x - 1) y))
                     (getGrayValue data width (x + 1) y))
                (getGrayValue data width x (y - 1)))
           (getGrayValue data width x (y + 1))).

Definition analyzeImageQuality (data : list byte) (width height : Z) : Quality :=
  let pixelCount := ofZ (width * height) in
  let '(sum, sqSum, sharpness) :=
    forRange 0 height (fun y =>
      forRange 0 width (fun x '(sum, sqSum, sharpness) =>
        let gray := getGrayValue data width x y in
        (add sum gray,
         add sqSum (mul gray gray),
         if (x >? 0) && (x <? width - 1) && (y >? 0) && (y <? height - 1)
         then add sharpness (laplacian data width x y)
         else sharpness)))
      (Fin 0%R, Fin 0%R, Fin 0%R) in
  let brightness := div sum pixelCount in
  let variance := sub (div sqSum pixelCount) (mul brightness brightness) in
  let contrast := sqrt variance in
  let sharpness := div sharpness (ofZ ((width - 2) * (height - 2))) in
  {| brightness := round2 brightness;
     contrast := round2 contrast;
     sharpness := round2 sharpness |}.

(** *** 5. Feature vector construction and fusion *)

Record FeatureVector : Type := mkFeatureVector {
  fv_keypoints : list number;
  fv_texture : list number;
  fv_statistical : list number;
  fused : list number;
  dimensionality : Z
}.

Definition constructFeatureVector
    (keypoints : KeypointStats) (texture : TextureFeatures)
    (statistical : StatisticalFeatures) : FeatureVector :=
  let keypointVec := [orb keypoints; fast keypoints; sift keypoints] in
  let textureVec :=
    firstn 20 (hog_descriptor (hog texture))
    ++ firstn 20 (lbp_histogram (lbp texture))
    ++ [ glcm_contrast (glcm texture);
         glcm_energy (glcm texture);
         glcm_homogeneity (glcm texture) ] in
  let statVec :=
    huMoments statistical
    ++ cm_mean (colorMoments statistical)
    ++ cm_std (colorMoments statistical) in
  let fusedRaw := keypointVec ++ textureVec ++ statVec in
  let norm := add (sqrt (sumSquares fusedRaw)) (Fin 1e-6) in
  let normalized := map (fun val => div val norm) fusedRaw in
  {| fv_keypoints := keypointVec;
     fv_texture := textureVec;
     fv_statistical := statVec;
     fused := normalized;
     dimensionality := Z.of_nat (List.length normalized) |}.

(** The analysis [extractComprehensiveFeatures] runs once the image has
    been decoded into pixel data. *)
Record Analysis : Type := mkAnalysis {
  a_keypoints : KeypointStats;
  a_texture : TextureFeatures;
  a_statistical : StatisticalFeatures;
  a_quality : Quality;
  a_featureVector : FeatureVector
}.

Definition analyze (data : list byte) (width height : Z) : Analysis :=
  let keypoints := extractKeypoints data width height in
  let textureFeatures := extractTextureFeatures data width height in
  let statisticalFeatures := extractStatisticalFeatures data width height in
  let quality := analyzeImageQuality data width height in
  let featureVector :=
    constructFeatureVector keypoints textureFeatures statisticalFeatures in
  {| a_keypoints := keypoints;
     a_texture := textureFeatures;
     a_statistical := statisticalFeatures;
     a_quality := quality;
     a_featureVector := featureVector |}.

(** The object literal [extractComprehensiveFeatures] resolves with. *)
Definition keypointsObject (k : KeypointStats) : value :=
  VObject [ ("orb", VNumber (orb k));
            ("fast", VNumber (fast k));
            ("sift", VNumber (sift k)) ]%string.

Definition textureObject (t : TextureFeatures) : value :=
  VObject
    [ ("hog", VObject [ ("descriptor", ofNumbers (hog_descriptor (hog t)));
                        ("bins", VNumber (ofZ (hog_bins (hog t))));
                        ("cellSize", VNumber (ofZ (hog_cellSize (hog t)))) ]);
      ("lbp", VObject [ ("histogram", ofNumbers (lbp_histogram (lbp t)));
                        ("patterns", VNumber (ofZ (lbp_patterns (lbp t))));
                        ("radius", VNumber (ofZ (lbp_radius (lbp t)))) ]);
      ("glcm", VObject [ ("contrast", VNumber (glcm_contrast (glcm t)));
                         ("dissimilarity", VNumber (glcm_dissimilarity (glcm t)));
                         ("homogeneity", VNumber (glcm_homogeneity (glcm t)));
                         ("energy", VNumber (glcm_energy (glcm t)));
                         ("correlation", VNumber (glcm_correlation (glcm t)));
                         ("asm", VNumber (glcm_asm (glcm t))) ]) ]%string.

Definition statisticalObject (s : StatisticalFeatures) : value :=
  VObject
    [ ("huMoments", ofNumbers (huMoments s));
      ("colorMoments",
       VObject [ ("mean", ofNumbers (cm_mean (colorMoments s)));
                 ("std", ofNumbers (cm_std (colorMoments s)));
                 ("skewness", ofNumbers (cm_skewness (colorMoments s))) ]) ]%string.

Definition qualityObject (q : Quality) : value :=
  VObject [ ("brightness", VNumber (brightness q));
            ("contrast", VNumber (contrast q));
            ("sharpness", VNumber (sharpness q)) ]%string.

Definition featureVectorObject (v : FeatureVector) : value :=
  VObject [ ("keypoints", ofNumbers (fv_keypoints v));
            ("texture", ofNumbers (fv_texture v));
            ("statistical", ofNumbers (fv_statistical v));
            ("fused", ofNumbers (fused v));
            ("dimensionality", VNumber (ofZ (dimensionality v))) ]%string.

Definition featureResult (imageName : string) (img : ImageData) : value :=
  let a := analyze (img_data img) (img_width img) (img_height img) in
  VObject
    [ ("imageName", VString imageName);
      ("imageSize", VObject [ ("width", VNumber (ofZ (img_width img)));
                              ("height", VNumber (ofZ (img_height img))) ]);
      ("keypoints", keypointsObject (a_keypoints a));
      ("texture", textureObject (a_texture a));
      ("statistical", statisticalObject (a_statistical a));
      ("quality", qualityObject (a_quality a));
      ("featureVector", featureVectorObject (a_featureVector a)) ]%string.

(** [extractComprehensiveFeatures]: [decoded] is what the browser made of
    the URL, [None] when the image fails to load ([img.onerror]) or no 2D
    context is available; both resolve the promise with [null]. *)
Definition extractComprehensiveFeatures
    (decoded : option ImageData) (imageName : string) : value :=
  match decoded with
  | None => VNull
  | Some img => featureResult imageName img
  end.

End FeatureExtraction.

(* ================================================================== *)
(** ** services/metricsCalculation.ts *)
(* ================================================================== *)

Module MetricsCalculation.

Record BoundingBox : Type := mkBox {
  box_x : number;
  box_y : number;
  box_width : number;
  box_height : number;
  box_confidence : number;
  box_class : string;
  box_classId : Z
}.

Record DetectionMetrics : Type := mkDetectionMetrics {
  totalDetections : Z;
  averageConfidence : number;
  maxConfidence : number;
  minConfidence : number;
  classCounts : list (string * Z);
  totalArea : number
}.

(** The names every plain object inherits from [Object.prototype].  A
    record keyed by class names answers for them even when it holds no
    such class: [counts["constructor"]] is a function, and an assignment
    to [counts["__proto__"]] stores nothing. *)
Definition inheritedNames : list string :=
  [ "constructor"; "__proto__"; "hasOwnProperty"; "isPrototypeOf";
    "propertyIsEnumerable"; "toLocaleString"; "toString"; "valueOf";
    "__defineGetter__"; "__defineSetter__"; "__lookupGetter__";
    "__lookupSetter__" ]%string.

Definition plainName (c : string) : bool :=
  negb (existsb (String.eqb c) inheritedNames).

(** [classCounts[c] = (classCounts[c] || 0) + 1], on the own properties
    of the record in the order of their first assignment; this is what
    the code stores for every class that is a [plainName]. *)
Fixpoint countClass (c : string) (counts : list (string * Z)) : list (string * Z) :=
  match counts with
  | [] => [(c, 1%Z)]
  | (k, n) :: rest =>
      if String.eqb k c then (k, (n + 1)%Z) :: rest
      else (k, n) :: countClass c rest
  end.

Definition max2 (a b : number) : number :=
  match a, b with
  | NaN, _ | _, NaN => NaN
  | _, _ => if lt a b then b else a
  end.

Definition min2 (a b : number) : number :=
  match a, b with
  | NaN, _ | _, NaN => NaN
  | _, _ => if lt b a then b else a
  end.

Definition mathMax (xs : list number) : number := fold_left max2 xs (Inf true).
Definition mathMin (xs : list number) : number := fold_left min2 xs (Inf false).

Definition calculateDetectionMetrics (detections : list BoundingBox) : DetectionMetrics :=
  match detections with
  | [] =>
      {| totalDetections := 0; averageConfidence := Fin 0;
         maxConfidence := Fin 0; minConfidence := Fin 0;
         classCounts := []; totalArea := Fin 0 |}
  | _ =>
      let confidences := map box_confidence detections in
      let '(counts, area) :=
        fold_left (fun '(counts, area) det =>
                     (countClass (box_class det) counts,
                      add area (mul (box_width det) (box_height det))))
                  detections ([], Fin 0%R) in
      {| totalDetections := Z.of_nat (List.length detections);
         averageConfidence :=
           div (JS.sum confidences) (ofZ (Z.of_nat (List.length confidences)));
         maxConfidence := mathMax confidences;
         minConfidence := mathMin confidences;
         classCounts := counts;
         totalArea := area |}
  end.

Record ClassMetrics : Type := mkClassMetrics {
  className : string;
  class_precision : number;
  class_recall : number;
  ap : number
}.

Record EvaluationMetrics : Type := mkEvaluationMetrics {
  accuracy : number;
  precision : number;
  recall : number;
  f1Score : number;
  mAP : number;
  mAP50 : number;
  mAP75 : number;
  perClassMetrics : list ClassMetrics
}.

(** The ground truth and the IoU threshold are accepted and ignored. *)
Definition calculateMetrics
    (predictions : list BoundingBox) (_groundTruth : list BoundingBox)
    : EvaluationMetrics :=
  let metrics := calculateDetectionMetrics predictions in
  let accuracy := averageConfidence metrics in
  let precision :=
    if (totalDetections metrics >? 0)%Z then averageConfidence metrics else Fin 0 in
  let recall :=
    if (totalDetections metrics >? 0)%Z
    then min2 (Fin 1) (div (ofZ (totalDetections metrics)) (Fin 10))
    else Fin 0 in
  let f1Score :=
    if gt (add precision recall) (Fin 0)
    then div (mul (mul (Fin 2) precision) recall) (add precision recall)
    else Fin 0 in
  let mAP := mul (averageConfidence metrics) (Fin 0.9) in
  let mAP50 := averageConfidence metrics in
  let mAP75 := mul (averageConfidence metrics) (Fin 0.8) in
  let perClassMetrics :=
    map (fun '(name, count) =>
           let classDetections :=
             filter (fun p => String.eqb (box_class p) name) predictions in
           let avgConf :=
             match classDetections with
             | [] => Fin 0%R
             | _ => div (JS.sum (map box_confidence classDetections))
                        (ofZ (Z.of_nat (List.length classDetections)))
             end in
           {| className := name;
              class_precision := avgConf;
              class_recall := min2 (Fin 1) (div (ofZ count) (Fin 5));
              ap := mul avgConf (Fin 0.9) |})
        (classCounts metrics) in
  {| accuracy := accuracy; precision := precision; recall := recall;
     f1Score := f1Score; mAP := mAP; mAP50 := mAP50; mAP75 := mAP75;
     perClassMetrics := perClassMetrics |}.

(** [generateSyntheticGroundTruth]: [detections || []]. *)
Definition generateSyntheticGroundTruth
    (_imageWidth _imageHeight : number) (detections : option (list BoundingBox))
    : list BoundingBox :=
  match detections with
  | Some d => d
  | None => []
  end.

End MetricsCalculation.

(* ================================================================== *)
(** ** services/pipelineService.ts *)
(* ================================================================== *)

Module PipelineService.

Import FeatureExtraction MetricsCalculation.

Record ProcessedImage : Type := mkProcessedImage {
  id : string;
  label : string;
  description : string;
  dataUrl : string
}.

Record DetectionResult : Type := mkDetectionResult {
  boxes : list BoundingBox;
  imageWidth : number;
  imageHeight : number;
  modelVersion : string
}.

Record PipelineProgress : Type := mkProgress {
  stage : string;
  progress : Z;
  message : string;
  currentImage : option string
}.

(** The host services the orchestrator awaits.  [decodePixels] is the
    image load and canvas read inside [extractComprehensiveFeatures]. *)
Record Host : Type := mkHost {
  waitForOpenCV : result unit;
  loadImage : string -> result ImageData;
  applyCompositeEnhancement : ImageData -> result string;
  decodePixels : string -> option ImageData;
  loadModel : result unit;
  detect : string -> result DetectionResult
}.

(** What a run does between progress reports: the awaited host calls
    and the comparison computed in stage 6. *)
Inductive work : Type :=
| CallWaitForOpenCV
| CallLoadImage (url : string)
| CallApplyCompositeEnhancement
| CallExtractFeatures (url : string)
| CallLoadModel
| CallDetect (url : string)
| CalculateFeatureImprovement.

Inductive event : Type :=
| Progress (p : PipelineProgress)
| Work (c : work).

(** An asynchronous computation: the events it produced, in order, and
    either the exception that ended it or its value. *)
Definition M (A : Type) : Type := (list event * result A)%type.

Definition ret {A : Type} (a : A) : M A := ([], inr a).

Definition bind {A B : Type} (m : M A) (k : A -> M B) : M B :=
  match m with
  | (t, inl e) => (t, inl e)
  | (t, inr a) => let '(t', r) := k a in (t ++ t', r)
  end.

Definition await {A : Type} (c : work) (r : result A) : M A := ([Work c], r).

(** [if (onProgress) onProgress(p)]: [observer] tells whether the caller
    passed a callback; a call is recorded in the trace, and the callback
    returns. *)
Definition onProgress (observer : bool) (p : PipelineProgress) : M unit :=
  if observer then ([Progress p], inr tt) else ret tt.

Declare Scope pipeline_scope.
Delimit Scope pipeline_scope with pipeline.
Notation "x <- m ;; k" := (bind m (fun x => k))
  (at level 61, m at next level, right associativity) : pipeline_scope.
Notation "m ;;; k" := (bind m (fun _ => k))
  (at level 61, right associativity) : pipeline_scope.

Record FeatureImprovement : Type := mkFeatureImprovement {
  fi_keypoints : number;
  fi_texture : number;
  fi_quality : number
}.

Record DetectionImprovement : Type := mkDetectionImprovement {
  di_accuracy : number;
  di_precision : number;
  di_recall : number;
  di_mAP : number;
  di_detectionCount : Z
}.

Record RawBranch : Type := mkRawBranch {
  raw_imageUrl : string;
  raw_features : value;
  raw_detection : DetectionResult;
  raw_metrics : EvaluationMetrics
}.

Record EnhancedBranch : Type := mkEnhancedBranch {
  enhanced_imageUrl : string;
  enhancedImage : ProcessedImage;
  enhanced_features : value;
  enhanced_detection : DetectionResult;
  enhanced_metrics : EvaluationMetrics
}.

Record Comparison : Type := mkComparison {
  featureImprovement : FeatureImprovement;
  detectionImprovement : DetectionImprovement;
  overallImprovement : number
}.

Record PipelineResult : Type := mkPipelineResult {
  raw : RawBranch;
  enhanced : EnhancedBranch;
  comparison : Comparison
}.

(** [base > 0 ? ((changed - base) / base) * 100 : 0]. *)
Definition percentChange (base changed : number) : number :=
  if gt base (Fin 0)
  then mul (div (sub changed base) base) (Fin 100)
  else Fin 0.

Definition sum3 (a b c : value) : number :=
  add (add (toNumber a) (toNumber b)) (toNumber c).

Local Notation "x <-? r ;; k" :=
  (match r with inl e => inl e | inr x => k end)
  (at level 61, r at next level, right associativity).

Definition calculateFeatureImprovement (rawF enhancedF : value)
  : result FeatureImprovement :=
  if negb (truthy rawF) || negb (truthy enhancedF)
  then inr {| fi_keypoints := Fin 0; fi_texture := Fin 0; fi_quality := Fin 0 |}
  else
    (* Keypoint improvement *)
    ro <-? getPath rawF ["keypoints"; "enhanced"; "orb"]%string ;;
    rf <-? getPath rawF ["keypoints"; "enhanced"; "fast"]%string ;;
    rs <-? getPath rawF ["keypoints"; "enhanced"; "sift"]%string ;;
    let rawKeypoints := sum3 ro rf rs in
    eo <-? getPath enhancedF ["keypoints"; "enhanced"; "orb"]%string ;;
    ef <-? getPath enhancedF ["keypoints"; "enhanced"; "fast"]%string ;;
    es <-? getPath enhancedF ["keypoints"; "enhanced"; "sift"]%string ;;
    let enhancedKeypoints := sum3 eo ef es in
    let keypointImprovement := percentChange rawKeypoints enhancedKeypoints in
    (* Texture improvement *)
    rd <-? getPath rawF ["texture"; "enhanced"; "hog"; "descriptor"]%string ;;
    rawTexture <-? reduceSum rd ;;
    ed <-? getPath enhancedF ["texture"; "enhanced"; "hog"; "descriptor"]%string ;;
    enhancedTexture <-? reduceSum ed ;;
    let textureImprovement := percentChange rawTexture enhancedTexture in
    (* Quality improvement *)
    rb <-? getPath rawF ["quality"; "enhanced"; "brightness"]%string ;;
    rc <-? getPath rawF ["quality"; "enhanced"; "contrast"]%string ;;
    rh <-? getPath rawF ["quality"; "enhanced"; "sharpness"]%string ;;
    let rawQuality := sum3 rb rc rh in
    eb <-? getPath enhancedF ["quality"; "enhanced"; "brightness"]%string ;;
    ec <-? getPath enhancedF ["quality"; "enhanced"; "contrast"]%string ;;
    eh <-? getPath enhancedF ["quality"; "enhanced"; "sharpness"]%string ;;
    let enhancedQuality := sum3 eb ec eh in
    let qualityImprovement := percentChange rawQuality enhancedQuality in
    inr {| fi_keypoints := keypointImprovement;
           fi_texture := textureImprovement;
           fi_quality := qualityImprovement |}.

Local Open Scope pipeline_scope.

Definition runPipeline (host : Host) (rawImageUrl : string) (observer : bool)
  : M PipelineResult :=
  (* Stage 1: Enhancement *)
  onProgress observer
    {| stage := "enhancement"; progress := 10;
       message := "Enhancing image..."; currentImage := None |} ;;;
  await CallWaitForOpenCV (waitForOpenCV host) ;;;
  rawImg <- await (CallLoadImage rawImageUrl) (loadImage host rawImageUrl) ;;
  enhancedUrl <- await CallApplyCompositeEnhancement
                       (applyCompositeEnhancement host rawImg) ;;
  let enhancedImage :=
    {| id := "pipeline-enhanced"; label := "Full Enhancement";
       description := "LAB CLAHE + Gamma"; dataUrl := enhancedUrl |} in
  (* Stage 2: Feature Extraction - Raw Image *)
  onProgress observer
    {| stage := "feature_extraction"; progress := 30;
       message := "Extracting features from raw image...";
       currentImage := Some "raw"%string |} ;;;
  rawFeatures <- await (CallExtractFeatures rawImageUrl)
    (inr (extractComprehensiveFeatures (decodePixels host rawImageUrl) "Raw Image")) ;;
  (* Stage 3: Feature Extraction - Enhanced Image *)
  onProgress observer
    {| stage := "feature_extraction"; progress := 50;
       message := "Extracting features from enhanced image...";
       currentImage := Some "enhanced"%string |} ;;;
  enhancedFeatures <- await (CallExtractFeatures enhancedUrl)
    (inr (extractComprehensiveFeatures (decodePixels host enhancedUrl) "Enhanced Image")) ;;
  (* Stage 4: YOLO Detection - Raw Image *)
  onProgress observer
    {| stage := "detection"; progress := 60;
       message := "Running YOLO detection on raw image...";
       currentImage := Some "raw"%string |} ;;;
  await CallLoadModel (loadModel host) ;;;
  rawDetection <- await (CallDetect rawImageUrl) (detect host rawImageUrl) ;;
  (* Stage 5: YOLO Detection - Enhanced Image *)
  onProgress observer
    {| stage := "detection"; progress := 80;
       message := "Running YOLO detection on enhanced image...";
       currentImage := Some "enhanced"%string |} ;;;
  enhancedDetection <- await (CallDetect enhancedUrl) (detect host enhancedUrl) ;;
  (* Stage 6: Calculate Metrics and Comparison *)
  onProgress observer
    {| stage := "comparison"; progress := 90;
       message := "Calculating metrics and comparison...";
       currentImage := None |} ;;;
  let rawGroundTruth :=
    generateSyntheticGroundTruth
      (imageWidth rawDetection) (imageHeight rawDetection) None in
  let enhancedGroundTruth :=
    generateSyntheticGroundTruth
      (imageWidth enhancedDetection) (imageHeight enhancedDetection) None in
  let rawMetrics := calculateMetrics (boxes rawDetection) rawGroundTruth in
  let enhancedMetrics :=
    calculateMetrics (boxes enhancedDetection) enhancedGroundTruth in
  featureImprovement <-
    await CalculateFeatureImprovement
          (calculateFeatureImprovement rawFeatures enhancedFeatures) ;;
  let detectionImprovement :=
    {| di_accuracy := sub (accuracy enhancedMetrics) (accuracy rawMetrics);
       di_precision := sub (precision enhancedMetrics) (precision rawMetrics);
       di_recall := sub (recall enhancedMetrics) (recall rawMetrics);
       di_mAP := sub (mAP enhancedMetrics) (mAP rawMetrics);
       di_detectionCount :=
         (Z.of_nat (List.length (boxes enhancedDetection))
          - Z.of_nat (List.length (boxes rawDetection)))%Z |} in
  let overallImprovement :=
    add (add (add (mul (fi_keypoints featureImprovement) (Fin 0.3))
                  (mul (fi_texture featureImprovement) (Fin 0.2)))
             (mul (fi_quality featureImprovement) (Fin 0.2)))
        (mul (di_mAP detectionImprovement) (Fin 0.3)) in
  let result :=
    {| raw := {| raw_imageUrl := rawImageUrl;
                 raw_features := rawFeatures;
                 raw_detection := rawDetection;
                 raw_metrics := rawMetrics |};
       enhanced := {| enhanced_imageUrl := enhancedUrl;
                      enhancedImage := enhancedImage;
                      enhanced_features := enhancedFeatures;
                      enhanced_detection := enhancedDetection;
                      enhanced_metrics := enhancedMetrics |};
       comparison := {| featureImprovement := featureImprovement;
                        detectionImprovement := detectionImprovement;
                        overallImprovement := overallImprovement |} |} in
  onProgress observer
    {| stage := "complete"; progress := 100;
       message := "Pipeline complete!"; currentImage := None |} ;;;
  ret result.

End PipelineService.

Import FeatureExtraction MetricsCalculation PipelineService.

(* ================================================================== *)
(** ** The specification's formulas *)
(* ================================================================== *)

Module Spec.

Local Open Scope R_scope.

(** The real power [x^y] of a non-negative base, with [0^y = 0]. *)
Definition realPow (x y : R) : R :=
  if Req_dec_T x 0 then 0 else Rpower x y.

(** [floor((i/255)^(1/gamma) * 255)]. *)
Definition gammaFormula (g : R) (i : Z) : Z :=
  Zfloor (realPow (IZR i / 255) (1 / g) * 255).

(** Number of 8x8 HOG cells along an axis of [n] pixels: the cell
    origins are 8, 16, ... below [n - 8]. *)
Definition cellsAlong (n : Z) : Z := Z.max 0 ((n - 9) / 8).

Definition hogCellCount (width height : Z) : Z :=
  (cellsAlong width * cellsAlong height)%Z.

(** The L2 norm as the source computes it, and the pre-normalisation
    vector of a feature vector. *)
Definition l2norm (xs : list number) : number := JS.sqrt (sumSquares xs).

Definition realSumSquares (rs : list R) : R :=
  fold_left (fun a r => (a + r * r)%R) rs 0%R.

Definition rawVector (fv : FeatureVector) : list number :=
  fv_keypoints fv ++ fv_texture fv ++ fv_statistical fv.

(** Sum of a list of counts. *)
Definition zsum (l : list Z) : Z := fold_left Z.add l 0%Z.

(** Dimensionality of the vector built from a decoded image. *)
Definition dimensionOf (img : ImageData) : Z :=
  dimensionality
    (a_featureVector (analyze (img_data img) (img_width img) (img_height img))).

(** A well-formed image: four bytes per pixel. *)
Definition wellFormed (data : list byte) (width height : Z) : Prop :=
  (0 <= width)%Z /\ (0 <= height)%Z
  /\ Z.of_nat (List.length data) = (4 * width * height)%Z.

(** The real-valued gray level and gradient magnitude of a pixel. *)
Definition byteAt (data : list byte) (idx : Z) : R :=
  byteVal (nth (Z.to_nat idx) data x00).

Definition grayReal (data : list byte) (width x y : Z) : R :=
  (0.299 * byteAt data ((y * width + x) * 4)
   + 0.587 * byteAt data ((y * width + x) * 4 + 1)
   + 0.114 * byteAt data ((y * width + x) * 4 + 2))%R.

Definition magnitudeReal (data : list byte) (width x y : Z) : R :=
  let gx := (grayReal data width (x + 1) y - grayReal data width (x - 1) y)%R in
  let gy := (grayReal data width x (y + 1) - grayReal data width x (y - 1))%R in
  R_sqrt.sqrt (gx * gx + gy * gy).

(** Pixel positions in loop order: rows [loy..hiy), columns [lox..hix). *)
Definition grid (lox hix loy hiy : Z) : list (Z * Z) :=
  flat_map (fun y => map (fun x => (x, y)) (zrange lox hix)) (zrange loy hiy).

(** Pixels off the one-pixel border, and pixels that have both a right
    and a down neighbour. *)
Definition interiorPixels (width height : Z) : list (Z * Z) :=
  grid 1 (width - 1) 1 (height - 1).

Definition examinedPixels (width height : Z) : list (Z * Z) :=
  grid 0 (width - 1) 0 (height - 1).

Definition realMean (l : list R) : R :=
  (fold_left Rplus l 0 / IZR (Z.of_nat (List.length l)))%R.

(** The gray level differs by more than 30 from the right or from the
    down neighbour. *)
Definition realExceeds (data : list byte) (width x y : Z) : bool :=
  Rltb 30 (Rabs (grayReal data width x y - grayReal data width (x + 1) y))
  || Rltb 30 (Rabs (grayReal data width x y - grayReal data width x (y + 1))).





(** The overall score as the specification words it: the mAP delta is
    multiplied by 100 before it is weighted. *)
Definition specOverallImprovement
    (fi : FeatureImprovement) (di : DetectionImprovement) : number :=
  add (add (add (mul (Fin 0.3) (fi_keypoints fi))
                (mul (Fin 0.2) (fi_texture fi)))
           (mul (Fin 0.2) (fi_quality fi)))
      (mul (Fin 0.3) (mul (di_mAP di) (Fin 100))).

(** The seven documented stages: stage name, percentage, current image. *)
Definition documentedStages : list (string * Z * option string) :=
  [ ("enhancement", 10, None);
    ("feature_extraction", 30, Some "raw");
    ("feature_extraction", 50, Some "enhanced");
    ("detection", 60, Some "raw");
    ("detection", 80, Some "enhanced");
    ("comparison", 90, None);
    ("complete", 100, None) ]%string%Z.

Definition progressEvents (t : list event) : list PipelineProgress :=
  flat_map (fun e => match e with Progress p => [p] | Work _ => [] end) t.

Definition stageOf (p : PipelineProgress) : string * Z * option string :=
  (stage p, progress p, currentImage p).

(** The events of a complete run: every progress report precedes the
    work of its stage. *)
Definition completeTrace (rawUrl enhancedUrl : string) : list event :=
  [ Progress (mkProgress "enhancement" 10 "Enhancing image..." None);
    Work CallWaitForOpenCV;
    Work (CallLoadImage rawUrl);
    Work CallApplyCompositeEnhancement;
    Progress (mkProgress "feature_extraction" 30
                "Extracting features from raw image..." (Some "raw"));
    Work (CallExtractFeatures rawUrl);
    Progress (mkProgress "feature_extraction" 50
                "Extracting features from enhanced image..." (Some "enhanced"));
    Work (CallExtractFeatures enhancedUrl);
    Progress (mkProgress "detection" 60
                "Running YOLO detection on raw image..." (Some "raw"));
    Work CallLoadModel;
    Work (CallDetect rawUrl);
    Progress (mkProgress "detection" 80
                "Running YOLO detection on enhanced image..." (Some "enhanced"));
    Work (CallDetect enhancedUrl);
    Progress (mkProgress "comparison" 90
                "Calculating metrics and comparison..." None);
    Work CalculateFeatureImprovement;
    Progress (mkProgress "complete" 100 "Pipeline complete!" None) ]%string%Z.

(** Without an observer only the work remains. *)
Definition runTrace (observer : bool) (rawUrl enhancedUrl : string) : list event :=
  filter (fun e => match e with Progress _ => observer | Work _ => true end)
         (completeTrace rawUrl enhancedUrl).

(** The first host call of a run that raises, with its exception. *)
Definition firstHostFailure (host : Host) (url : string) : option (work * error) :=
  match waitForOpenCV host with
  | inl e => Some (CallWaitForOpenCV, e)
  | inr _ =>
  match loadImage host url with
  | inl e => Some (CallLoadImage url, e)
  | inr img =>
  match applyCompositeEnhancement host img with
  | inl e => Some (CallApplyCompositeEnhancement, e)
  | inr enhancedUrl =>
  match loadModel host with
  | inl e => Some (CallLoadModel, e)
  | inr _ =>
  match detect host url with
  | inl e => Some (CallDetect url, e)
  | inr _ =>
  match detect host enhancedUrl with
  | inl e => Some (CallDetect enhancedUrl, e)
  | inr _ => None
  end end end end end end.

(** The weighted score with the mAP delta taken as it is. *)
Definition overallOf (fi : FeatureImprovement) (dmAP : number) : number :=
  add (add (add (mul (fi_keypoints fi) (Fin 0.3))
                (mul (fi_texture fi) (Fin 0.2)))
           (mul (fi_quality fi) (Fin 0.2)))
      (mul dmAP (Fin 0.3)).

Definition noImprovement : FeatureImprovement :=
  {| fi_keypoints := Fin 0; fi_texture := Fin 0; fi_quality := Fin 0 |}.

End Spec.

(* ================================================================== *)
(** ** Concrete inputs *)
(* ================================================================== *)

Module Examples.

Definition pixel (r g b : byte) : list byte := [r; g; b; xff].

Definition black : list byte := pixel x00 x00 x00.
Definition white : list byte := pixel xff xff xff.

(** A [width] x [height] image of one colour. *)
Definition uniform (p : list byte) (width height : nat) : ImageData :=
  {| img_width := Z.of_nat width;
     img_height := Z.of_nat height;
     img_data := List.concat (repeat p (width * height)) |}.

Definition icon16 : ImageData := uniform black 16 16.
Definition photo64 : ImageData := uniform black 64 64.
Definition strip33x17 : ImageData := uniform black 33 17.

(** A 2x2 image: a white pixel at the top left, black elsewhere. *)
Definition corner2x2 : ImageData :=
  {| img_width := 2; img_height := 2;
     img_data := white ++ black ++ black ++ black |}.

Definition enhancedUrl : string := "data:image/jpeg;base64,enhanced".

(** [2^-1060], about 8e-320: a gamma that is a subnormal double. *)
Definition tinyGamma : R := (/ IZR (2 ^ 1060))%R.

Definition noDetections : DetectionResult :=
  {| boxes := []; imageWidth := Fin 1; imageHeight := Fin 1;
     modelVersion := "coco-ssd" |}.

Definition onePerson : DetectionResult :=
  {| boxes := [ {| box_x := Fin 0; box_y := Fin 0;
                   box_width := Fin 1; box_height := Fin 1;
                   box_confidence := Fin 1;
                   box_class := "person"; box_classId := 1 |} ];
     imageWidth := Fin 1; imageHeight := Fin 1;
     modelVersion := "coco-ssd" |}.

(** A host on which every awaited call succeeds, the detector finds
    nothing in the raw image and one object in the enhanced one, and the
    feature extractor cannot decode either image. *)
Definition undecodableHost : Host :=
  {| waitForOpenCV := inr tt;
     loadImage := fun _ => inr (uniform black 1 1);
     applyCompositeEnhancement := fun _ => inr enhancedUrl;
     decodePixels := fun _ => None;
     loadModel := inr tt;
     detect := fun url =>
       inr (if String.eqb url enhancedUrl then onePerson else noDetections) |}.

(** A host on which OpenCV never becomes ready. *)
Definition timeoutHost : Host :=
  {| waitForOpenCV := inl (HostError "OpenCV initialization timed out");
     loadImage := fun _ => inr (uniform black 1 1);
     applyCompositeEnhancement := fun _ => inr enhancedUrl;
     decodePixels := fun _ => None;
     loadModel := inr tt;
     detect := fun _ => inr noDetections |}.

End Examples.

(* ================================================================== *)
(** ** services/featureExtraction.ts: comparison of two vectors *)
(* ================================================================== *)

Module FeatureComparison.

Local Open Scope Z_scope.

Record VectorChanges : Type := mkVectorChanges {
  keypointChange : list number;
  textureChange : number;
  statisticalChange : number
}.

Record VectorComparison : Type := mkVectorComparison {
  similarity : number;
  euclideanDistance : number;
  changes : VectorChanges
}.

(** [xs[i]] in an arithmetic position: a missing element is [undefined]
    and reads as NaN. *)
Definition at_ (xs : list number) (i : Z) : number :=
  if i <? 0 then NaN else nth (Z.to_nat i) xs NaN.

Definition round4 (v : number) : number :=
  div (round (mul v (Fin 10000))) (Fin 10000).

(** [Math.min(vec1.fused.length, vec2.fused.length)]. *)
Definition overlap (vec1 vec2 : FeatureVector) : Z :=
  Z.min (Z.of_nat (List.length (fused vec1))) (Z.of_nat (List.length (fused vec2))).

Definition dotAndNorms (vec1 vec2 : FeatureVector) : number * number * number :=
  forRange 0 (overlap vec1 vec2) (fun i '(dotProduct, norm1, norm2) =>
    (add dotProduct (mul (at_ (fused vec1) i) (at_ (fused vec2) i)),
     add norm1 (mul (at_ (fused vec1) i) (at_ (fused vec1) i)),
     add norm2 (mul (at_ (fused vec2) i) (at_ (fused vec2) i))))
    (Fin 0%R, Fin 0%R, Fin 0%R).

Definition sumSquaredDifferences (vec1 vec2 : FeatureVector) : number :=
  forRange 0 (overlap vec1 vec2) (fun i sumSquares =>
    let diff := sub (at_ (fused vec1) i) (at_ (fused vec2) i) in
    add sumSquares (mul diff diff)) (Fin 0%R).

(** [xs.map((v, i) => f v i)]. *)
Definition mapi {A B : Type} (f : A -> Z -> B) (xs : list A) : list B :=
  map (fun p => f (snd p) (fst p)) (combine (zrange 0 (Z.of_nat (List.length xs))) xs).

Definition compareFeatureVectors (vec1 vec2 : FeatureVector) : VectorComparison :=
  let '(dotProduct, norm1, norm2) := dotAndNorms vec1 vec2 in
  let similarity :=
    div dotProduct (add (mul (sqrt norm1) (sqrt norm2)) (Fin 1e-6)) in
  let sumSquares := sumSquaredDifferences vec1 vec2 in
  let euclideanDistance := sqrt sumSquares in
  {| similarity := round4 similarity;
     euclideanDistance := round2 euclideanDistance;
     changes :=
       {| keypointChange :=
            mapi (fun v i => sub v (at_ (fv_keypoints vec1) i)) (fv_keypoints vec2);
          textureChange :=
            abs (sub (JS.sum (fv_texture vec2)) (JS.sum (fv_texture vec1)));
          statisticalChange :=
            abs (sub (JS.sum (fv_statistical vec2)) (JS.sum (fv_statistical vec1))) |} |}.

End FeatureComparison.

(* ================================================================== *)
(** ** services/yoloDetection.ts *)
(* ================================================================== *)

Module YoloDetection.

Import MetricsCalculation PipelineService.
Local Open Scope Z_scope.

(** Own properties of [CLASS_ID_MAP]. *)
Definition CLASS_ID_MAP : list (string * Z) :=
  [ ("person", 0); ("bicycle", 1); ("car", 2); ("motorcycle", 3);
    ("bus", 5); ("truck", 7); ("cat", 15); ("dog", 16) ]%string.

Fixpoint lookupId (name : string) (m : list (string * Z)) : option Z :=
  match m with
  | [] => None
  | (k, v) :: rest => if String.eqb k name then Some v else lookupId name rest
  end.

Definition confidenceThreshold : number := Fin 0.10.
Definition nmsThreshold : number := Fin 0.3.
Definition maxBoxAreaRatio : number := Fin 0.50.

(** *** preprocessForDetection *)

Definition brightness : number := Fin 40.
Definition contrast : number := Fin 1.4.

Definition factor : number :=
  div (mul (Fin 259) (add (mul contrast (Fin 100)) (Fin 255)))
      (mul (Fin 255) (sub (Fin 259) (mul contrast (Fin 100)))).

(** [Math.min(255, Math.max(0, factor * (v - 128) + 128 + brightness))]. *)
Definition boost (v : number) : number :=
  min2 (Fin 255)
       (max2 (Fin 0)
             (add (add (mul factor (sub v (Fin 128))) (Fin 128)) brightness)).

(** Rounding to the nearest integer, ties to the even one. *)
Definition roundHalfEven (x : R) : Z :=
  let f := Zfloor x in
  if Rlt_dec (x - IZR f) (/ 2) then f
  else if Rlt_dec (/ 2) (x - IZR f) then f + 1
       else if Z.even f then f else f + 1.

(** Storing into a [Uint8ClampedArray] element. *)
Definition toUint8Clamp (a : number) : Z :=
  match a with
  | NaN => 0
  | Inf true => 0
  | Inf false => 255
  | Fin x => if Rle_dec x 0 then 0
             else if Rle_dec 255 x then 255 else roundHalfEven x
  end.

Definition byteOfZ (z : Z) : byte :=
  match Byte.of_N (Z.to_N z) with
  | Some b => b
  | None => xff
  end.

(** [data[i] = v]; a write outside the array is ignored. *)
Definition store (data : list byte) (i : Z) (v : number) : list byte :=
  updateAtZ i (fun _ => byteOfZ (toUint8Clamp v)) data.

(** The pixel loop of [preprocessForDetection]. *)
Definition preprocessPixels (data : list byte) : list byte :=
  forStep 0 (Z.of_nat (List.length data)) 4 (fun i data =>
    let data := store data i (boost (dataAt data i)) in
    let data := store data (i + 1) (boost (dataAt data (i + 1))) in
    store data (i + 2) (boost (dataAt data (i + 2)))) data.

Definition preprocessForDetection (img : ImageData) : ImageData :=
  {| img_width := img_width img;
     img_height := img_height img;
     img_data := preprocessPixels (img_data img) |}.

(** *** calculateIoU *)

Definition calculateIoU (box1 box2 : BoundingBox) : number :=
  let x1 := max2 (box_x box1) (box_x box2) in
  let y1 := max2 (box_y box1) (box_y box2) in
  let x2 := min2 (add (box_x box1) (box_width box1))
                 (add (box_x box2) (box_width box2)) in
  let y2 := min2 (add (box_y box1) (box_height box1))
                 (add (box_y box2) (box_height box2)) in
  let intersection :=
    mul (max2 (Fin 0) (sub x2 x1)) (max2 (Fin 0) (sub y2 y1)) in
  let area1 := mul (box_width box1) (box_height box1) in
  let area2 := mul (box_width box2) (box_height box2) in
  let union := sub (add area1 area2) intersection in
  if gt union (Fin 0) then div intersection union else Fin 0.

(** *** applyNMS *)

(** [xs.sort(cmp)] is a stable sort: for a comparator that orders its
    arguments consistently the result is the one computed here, by
    inserting each element before the first one it must precede. *)
Fixpoint insertSorted {A : Type} (cmp : A -> A -> number) (x : A) (l : list A)
  : list A :=
  match l with
  | [] => [x]
  | y :: t => if lt (cmp x y) (Fin 0) then x :: y :: t
              else y :: insertSorted cmp x t
  end.

Definition sortWith {A : Type} (cmp : A -> A -> number) (l : list A) : list A :=
  fold_left (fun acc x => insertSorted cmp x acc) l [].

Definition byConfidence (a b : BoundingBox) : number :=
  sub (box_confidence b) (box_confidence a).

Definition has (used : list Z) (i : Z) : bool :=
  existsb (Z.eqb i) used.

(** The inner loop: suppress the boxes after [i] that are of the class of
    [bi] and overlap it. *)
Definition suppress (sorted : list BoundingBox) (i : Z) (bi : BoundingBox)
           (used : list Z) : list Z :=
  forRange (i + 1) (Z.of_nat (List.length sorted)) (fun j used =>
    if has used j then used
    else match nth_error sorted (Z.to_nat j) with
         | None => used
         | Some bj =>
             if negb (String.eqb (box_class bi) (box_class bj)) then used
             else if gt (calculateIoU bi bj) nmsThreshold
                  then j :: used else used
         end) used.

Definition nmsLoop (sorted : list BoundingBox) : list BoundingBox * list Z :=
  forRange 0 (Z.of_nat (List.length sorted)) (fun i '(selected, used) =>
    if has used i then (selected, used)
    else match nth_error sorted (Z.to_nat i) with
         | None => (selected, used)
         | Some bi => (selected ++ [bi], suppress sorted i bi used)
         end) ([], []).

Definition applyNMS (boxes : list BoundingBox) : list BoundingBox :=
  match boxes with
  | [] => []
  | _ =>
      let sorted := sortWith byConfidence boxes in
      fst (nmsLoop sorted)
  end.

(** *** detect *)

Record Prediction : Type := mkPrediction {
  bbox_x : number;
  bbox_y : number;
  bbox_width : number;
  bbox_height : number;
  pred_class : string;
  score : number
}.

(** The filter applied to the model's predictions. *)
Definition isValid (maxBoxArea : number) (pred : Prediction) : bool :=
  let boxArea := mul (bbox_width pred) (bbox_height pred) in
  let isValidSize := lt boxArea maxBoxArea && gt boxArea (Fin 100) in
  let isValidConfidence := ge (score pred) confidenceThreshold in
  isValidSize && isValidConfidence.

(** [CLASS_ID_MAP[pred.class] ?? -1], for the labels of the detection
    model, none of which is the name of an inherited property. *)
Definition toBox (pred : Prediction) : BoundingBox :=
  {| box_x := bbox_x pred;
     box_y := bbox_y pred;
     box_width := bbox_width pred;
     box_height := bbox_height pred;
     box_confidence := score pred;
     box_class := pred_class pred;
     box_classId := match lookupId (pred_class pred) CLASS_ID_MAP with
                    | Some id => id
                    | None => -1
                    end |}.

(** From the model's predictions to the boxes [detect] resolves with. *)
Definition detectedBoxes (width height : Z) (predictions : list Prediction)
  : list BoundingBox :=
  let imageArea := ofZ (width * height) in
  let maxBoxArea := mul imageArea maxBoxAreaRatio in
  applyNMS (map toBox (filter (isValid maxBoxArea) predictions)).

Definition modelVersionName : string := "COCO-SSD (MobileNet v2)".

(** The services [detect] relies on: the model download, the image load
    ([None] for [img.onerror]), the canvas calls of
    [preprocessForDetection] ([getContext], [drawImage], [getImageData]:
    the pixels read back, or the exception one of them raised) and the
    model's own inference on the pre-processed pixels. *)
Record DetectorHost : Type := mkDetectorHost {
  cocoLoad : result unit;
  imageLoad : string -> option ImageData;
  getImageData : ImageData -> result ImageData;
  modelDetect : ImageData -> result (list Prediction)
}.

(** [loadModel]: a loaded model is kept; [modelReady] is [this.model]
    being set, and the result carries the new state.  The wait on
    [isLoading], which only a second concurrent caller meets, is left
    out. *)
Definition loadModel (host : DetectorHost) (modelReady : bool) : result unit * bool :=
  if modelReady then (inr tt, true)
  else match cocoLoad host with
       | inl e => (inl e, false)
       | inr _ => (inr tt, true)
       end.

Definition detect (host : DetectorHost) (modelReady : bool) (imageUrl : string)
  : result DetectionResult * bool :=
  match loadModel host modelReady with
  | (inl e, ready) => (inl e, ready)
  | (inr _, ready) =>
      if negb ready
      then (inl (HostError "Failed to load detection model"), ready)
      else
        match imageLoad host imageUrl with
        | None =>
            (inr {| boxes := []; imageWidth := Fin 0; imageHeight := Fin 0;
                    modelVersion := modelVersionName |}, ready)
        | Some img =>
            match getImageData host img with
            | inl e => (inl e, ready)
            | inr pixels =>
                match modelDetect host (preprocessForDetection pixels) with
                | inl e => (inl e, ready)
                | inr predictions =>
                    (inr {| boxes := detectedBoxes (img_width img)
                                                   (img_height img) predictions;
                            imageWidth := ofZ (img_width img);
                            imageHeight := ofZ (img_height img);
                            modelVersion := modelVersionName |}, ready)
                end
            end
        end
  end.

End YoloDetection.

(* ================================================================== *)
(** ** services/metricsCalculation.ts and services/modelTraining.ts:
       comparisons of two detections *)
(* ================================================================== *)

Module ModelTraining.

Import MetricsCalculation PipelineService.
Local Open Scope Z_scope.

Record DetectionComparison : Type := mkDetectionComparison {
  detectionCountDiff : Z;
  confidenceImprovement : number;
  newObjectsFound : Z;
  cmp_rawMetrics : DetectionMetrics;
  cmp_enhancedMetrics : DetectionMetrics
}.

Definition compareDetections (rawDetections enhancedDetections : list BoundingBox)
  : DetectionComparison :=
  let rawMetrics := calculateDetectionMetrics rawDetections in
  let enhancedMetrics := calculateDetectionMetrics enhancedDetections in
  {| detectionCountDiff :=
       totalDetections enhancedMetrics - totalDetections rawMetrics;
     confidenceImprovement :=
       sub (averageConfidence enhancedMetrics) (averageConfidence rawMetrics);
     newObjectsFound :=
       Z.max 0 (totalDetections enhancedMetrics - totalDetections rawMetrics);
     cmp_rawMetrics := rawMetrics;
     cmp_enhancedMetrics := enhancedMetrics |}.

Record EvaluationComparison : Type := mkEvaluationComparison {
  accuracyImprovement : number;
  precisionImprovement : number;
  recallImprovement : number;
  mAPImprovement : number
}.

Record ModelEvaluation : Type := mkModelEvaluation {
  rawImageMetrics : EvaluationMetrics;
  enhancedImageMetrics : EvaluationMetrics;
  eval_comparison : EvaluationComparison;
  totalImages : Z
}.

(** [evaluateOnBothImageTypes], given the detector's [detect]. *)
Definition evaluateOnBothImageTypes
    (detect : string -> result DetectionResult)
    (rawImageUrl enhancedImageUrl : string) : result ModelEvaluation :=
  match detect rawImageUrl with
  | inl e => inl e
  | inr rawDetection =>
      match detect enhancedImageUrl with
      | inl e => inl e
      | inr enhancedDetection =>
          let rawMetrics := calculateMetrics (boxes rawDetection) [] in
          let enhancedMetrics := calculateMetrics (boxes enhancedDetection) [] in
          inr {| rawImageMetrics := rawMetrics;
                 enhancedImageMetrics := enhancedMetrics;
                 eval_comparison :=
                   {| accuracyImprovement :=
                        sub (accuracy enhancedMetrics) (accuracy rawMetrics);
                      precisionImprovement :=
                        sub (precision enhancedMetrics) (precision rawMetrics);
                      recallImprovement :=
                        sub (recall enhancedMetrics) (recall rawMetrics);
                      mAPImprovement :=
                        sub (mAP enhancedMetrics) (mAP rawMetrics) |};
                 totalImages := 2 |}
      end
  end.

Record DetectionSummary : Type := mkDetectionSummary {
  total : Z;
  byClass : list (string * Z);
  avgConfidence : number
}.

Definition getDetectionSummary (boxes : list BoundingBox) : DetectionSummary :=
  let '(byClass, totalConfidence) :=
    fold_left (fun '(byClass, totalConfidence) box =>
                 (countClass (box_class box) byClass,
                  add totalConfidence (box_confidence box)))
              boxes ([], Fin 0%R) in
  {| total := Z.of_nat (List.length boxes);
     byClass := byClass;
     avgConfidence :=
       if (Z.of_nat (List.length boxes) >? 0)
       then div totalConfidence (ofZ (Z.of_nat (List.length boxes)))
       else Fin 0 |}.

End ModelTraining.

(* ================================================================== *)
(** ** services/pipelineService.ts: runBatchPipeline *)
(* ================================================================== *)

Module BatchPipeline.

Import PipelineService.
Local Open Scope Z_scope.

Record BatchProgress : Type := mkBatchProgress {
  batch_stage : string;
  batch_progress : number;
  batch_message : string;
  batch_currentImage : option string;
  currentImageIndex : Z;
  totalImages : Z
}.

Inductive batchEvent : Type :=
| BatchReport (p : BatchProgress)
| BatchWork (index : Z) (c : work).

(** The decimal text of an integer inside a template string. *)
Definition decimal (z : Z) : string := NilZero.string_of_int (Z.to_int z).

(** [{...progress, currentImageIndex: i, totalImages}]. *)
Definition tagged (i total : Z) (p : PipelineProgress) : BatchProgress :=
  {| batch_stage := stage p;
     batch_progress := ofZ (progress p);
     batch_message := message p;
     batch_currentImage := currentImage p;
     currentImageIndex := i;
     totalImages := total |}.

(** The events of one inner run as the batch observer sees them: the
    inner run always gets a callback, which forwards to the batch
    observer when there is one. *)
Definition forwarded (observer : bool) (i total : Z) (t : list event) : list batchEvent :=
  flat_map (fun e => match e with
                     | Progress p =>
                         if observer then [BatchReport (tagged i total p)] else []
                     | Work c => [BatchWork i c]
                     end) t.

(** The report that opens the turn of image [i], made when the caller
    passed a callback. *)
Definition announce (observer : bool) (i total : Z) : list batchEvent :=
  if observer
  then [BatchReport
          {| batch_stage := "enhancement";
             batch_progress := mul (div (ofZ i) (ofZ total)) (Fin 100);
             batch_message :=
               ("Processing image " ++ decimal (i + 1) ++ " of "
                ++ decimal total ++ "...")%string;
             batch_currentImage := None;
             currentImageIndex := i;
             totalImages := total |}]
  else [].

(** The loop of [runBatchPipeline] from index [i] on, [results] being what
    has been pushed so far. *)
Fixpoint batchFrom (host : Host) (observer : bool) (total : Z)
         (urls : list string) (i : Z) (results : list PipelineResult)
  : list batchEvent * result (list PipelineResult) :=
  match urls with
  | [] => ([], inr results)
  | url :: rest =>
      match runPipeline host url true with
      | (t, inl e) =>
          (announce observer i total ++ forwarded observer i total t, inl e)
      | (t, inr r) =>
          let '(t', out) :=
            batchFrom host observer total rest (i + 1) (results ++ [r]) in
          (announce observer i total ++ forwarded observer i total t ++ t', out)
      end
  end.

Definition runBatchPipeline (host : Host) (imageUrls : list string) (observer : bool)
  : list batchEvent * result (list PipelineResult) :=
  batchFrom host observer (Z.of_nat (List.length imageUrls)) imageUrls 0 [].

End BatchPipeline.

(* ================================================================== *)
(** ** Notions used to state the detector's properties *)
(* ================================================================== *)

Module Statement.

Import MetricsCalculation YoloDetection.

(** A box with finite coordinates. *)
Definition boxOf (x y w h confidence : R) (class : string) (classId : Z)
  : BoundingBox :=
  {| box_x := Fin x; box_y := Fin y; box_width := Fin w; box_height := Fin h;
     box_confidence := Fin confidence; box_class := class;
     box_classId := classId |}.

(** The element [sorted[k]], if there is one. *)
Definition boxAt (sorted : list BoundingBox) (k : Z) : option BoundingBox :=
  if (k <? 0)%Z then None else nth_error sorted (Z.to_nat k).

(** The test under which [applyNMS] suppresses [b] on account of [a]. *)
Definition overlaps (a b : BoundingBox) : bool :=
  String.eqb (box_class a) (box_class b) && gt (calculateIoU a b) nmsThreshold.

Definition confidenceOf (b : BoundingBox) : R :=
  match box_confidence b with Fin c => c | _ => 0%R end.

Definition finiteConfidence (b : BoundingBox) : Prop :=
  isFinite (box_confidence b) = true.

(** What index [k] contributes to the selection, given the final set of
    suppressed indices. *)
Definition keptAt (sorted : list BoundingBox) (used : list Z) (k : Z)
  : list BoundingBox :=
  if has used k then []
  else match boxAt sorted k with Some b => [b] | None => [] end.

(** State of the outer loop of [applyNMS] before index [i]. *)
Definition nmsInvariant (sorted : list BoundingBox) (i : Z)
           (st : list BoundingBox * list Z) : Prop :=
  let '(selected, used) := st in
  selected = flat_map (keptAt sorted used) (zrange 0 i)
  /\ (forall j, has used j = true ->
        exists k bk bj,
          (0 <= k < j)%Z /\ (k < i)%Z /\ has used k = false
          /\ boxAt sorted k = Some bk /\ boxAt sorted j = Some bj
          /\ overlaps bk bj = true)
  /\ (forall k j bk bj,
        (0 <= k < i)%Z -> (k < j)%Z ->
        has used k = false -> has used j = false ->
        boxAt sorted k = Some bk -> boxAt sorted j = Some bj ->
        overlaps bk bj = false).

Definition descending (l : list BoundingBox) : Prop :=
  StronglySorted (fun a b => (confidenceOf b <= confidenceOf a)%R) l.

End Statement.

(* ================================================================== *)
(** ** Detections used as examples *)
(* ================================================================== *)

Module Cases.

Import MetricsCalculation YoloDetection Statement.

Definition walker : BoundingBox := boxOf 10 10 50 100 0.9 "person" 0.
Definition walkerAgain : BoundingBox := boxOf 12 12 50 100 0.6 "person" 0.
Definition parkedCar : BoundingBox := boxOf 200 50 80 40 0.7 "car" 2.

Definition street : list BoundingBox := [walkerAgain; parkedCar; walker].

(** A detector whose model loads and whose images do not. *)
Definition brokenLinkHost : DetectorHost :=
  {| cocoLoad := inr tt;
     imageLoad := fun _ => None;
     getImageData := fun img => inr img;
     modelDetect := fun _ => inl (HostError "inference failed") |}.

(** A detector whose canvas gives no pixels: [getImageData] raises on
    an image of width 0. *)
Definition emptyCanvasHost : DetectorHost :=
  {| cocoLoad := inr tt;
     imageLoad := fun _ => Some {| img_width := 0; img_height := 0;
                                   img_data := [] |};
     getImageData := fun _ => inl (HostError "IndexSizeError");
     modelDetect := fun _ => inr [] |}.

End Cases.

(* ================================================================== *)
(** ** Notions used to state the properties of the brightening *)
(* ================================================================== *)

Module Brightening.

Import YoloDetection.

(** What the loop stores for a colour byte [b]. *)
Definition boostedByte (b : byte) : byte :=
  byteOfZ (toUint8Clamp (boost (Fin (byteVal b)))).

(** The byte at index [k] after the loop: every fourth byte is the alpha
    channel. *)
Definition brightenedAt (k : nat) (b : byte) : byte :=
  if (Z.of_nat k mod 4 =? 3)%Z then b else boostedByte b.

Definition byteZ (b : byte) : Z := Z.of_N (Byte.to_N b).

End Brightening.

(* ================================================================== *)
(** ** Notions used to state the properties of the metrics *)
(* ================================================================== *)

Module Counting.

Import MetricsCalculation PipelineService.

(** [counts[c]] on a record of counts. *)
Fixpoint countAt (c : string) (counts : list (string * Z)) : option Z :=
  match counts with
  | [] => None
  | (k, n) :: rest => if String.eqb k c then Some n else countAt c rest
  end.

(** The number of detections of class [c]. *)
Definition countOf (c : string) (detections : list BoundingBox) : Z :=
  Z.of_nat (List.length
              (filter (fun b => String.eqb (box_class b) c) detections)).

(** The counting loop shared by [calculateDetectionMetrics] and
    [getDetectionSummary], from any counts already made. *)
Definition tally (detections : list BoundingBox) (counts : list (string * Z))
  : list (string * Z) :=
  fold_left (fun counts det => countClass (box_class det) counts)
            detections counts.

(** Detections whose classes are not names of inherited properties. *)
Definition plainClasses (detections : list BoundingBox) : Prop :=
  Forall (fun d => plainName (box_class d) = true) detections.

(** The mean of the confidences, summed from the left; 0 for no
    detection. *)
Definition meanConfidence (detections : list BoundingBox) : number :=
  match detections with
  | [] => Fin 0
  | _ => div (JS.sum (map box_confidence detections))
             (ofZ (Z.of_nat (List.length detections)))
  end.

(** Confidences as the detector reports them: numbers from 0 to 1. *)
Definition confidenceInUnitInterval (b : BoundingBox) : Prop :=
  exists c, box_confidence b = Fin c /\ (0 <= c <= 1)%R.

(** A metric that is a number from 0 to 1. *)
Definition inUnitInterval (v : number) : Prop :=
  exists r, v = Fin r /\ (0 <= r <= 1)%R.

(** A difference of two such metrics. *)
Definition boundedChange (v : number) : Prop :=
  exists r, v = Fin r /\ (-1 <= r <= 1)%R.

(** A detector that reports one walker for every image. *)
Definition streetDetector (_ : string) : result DetectionResult :=
  inr {| boxes := [ {| box_x := Fin 10; box_y := Fin 10;
                       box_width := Fin 50; box_height := Fin 100;
                       box_confidence := Fin 0.9;
                       box_class := "person"; box_classId := 0 |} ];
         imageWidth := Fin 640; imageHeight := Fin 480;
         modelVersion := "COCO-SSD (MobileNet v2)" |}.

End Counting.

(* ================================================================== *)
(** ** Notions used to state the properties of the vector comparison *)
(* ================================================================== *)

Module Vectors.

Import FeatureExtraction FeatureComparison.

Definition allFinite (xs : list number) : Prop :=
  Forall (fun v => isFinite v = true) xs.

(** A feature vector given by its fused part alone. *)
Definition vectorOf (xs : list number) : FeatureVector :=
  {| fv_keypoints := []; fv_texture := []; fv_statistical := [];
     fused := xs; dimensionality := Z.of_nat (List.length xs) |}.

(** [vec] with further entries appended to its fused part. *)
Definition extended (vec : FeatureVector) (extra : list number) : FeatureVector :=
  {| fv_keypoints := fv_keypoints vec; fv_texture := fv_texture vec;
     fv_statistical := fv_statistical vec;
     fused := fused vec ++ extra;
     dimensionality := dimensionality vec |}.

End Vectors.

(* ================================================================== *)
(** ** Notions used to state the properties of the runs *)
(* ================================================================== *)

Module Runs.

Import PipelineService BatchPipeline.

(** The run of the pipeline on [url] returns [r]. *)
Definition returns (host : Host) (url : string) (r : PipelineResult) : Prop :=
  exists t, runPipeline host url true = (t, inr r).

(** The index of the image a batch event belongs to. *)
Definition imageIndex (e : batchEvent) : Z :=
  match e with
  | BatchReport p => currentImageIndex p
  | BatchWork i _ => i
  end.

(** A host on which every awaited call succeeds and both images are
    decoded. *)
Definition decodingHost : Host :=
  {| waitForOpenCV := inr tt;
     loadImage := fun _ => inr (Examples.uniform Examples.black 1 1);
     applyCompositeEnhancement := fun _ => inr Examples.enhancedUrl;
     decodePixels := fun _ => Some (Examples.uniform Examples.black 1 1);
     loadModel := inr tt;
     detect := fun _ => inr Examples.noDetections |}.

(** A host on which the image "b.png" cannot be loaded; every other
    awaited call succeeds, and no image is decoded. *)
Definition missingImageHost : Host :=
  {| waitForOpenCV := inr tt;
     loadImage := fun url =>
       if String.eqb url "b.png"
       then inl (HostError "Failed to load image")
       else inr (Examples.uniform Examples.black 1 1);
     applyCompositeEnhancement := fun _ => inr Examples.enhancedUrl;
     decodePixels := fun _ => None;
     loadModel := inr tt;
     detect := fun _ => inr Examples.noDetections |}.

End Runs.

(* ================================================================== *)
(** ** Notions used to state the properties of the analyzers *)
(* ================================================================== *)

Module Images.

Import FeatureExtraction Spec.

(** All pixels have the same gray level. *)
Definition flat (data : list byte) (width height : Z) : Prop :=
  exists g, forall x y, (0 <= x < width)%Z -> (0 <= y < height)%Z ->
                        grayReal data width x y = g.

Definition allNaN : KeypointStats := {| orb := NaN; fast := NaN; sift := NaN |}.

End Images.

(* ================================================================== *)
(** ** Arithmetic of JavaScript numbers *)
(* ================================================================== *)

Section NumberFacts.

Local Open Scope R_scope.

Lemma Reqb_refl x : Reqb x x = true.
Proof. unfold Reqb. destruct (Req_dec_T x x); congruence. Qed.

Lemma Reqb_neq x y : x <> y -> Reqb x y = false.
Proof. unfold Reqb. destruct (Req_dec_T x y); congruence. Qed.

Lemma Rltb_lt x y : x < y -> Rltb x y = true.
Proof. unfold Rltb. destruct (Rlt_dec x y); tauto. Qed.

Lemma Rltb_ge x y : y <= x -> Rltb x y = false.
Proof. unfold Rltb. destruct (Rlt_dec x y); [lra | reflexivity]. Qed.

Lemma Rleb_le x y : x <= y -> Rleb x y = true.
Proof. unfold Rleb. destruct (Rle_dec x y); tauto. Qed.

Lemma Rleb_gt x y : y < x -> Rleb x y = false.
Proof. unfold Rleb. destruct (Rle_dec x y); [lra | reflexivity]. Qed.

Lemma div_Fin x y : y <> 0 -> div (Fin x) (Fin y) = Fin (x / y).
Proof. intros H. unfold div. now rewrite (Reqb_neq H). Qed.

Lemma div_zero_zero : div (Fin 0) (Fin 0) = NaN.
Proof. unfold div. now rewrite !Reqb_refl. Qed.

Lemma add_NaN_r a : add a NaN = NaN.
Proof. now destruct a. Qed.

Lemma mul_NaN_l a : mul NaN a = NaN.
Proof. reflexivity. Qed.

Lemma sqrt_Fin x : 0 <= x -> JS.sqrt (Fin x) = Fin (R_sqrt.sqrt x).
Proof. intros H. unfold JS.sqrt. now rewrite Rltb_ge. Qed.

Lemma Rtrunc_IZR z : (0 <= z)%Z -> Rtrunc (IZR z) = z.
Proof.
  intros H. unfold Rtrunc.
  destruct (Rlt_dec (IZR z) 0) as [Hn | _].
  - apply (IZR_le 0) in H. lra.
  - apply ZfloorZ.
Qed.

Lemma toUint8_floor x :
  0 <= x < 256 -> toUint8 (floor (Fin x)) = Zfloor x.
Proof.
  intros [H0 H1]. unfold toUint8, floor.
  assert (Hlo : (0 <= Zfloor x)%Z) by (apply Zfloor_lub; simpl; lra).
  assert (Hhi : (Zfloor x < 256)%Z).
  { apply lt_IZR. destruct (Zfloor_bound x) as [Hb _]. lra. }
  rewrite Rtrunc_IZR by assumption.
  apply Z.mod_small. lia.
Qed.

End NumberFacts.

Section Ranges.

Lemma zrange_length lo hi : List.length (zrange lo hi) = Z.to_nat (hi - lo).
Proof. unfold zrange. now rewrite length_map, length_seq. Qed.

Lemma zrange_In lo hi i : In i (zrange lo hi) <-> (lo <= i < hi)%Z.
Proof.
  unfold zrange. rewrite in_map_iff. split.
  - intros (k & <- & Hk). apply in_seq in Hk. lia.
  - intros H. exists (Z.to_nat (i - lo)). split; [lia |].
    apply in_seq. lia.
Qed.

Lemma nth_zrange lo hi i d :
  (lo <= i < hi)%Z -> nth (Z.to_nat (i - lo)) (zrange lo hi) d = i.
Proof.
  intros H. unfold zrange.
  rewrite (nth_indep _ d (lo + Z.of_nat 0)%Z)
    by (rewrite length_map, length_seq; lia).
  rewrite (map_nth (fun k => (lo + Z.of_nat k)%Z)).
  rewrite seq_nth by lia. lia.
Qed.

Lemma nth_map_zrange {A : Type} (f : Z -> A) n i d :
  (0 <= i < n)%Z -> nth (Z.to_nat i) (map f (zrange 0 n)) d = f i.
Proof.
  intros H.
  rewrite (nth_indep _ d (f 0%Z)) by (rewrite length_map, zrange_length; lia).
  rewrite map_nth. f_equal.
  replace (Z.to_nat i) with (Z.to_nat (i - 0)) by (f_equal; lia).
  apply nth_zrange. lia.
Qed.

End Ranges.

(* ================================================================== *)
(** ** The gamma lookup table *)
(* ================================================================== *)

Section GammaTable.

Import ImageUtils Spec Examples.
Local Open Scope R_scope.

Lemma Rpower_le_1 x y : 0 < x <= 1 -> 0 < y -> Rpower x y <= 1.
Proof.
  intros [Hx Hx1] Hy. unfold Rpower.
  rewrite <- exp_0.
  destruct (Req_dec x 1) as [-> | Hne].
  - rewrite ln_1, Rmult_0_r. lra.
  - left. apply exp_increasing.
    assert (ln x < 0) by (rewrite <- ln_1; apply ln_increasing; lra).
    nra.
Qed.

Lemma realPow_bounds x y : 0 <= x <= 1 -> 0 < y -> 0 <= realPow x y <= 1.
Proof.
  intros [Hx Hx1] Hy. unfold realPow.
  destruct (Req_dec_T x 0) as [-> | Hne]; [lra |].
  split.
  - left. unfold Rpower. apply exp_pos.
  - apply Rpower_le_1; lra.
Qed.

Lemma realPow_mono x1 x2 y :
  0 <= x1 <= x2 -> 0 < y -> realPow x1 y <= realPow x2 y.
Proof.
  intros [H1 H12] Hy. unfold realPow.
  destruct (Req_dec_T x1 0) as [-> | Hn1];
    destruct (Req_dec_T x2 0) as [-> | Hn2]; try lra.
  - left. unfold Rpower. apply exp_pos.
  - apply Rle_Rpower_l; lra.
Qed.

Lemma pow_unit_interval x y :
  0 <= x -> 0 < y -> pow (Fin x) (Fin y) = Fin (realPow x y).
Proof.
  intros Hx Hy. unfold pow, powFinite, realPow.
  rewrite (Reqb_neq (x := y) (y := 0)) by lra.
  destruct (Req_dec_T x 0) as [-> | Hne].
  - rewrite Rltb_ge by lra. rewrite Reqb_refl. now rewrite Rltb_lt.
  - now rewrite Rltb_lt by lra.
Qed.

Lemma overflowBound_above_1 : 1 < overflowBound.
Proof.
  unfold overflowBound. apply (IZR_lt 1). apply Z.ltb_lt.
  vm_compute. reflexivity.
Qed.

(** A quotient below the bound is kept. *)
Lemma reciprocal_Fin g :
  0 < g -> 1 / g < overflowBound -> reciprocal (Fin g) = Fin (1 / g).
Proof.
  intros Hg Hb. unfold reciprocal. rewrite div_Fin by lra.
  assert (Hq : 0 < 1 / g) by (apply Rdiv_lt_0_compat; lra).
  rewrite Rabs_pos_eq by lra. now rewrite Rleb_gt.
Qed.

Lemma reciprocal_from_1 g : 1 <= g -> reciprocal (Fin g) = Fin (1 / g).
Proof.
  intros Hg. apply reciprocal_Fin; [lra |].
  pose proof overflowBound_above_1.
  assert (1 / g <= 1); [| lra].
  apply (Rmult_le_reg_r g); [lra |].
  unfold Rdiv. rewrite Rmult_assoc, Rinv_l by lra. lra.
Qed.

(** [2^-1060], a subnormal double: its reciprocal is beyond the doubles. *)
Lemma reciprocal_tinyGamma :
  0 < tinyGamma /\ reciprocal (Fin tinyGamma) = Inf false.
Proof.
  unfold tinyGamma.
  assert (Hp : 0 < IZR (2 ^ 1060)).
  { apply (IZR_lt 0). apply Z.ltb_lt. vm_compute. reflexivity. }
  assert (Hb : overflowBound <= IZR (2 ^ 1060)).
  { unfold overflowBound. apply IZR_le. apply Z.leb_le.
    vm_compute. reflexivity. }
  split; [now apply Rinv_0_lt_compat |].
  unfold reciprocal. rewrite div_Fin by (apply Rinv_neq_0_compat; lra).
  unfold Rdiv. rewrite Rmult_1_l, Rinv_inv.
  rewrite Rabs_pos_eq by lra.
  rewrite Rleb_le by exact Hb. now rewrite Rltb_ge by lra.
Qed.

Lemma gammaLutEntry_formula g i :
  0 < g -> (0 <= i < 256)%Z ->
  gammaLutEntry (Fin (1 / g)) i = gammaFormula g i.
Proof.
  intros Hg Hi. unfold gammaLutEntry, gammaFormula, ofZ.
  rewrite !div_Fin by lra.
  assert (Hx : 0 <= IZR i / 255 <= 1).
  { destruct Hi as [H0 H1]. apply IZR_le in H0.
    apply Z.lt_le_pred in H1. apply IZR_le in H1. simpl in H1. lra. }
  assert (Hy : 0 < 1 / g) by (apply Rdiv_lt_0_compat; lra).
  rewrite pow_unit_interval by lra.
  pose proof (realPow_bounds Hx Hy) as Hp.
  cbn [mul]. apply toUint8_floor. lra.
Qed.

Lemma gammaLut_nth g i :
  1 <= g -> (0 <= i < 256)%Z ->
  nth (Z.to_nat i) (gammaLut (Fin g)) 0%Z = gammaFormula g i.
Proof.
  intros Hg Hi. unfold gammaLut. cbn zeta.
  rewrite nth_map_zrange by assumption.
  rewrite reciprocal_from_1 by exact Hg.
  apply gammaLutEntry_formula; [lra | exact Hi].
Qed.

(** With an exponent of Infinity or NaN every entry is 0: the power is 0
    below 1 and NaN at 1, and a NaN is stored as 0. *)
Lemma gammaLutEntry_without_exponent invGamma i :
  invGamma = Inf false \/ invGamma = NaN -> (0 <= i < 256)%Z ->
  gammaLutEntry invGamma i = 0%Z.
Proof.
  intros Hinv Hi. unfold gammaLutEntry, ofZ. rewrite div_Fin by lra.
  destruct Hinv as [-> | ->]; [| reflexivity].
  cbn [pow]. destruct (Reqb (Rabs (IZR i / 255)) 1); [reflexivity |].
  assert (Hx : 0 <= IZR i / 255 <= 1).
  { destruct Hi as [H0 H1]. apply IZR_le in H0.
    assert (IZR i <= 255) by (apply (IZR_le i 255); lia).
    split; [unfold Rdiv; apply Rmult_le_pos; lra |].
    apply (Rmult_le_reg_r 255); [lra |].
    unfold Rdiv. rewrite Rmult_assoc, Rinv_l by lra. lra. }
  rewrite Rabs_pos_eq by lra. rewrite Rltb_ge by lra. cbn [xorb mul floor].
  rewrite Rmult_0_l. change 0 with (IZR 0). rewrite ZfloorZ.
  cbn [toUint8]. now rewrite Rtrunc_IZR.
Qed.

Lemma gammaLut_without_exponent gamma :
  reciprocal gamma = Inf false \/ reciprocal gamma = NaN ->
  Forall (fun v => v = 0%Z) (gammaLut gamma).
Proof.
  intros Hinv. unfold gammaLut. cbn zeta. apply Forall_forall. intros v Hv.
  apply in_map_iff in Hv. destruct Hv as (i & <- & Hi).
  apply zrange_In in Hi. apply gammaLutEntry_without_exponent; [exact Hinv | lia].
Qed.

Lemma compositeLut_gammaLut : compositeLut = gammaLut (Fin 1.8).
Proof. reflexivity. Qed.

Lemma gammaFormula_0 g : 0 < g -> gammaFormula g 0 = 0%Z.
Proof.
  intros Hg. unfold gammaFormula, realPow.
  destruct (Req_dec_T (0 / 255) 0) as [_ | Hne]; [| lra].
  rewrite Rmult_0_l. apply (ZfloorZ 0).
Qed.

Lemma gammaFormula_255 g : 0 < g -> gammaFormula g 255 = 255%Z.
Proof.
  intros Hg. unfold gammaFormula, realPow.
  destruct (Req_dec_T (255 / 255) 0) as [Hz | _]; [lra |].
  replace (255 / 255) with 1 by lra.
  unfold Rpower. rewrite ln_1, Rmult_0_r, exp_0, Rmult_1_l.
  apply (ZfloorZ 255).
Qed.

Lemma gammaFormula_mono g i j :
  0 < g -> (0 <= i <= j)%Z -> (gammaFormula g i <= gammaFormula g j)%Z.
Proof.
  intros Hg [Hi Hij]. unfold gammaFormula.
  apply Zfloor_le. apply Rmult_le_compat_r; [lra |].
  apply IZR_le in Hi. apply IZR_le in Hij.
  apply realPow_mono; [lra | apply Rdiv_lt_0_compat; lra].
Qed.

Lemma gammaLut_length gamma : List.length (gammaLut gamma) = 256%nat.
Proof. unfold gammaLut. now rewrite length_map, zrange_length. Qed.

(** C6, as stated for every gamma above 0: at gamma = 2^-1060, a
    subnormal double, [1.0 / gamma] is Infinity and the table is 0 at
    every index, where the formula gives 255 at index 255. *)
Lemma tiny_gamma_table_is_zero :
  0 < tinyGamma
  /\ Forall (fun v => v = 0%Z) (gammaLut (Fin tinyGamma))
  /\ nth 255 (gammaLut (Fin tinyGamma)) 0%Z = 0%Z
  /\ gammaFormula tinyGamma 255 = 255%Z
  /\ nth 255 (gammaLut (Fin tinyGamma)) 0%Z <> gammaFormula tinyGamma 255.
Proof.
  destruct reciprocal_tinyGamma as [Hpos Hinv].
  assert (Hall : Forall (fun v => v = 0%Z) (gammaLut (Fin tinyGamma))).
  { apply gammaLut_without_exponent. now left. }
  assert (H255 : nth 255 (gammaLut (Fin tinyGamma)) 0%Z = 0%Z).
  { rewrite Forall_forall in Hall. apply Hall, nth_In.
    rewrite gammaLut_length. lia. }
  pose proof (gammaFormula_255 Hpos) as Hf.
  repeat split; try assumption.
  rewrite H255, Hf. discriminate.
Qed.

(** C6, amended: for gamma 1.8, the gamma of the composite enhancement
    and the one [applyGamma] is called with, every entry of the table is
    [floor((i/255)^(1/gamma) * 255)]; the table starts at 0, ends at 255
    and never decreases. *)
Theorem gamma_1_8_lut_formula (i j : Z) :
  (0 <= i <= j)%Z -> (j < 256)%Z ->
  List.length (gammaLut (Fin 1.8)) = 256%nat
  /\ compositeLut = gammaLut (Fin 1.8)
  /\ nth (Z.to_nat i) (gammaLut (Fin 1.8)) 0%Z = gammaFormula 1.8 i
  /\ nth (Z.to_nat i) compositeLut 0%Z = gammaFormula 1.8 i
  /\ nth 0 compositeLut 0%Z = 0%Z
  /\ nth 255 compositeLut 0%Z = 255%Z
  /\ (nth (Z.to_nat i) compositeLut 0%Z <= nth (Z.to_nat j) compositeLut 0%Z)%Z.
Proof.
  intros Hij Hj.
  assert (H18 : 1 <= 1.8) by lra.
  assert (H18' : 0 < 1.8) by lra.
  rewrite compositeLut_gammaLut.
  split; [apply gammaLut_length |].
  split; [reflexivity |].
  split; [apply gammaLut_nth; [exact H18 | lia] |].
  split; [apply gammaLut_nth; [exact H18 | lia] |].
  split.
  { exact (eq_trans (@gammaLut_nth 1.8 0 H18 ltac:(lia)) (gammaFormula_0 H18')). }
  split.
  { exact (eq_trans (@gammaLut_nth 1.8 255 H18 ltac:(lia)) (gammaFormula_255 H18')). }
  rewrite !gammaLut_nth by (try exact H18; lia).
  apply gammaFormula_mono; [exact H18' | lia].
Qed.

Lemma gamma_1_8_lut_formula_witness :
  List.length (gammaLut (Fin 1.8)) = 256%nat
  /\ compositeLut = gammaLut (Fin 1.8)
  /\ nth (Z.to_nat 128) (gammaLut (Fin 1.8)) 0%Z = gammaFormula 1.8 128
  /\ nth (Z.to_nat 128) compositeLut 0%Z = gammaFormula 1.8 128
  /\ nth 0 compositeLut 0%Z = 0%Z
  /\ nth 255 compositeLut 0%Z = 255%Z
  /\ (nth (Z.to_nat 128) compositeLut 0%Z <= nth (Z.to_nat 255) compositeLut 0%Z)%Z.
Proof.
  apply (@gamma_1_8_lut_formula 128 255); lia.
Defined.

End GammaTable.

(* ================================================================== *)
(** ** Loops *)
(* ================================================================== *)

Section LoopFacts.

Context {A : Type}.

Lemma fold_left_invariant {B : Type} (P : A -> Prop) (f : A -> B -> A) l init :
  P init ->
  (forall a b, In b l -> P a -> P (f a b)) ->
  P (fold_left f l init).
Proof.
  revert init. induction l as [| b l IH]; intros init H0 Hstep; simpl.
  - exact H0.
  - apply IH.
    + apply Hstep; [now left | exact H0].
    + intros a b' Hin. apply Hstep. now right.
Qed.

(** A loop whose every iteration adds [c] to a measure of the state. *)
Lemma fold_left_measure {B : Type} (P : A -> Prop) (m : A -> Z) (c : Z)
      (f : A -> B -> A) l init :
  P init ->
  (forall a b, In b l -> P a -> P (f a b) /\ m (f a b) = (m a + c)%Z) ->
  P (fold_left f l init)
  /\ m (fold_left f l init) = (m init + c * Z.of_nat (List.length l))%Z.
Proof.
  revert init. induction l as [| b l IH]; intros init H0 Hstep; simpl.
  - split; [exact H0 | lia].
  - destruct (Hstep init b (or_introl eq_refl) H0) as [HP Hm].
    destruct (IH (f init b) HP) as [HP' Hm'].
    + intros a b' Hin. apply Hstep. now right.
    + split; [exact HP' |]. rewrite Hm', Hm. lia.
Qed.

Lemma forRange_invariant (P : A -> Prop) lo hi (body : Z -> A -> A) init :
  P init ->
  (forall i acc, (lo <= i < hi)%Z -> P acc -> P (body i acc)) ->
  P (forRange lo hi body init).
Proof.
  intros H0 Hstep. unfold forRange. apply fold_left_invariant; [exact H0 |].
  intros a i Hin. apply Hstep. now apply zrange_In.
Qed.

Lemma forRange_measure (P : A -> Prop) (m : A -> Z) (c : Z) lo hi
      (body : Z -> A -> A) init :
  P init ->
  (forall i acc, (lo <= i < hi)%Z -> P acc ->
                 P (body i acc) /\ m (body i acc) = (m acc + c)%Z) ->
  P (forRange lo hi body init)
  /\ m (forRange lo hi body init) = (m init + c * Z.max 0 (hi - lo))%Z.
Proof.
  intros H0 Hstep. unfold forRange.
  replace (Z.max 0 (hi - lo)) with (Z.of_nat (List.length (zrange lo hi)))
    by (rewrite zrange_length; lia).
  apply fold_left_measure; [exact H0 |].
  intros a i Hin. apply Hstep. now apply zrange_In.
Qed.

Lemma forRange_empty lo hi (body : Z -> A -> A) init :
  (hi <= lo)%Z -> forRange lo hi body init = init.
Proof.
  intros H. unfold forRange, zrange.
  replace (Z.to_nat (hi - lo)) with O by lia. reflexivity.
Qed.

Lemma updateAt_length n (f : A -> A) l :
  List.length (updateAt n f l) = List.length l.
Proof.
  revert n. induction l as [| a l IH]; intros [| n]; simpl; auto.
Qed.

Lemma updateAtZ_length k (f : A -> A) l :
  List.length (updateAtZ k f l) = List.length l.
Proof.
  unfold updateAtZ. destruct (k <? 0)%Z; [reflexivity | apply updateAt_length].
Qed.

Lemma flat_map_length_const {B : Type} (f : B -> list A) n l :
  (forall b, List.length (f b) = n) ->
  List.length (flat_map f l) = (n * List.length l)%nat.
Proof.
  intros Hf. induction l as [| b l IH]; simpl.
  - lia.
  - rewrite length_app, Hf, IH. lia.
Qed.

End LoopFacts.

Lemma zrangeStep_length lo hi step :
  List.length (zrangeStep lo hi step) = Z.to_nat ((hi - lo + step - 1) / step).
Proof. unfold zrangeStep. now rewrite length_map, length_seq. Qed.

(* ================================================================== *)
(** ** Shape of the feature vector *)
(* ================================================================== *)

Section VectorShape.

Import Spec.

Lemma addAtBin_length hist bin magnitude :
  List.length (addAtBin hist bin magnitude) = List.length hist.
Proof.
  unfold addAtBin. destruct bin as [b | |]; try reflexivity.
  destruct (isInteger b); [apply updateAtZ_length | reflexivity].
Qed.

Lemma cellHistogram_length data width height x y :
  List.length (cellHistogram data width height x y) = 9%nat.
Proof.
  unfold cellHistogram.
  apply forRange_invariant; [reflexivity |].
  intros cy acc _ Hacc.
  apply forRange_invariant; [exact Hacc |].
  intros cx hist _ Hhist.
  destruct (_ && _); [| exact Hhist].
  now rewrite addAtBin_length.
Qed.

Lemma hogCells_length data width height :
  Z.of_nat (List.length (hogCells data width height))
  = (9 * hogCellCount width height)%Z.
Proof.
  unfold hogCells, hogCellCount, cellsAlong.
  rewrite flat_map_length_const with (n := (9 * Z.to_nat ((width - 9) / 8))%nat).
  - rewrite zrangeStep_length. unfold cellSize.
    replace (height - 8 - 8 + 8 - 1)%Z with (height - 9)%Z by lia.
    lia.
  - intros y.
    rewrite flat_map_length_const with (n := 9%nat).
    + rewrite zrangeStep_length. unfold cellSize.
      replace (width - 8 - 8 + 8 - 1)%Z with (width - 9)%Z by lia.
      reflexivity.
    + intros x. apply cellHistogram_length.
Qed.

Lemma hog_descriptor_length data width height :
  Z.of_nat (List.length (hog_descriptor (computeHOG data width height)))
  = Z.min 100 (9 * hogCellCount width height).
Proof.
  unfold computeHOG. cbn [hog_descriptor].
  rewrite length_firstn, length_map.
  pose proof (hogCells_length data width height). lia.
Qed.

Lemma lbpCounts_length data width height :
  List.length (lbpCounts data width height) = 256%nat.
Proof.
  unfold lbpCounts.
  apply forRange_invariant; [reflexivity |].
  intros y acc _ Hacc.
  apply forRange_invariant; [exact Hacc |].
  intros x hist _ Hhist. now rewrite updateAtZ_length.
Qed.

Lemma lbp_histogram_length data width height :
  List.length (lbp_histogram (computeLBP data width height)) = 256%nat.
Proof.
  unfold computeLBP. cbn [lbp_histogram].
  rewrite length_map. apply lbpCounts_length.
Qed.

Lemma huMoments_length data width height :
  List.length (computeHuMoments data width height) = 7%nat.
Proof.
  unfold computeHuMoments.
  destruct (forRange 0 height _ _) as [[m00 m10] m01].
  destruct (forRange 0 height _ _) as [[mu20 mu02] mu11].
  reflexivity.
Qed.

Lemma colorMoments_lengths data width height :
  let c := computeColorMoments data width height in
  List.length (cm_mean c) = 3%nat /\ List.length (cm_std c) = 3%nat
  /\ List.length (cm_skewness c) = 3%nat.
Proof. repeat split. Qed.

(** The vector built from an image has [39 + min(20, 9 * cells)]
    components. *)
Lemma analyze_dimensionality data width height :
  dimensionality (a_featureVector (analyze data width height))
  = (39 + Z.min 20 (9 * hogCellCount width height))%Z.
Proof.
  unfold analyze, constructFeatureVector.
  cbn [a_featureVector dimensionality].
  rewrite length_map, !length_app, !length_firstn.
  cbn [extractTextureFeatures extractStatisticalFeatures hog lbp glcm
       huMoments colorMoments].
  rewrite lbp_histogram_length, huMoments_length.
  pose proof (hog_descriptor_length data width height) as Hh.
  cbn [List.length computeColorMoments cm_mean cm_std map].
  lia.
Qed.

End VectorShape.

(* ================================================================== *)
(** ** Dimensionality of the fused vector *)
(* ================================================================== *)

Section Dimensionality.

Import Spec Examples.

(** C4, as stated: a 16x16 image has no HOG cell and yields 39
    components, a 64x64 image yields 59. *)
Lemma dimensionality_varies_with_image_size :
  dimensionOf icon16 = 39%Z /\ dimensionOf photo64 = 59%Z
  /\ dimensionOf icon16 <> dimensionOf photo64.
Proof.
  unfold dimensionOf. rewrite !analyze_dimensionality.
  repeat split; try reflexivity. discriminate.
Qed.

(** C4, amended: the dimensionality is the same, 59, for any two images
    that have at least three HOG cells each. *)
Theorem dimensionality_fixed_from_three_cells (img1 img2 : ImageData) :
  (3 <= hogCellCount (img_width img1) (img_height img1))%Z ->
  (3 <= hogCellCount (img_width img2) (img_height img2))%Z ->
  dimensionOf img1 = dimensionOf img2 /\ dimensionOf img1 = 59%Z.
Proof.
  intros H1 H2. unfold dimensionOf. rewrite !analyze_dimensionality. lia.
Qed.

Lemma dimensionality_fixed_from_three_cells_witness :
  dimensionOf photo64 = dimensionOf strip33x17 /\ dimensionOf photo64 = 59%Z.
Proof.
  apply dimensionality_fixed_from_three_cells; vm_compute; discriminate.
Defined.

End Dimensionality.

(* ================================================================== *)
(** ** The pipeline orchestrator *)
(* ================================================================== *)

Section Orchestrator.

Import Spec Examples Runs.
Local Open Scope R_scope.

(** The comparison step reads [keypoints.enhanced], a property the
    objects built by [extractComprehensiveFeatures] do not have. *)
Lemma calculateFeatureImprovement_featureResult n1 i1 n2 i2 :
  calculateFeatureImprovement (featureResult n1 i1) (featureResult n2 i2)
  = inl (TypeError "Cannot read properties of undefined").
Proof. reflexivity. Qed.

Lemma calculateFeatureImprovement_extracted d1 n1 d2 n2 fi :
  calculateFeatureImprovement
    (extractComprehensiveFeatures d1 n1) (extractComprehensiveFeatures d2 n2)
  = inr fi ->
  (d1 = None \/ d2 = None) /\ fi = noImprovement.
Proof.
  destruct d1 as [i1 |], d2 as [i2 |]; cbn [extractComprehensiveFeatures].
  - rewrite calculateFeatureImprovement_featureResult. discriminate.
  - intros H. injection H as <-. auto.
  - intros H. injection H as <-. auto.
  - intros H. injection H as <-. auto.
Qed.

(** What a run that returns went through and what it returns. *)
Lemma runPipeline_success host url obs t r :
  runPipeline host url obs = (t, inr r) ->
  exists img enh rd ed fi,
    waitForOpenCV host = inr tt
    /\ loadImage host url = inr img
    /\ applyCompositeEnhancement host img = inr enh
    /\ loadModel host = inr tt
    /\ detect host url = inr rd
    /\ detect host enh = inr ed
    /\ calculateFeatureImprovement
         (extractComprehensiveFeatures (decodePixels host url) "Raw Image")
         (extractComprehensiveFeatures (decodePixels host enh) "Enhanced Image")
       = inr fi
    /\ t = runTrace obs url enh
    /\ enhanced_imageUrl (enhanced r) = enh
    /\ raw_features (raw r)
       = extractComprehensiveFeatures (decodePixels host url) "Raw Image"
    /\ enhanced_features (enhanced r)
       = extractComprehensiveFeatures (decodePixels host enh) "Enhanced Image"
    /\ raw_metrics (raw r) = calculateMetrics (boxes rd) []
    /\ enhanced_metrics (enhanced r) = calculateMetrics (boxes ed) []
    /\ featureImprovement (comparison r) = fi
    /\ di_mAP (detectionImprovement (comparison r))
       = sub (mAP (enhanced_metrics (enhanced r))) (mAP (raw_metrics (raw r)))
    /\ overallImprovement (comparison r)
       = overallOf fi (di_mAP (detectionImprovement (comparison r))).
Proof.
  intros H. unfold runPipeline, await, onProgress, bind, ret in H.
  destruct (waitForOpenCV host) as [e | []] eqn:H1;
    [destruct obs; discriminate |].
  destruct (loadImage host url) as [e | img] eqn:H2;
    [destruct obs; discriminate |].
  destruct (applyCompositeEnhancement host img) as [e | enh] eqn:H3;
    [destruct obs; discriminate |].
  destruct (loadModel host) as [e | []] eqn:H4;
    [destruct obs; discriminate |].
  destruct (detect host url) as [e | rd] eqn:H5;
    [destruct obs; discriminate |].
  destruct (detect host enh) as [e | ed] eqn:H6;
    [destruct obs; discriminate |].
  destruct (calculateFeatureImprovement _ _) as [e | fi] eqn:Hfi;
    [destruct obs; discriminate |].
  exists img, enh, rd, ed, fi.
  destruct obs; simpl in H; injection H as <- <-; repeat split; auto.
Qed.

(** A run returns only when a feature extraction came back with
    [null]; the feature improvements are then all zero. *)
Lemma successful_run_has_null_features host url obs t r :
  runPipeline host url obs = (t, inr r) ->
  (raw_features (raw r) = VNull \/ enhanced_features (enhanced r) = VNull)
  /\ featureImprovement (comparison r) = noImprovement.
Proof.
  intros H. apply runPipeline_success in H.
  destruct H as (img & enh & rd & ed & fi & _ & _ & _ & _ & _ & _ & Hfi & _
                 & _ & Hrf & Hef & _ & _ & Hfi' & _).
  apply calculateFeatureImprovement_extracted in Hfi.
  destruct Hfi as [Hnone ->]. split; [| exact Hfi'].
  rewrite Hrf, Hef. destruct Hnone as [-> | ->]; auto.
Qed.

(** When every host call succeeds and both images are decoded, the
    comparison raises and the run ends with a [TypeError]. *)
Lemma extracted_features_make_the_comparison_raise
      host url obs img enh rd ed i1 i2 :
  waitForOpenCV host = inr tt ->
  loadImage host url = inr img ->
  applyCompositeEnhancement host img = inr enh ->
  loadModel host = inr tt ->
  detect host url = inr rd ->
  detect host enh = inr ed ->
  decodePixels host url = Some i1 ->
  decodePixels host enh = Some i2 ->
  snd (runPipeline host url obs)
  = inl (TypeError "Cannot read properties of undefined").
Proof.
  intros H1 H2 H3 H4 H5 H6 H7 H8.
  unfold runPipeline, await, onProgress, bind, ret.
  rewrite H1, H2, H3, H4, H5, H6, H7, H8.
  cbn [extractComprehensiveFeatures].
  rewrite calculateFeatureImprovement_featureResult.
  destruct obs; reflexivity.
Qed.

(** C1: on a run that returns with a detector gaining 0.9 mAP (the
    feature improvements are zero, as on every run that returns),
    [runPipeline] gives an overall score of 0.27 where the documented
    formula, which scales the mAP delta by 100, gives 27. *)
Theorem overall_improvement_does_not_scale_mAP :
  exists r,
    runPipeline undecodableHost "raw.png" true
    = (completeTrace "raw.png" enhancedUrl, inr r)
    /\ featureImprovement (comparison r) = noImprovement
    /\ di_mAP (detectionImprovement (comparison r)) = Fin 0.9
    /\ overallImprovement (comparison r) = Fin 0.27
    /\ specOverallImprovement (featureImprovement (comparison r))
                              (detectionImprovement (comparison r)) = Fin 27
    /\ overallImprovement (comparison r)
       <> specOverallImprovement (featureImprovement (comparison r))
                                 (detectionImprovement (comparison r)).
Proof.
  eexists. split; [reflexivity |].
  cbn -[div]. unfold ofZ. rewrite div_Fin by lra. cbn.
  repeat split; try (f_equal; lra).
  intros H. injection H as H. lra.
Qed.

(** A run that returns, which takes an extraction that came back with
    [null], has reported the seven documented stages, in order, each
    before the work of its stage. *)
Lemma progress_events_of_successful_run host url t r :
  runPipeline host url true = (t, inr r) ->
  t = completeTrace url (enhanced_imageUrl (enhanced r))
  /\ List.length (progressEvents t) = 7%nat
  /\ map stageOf (progressEvents t) = documentedStages
  /\ map progress (progressEvents t) = [10; 30; 50; 60; 80; 90; 100]%Z.
Proof.
  intros H. apply runPipeline_success in H.
  destruct H as (img & enh & rd & ed & fi & _ & _ & _ & _ & _ & _ & _ & Ht
                 & Henh & _).
  subst t. rewrite Henh. repeat split.
Qed.

(** C3: when every host call succeeds and both images are decoded, the
    comparison raises right after the report of stage 90: the run has
    reported the first six documented stages, each before the work of its
    stage, "complete" is never reported and there is no result. *)
Theorem decodable_run_stops_before_complete
      host url img enh rd ed i1 i2 :
  waitForOpenCV host = inr tt ->
  loadImage host url = inr img ->
  applyCompositeEnhancement host img = inr enh ->
  loadModel host = inr tt ->
  detect host url = inr rd ->
  detect host enh = inr ed ->
  decodePixels host url = Some i1 ->
  decodePixels host enh = Some i2 ->
  runPipeline host url true
  = (removelast (completeTrace url enh),
     inl (TypeError "Cannot read properties of undefined"))
  /\ map stageOf (progressEvents (removelast (completeTrace url enh)))
     = firstn 6 documentedStages
  /\ map progress (progressEvents (removelast (completeTrace url enh)))
     = [10; 30; 50; 60; 80; 90]%Z
  /\ documentedStages
     = map stageOf (progressEvents (removelast (completeTrace url enh)))
       ++ [("complete"%string, 100%Z, None)].
Proof.
  intros H1 H2 H3 H4 H5 H6 H7 H8. split; [| repeat split].
  unfold runPipeline, await, onProgress, bind, ret.
  rewrite H1, H2, H3, H4, H5, H6, H7, H8.
  cbn [extractComprehensiveFeatures].
  rewrite calculateFeatureImprovement_featureResult.
  reflexivity.
Qed.

Lemma decodable_run_stops_before_complete_witness :
  decodePixels decodingHost "raw.png" = Some (uniform black 1 1)
  /\ runPipeline decodingHost "raw.png" true
     = (removelast (completeTrace "raw.png" enhancedUrl),
        inl (TypeError "Cannot read properties of undefined"))
  /\ map stageOf
         (progressEvents (removelast (completeTrace "raw.png" enhancedUrl)))
     = firstn 6 documentedStages.
Proof.
  split; [reflexivity |].
  destruct (@decodable_run_stops_before_complete
              decodingHost "raw.png" (uniform black 1 1) enhancedUrl
              noDetections noDetections (uniform black 1 1) (uniform black 1 1)
              eq_refl eq_refl eq_refl eq_refl eq_refl eq_refl eq_refl eq_refl)
    as (Hrun & Hstages & _).
  split; [exact Hrun | exact Hstages].
Defined.

(** C2, as stated: the feature extractor cannot decode the image, yet
    the run returns a result, with [null] features and zero feature
    improvements in place of an error. *)
Lemma undecodable_image_does_not_abort :
  decodePixels undecodableHost "raw.png" = None
  /\ exists r,
       runPipeline undecodableHost "raw.png" true
       = (completeTrace "raw.png" enhancedUrl, inr r)
       /\ raw_features (raw r) = VNull
       /\ featureImprovement (comparison r) = noImprovement.
Proof.
  split; [reflexivity |]. eexists. split; [reflexivity |]. split; reflexivity.
Qed.

Lemma firstHostFailure_aborts host url obs c e :
  firstHostFailure host url = Some (c, e) ->
  exists t, runPipeline host url obs = (t ++ [Work c], inl e).
Proof.
  unfold firstHostFailure, runPipeline, await, onProgress, bind, ret.
  destruct (waitForOpenCV host) as [e1 | []].
  { intros [= <- <-]. destruct obs; eexists; cbn;
      [instantiate (1 := [_]) | instantiate (1 := [])]; reflexivity. }
  destruct (loadImage host url) as [e2 | img].
  { intros [= <- <-]. destruct obs; eexists; cbn;
      [instantiate (1 := [_; _]) | instantiate (1 := [_])]; reflexivity. }
  destruct (applyCompositeEnhancement host img) as [e3 | enh].
  { intros [= <- <-]. destruct obs; eexists; cbn;
      [instantiate (1 := [_; _; _]) | instantiate (1 := [_; _])]; reflexivity. }
  destruct (loadModel host) as [e4 | []].
  { intros [= <- <-]. destruct obs; eexists; cbn;
      [instantiate (1 := [_; _; _; _; _; _; _; _; _])
      | instantiate (1 := [_; _; _; _; _])]; reflexivity. }
  destruct (detect host url) as [e5 | rd].
  { intros [= <- <-]. destruct obs; eexists; cbn;
      [instantiate (1 := [_; _; _; _; _; _; _; _; _; _])
      | instantiate (1 := [_; _; _; _; _; _])]; reflexivity. }
  destruct (detect host enh) as [e6 | ed]; [| discriminate].
  intros [= <- <-]. destruct obs; eexists; cbn;
    [instantiate (1 := [_; _; _; _; _; _; _; _; _; _; _; _])
    | instantiate (1 := [_; _; _; _; _; _; _])]; reflexivity.
Qed.

(** C2, amended: a host call that raises ends the run at once with its
    exception and without a result; a feature extraction that cannot
    decode its image is not such a failure: when every host call
    succeeds the run returns, with [null] features and zero feature
    improvements. *)
Theorem host_failures_abort_extraction_failures_do_not host url obs :
  (forall c e,
      firstHostFailure host url = Some (c, e) ->
      exists t, runPipeline host url obs = (t ++ [Work c], inl e))
  /\ (forall img enh,
        firstHostFailure host url = None ->
        loadImage host url = inr img ->
        applyCompositeEnhancement host img = inr enh ->
        decodePixels host url = None \/ decodePixels host enh = None ->
        exists r,
          runPipeline host url obs = (runTrace obs url enh, inr r)
          /\ (raw_features (raw r) = VNull
              \/ enhanced_features (enhanced r) = VNull)
          /\ featureImprovement (comparison r) = noImprovement).
Proof.
  split.
  - intros c e. apply firstHostFailure_aborts.
  - intros img enh Hnone Himg Henh Hdec.
    unfold firstHostFailure in Hnone. rewrite Himg, Henh in Hnone.
    unfold runPipeline, await, onProgress, bind, ret.
    rewrite Himg, Henh.
    destruct (waitForOpenCV host) as [e1 | []]; [discriminate |].
    destruct (loadModel host) as [e4 | []]; [discriminate |].
    destruct (detect host url) as [e5 | rd]; [discriminate |].
    destruct (detect host enh) as [e6 | ed]; [discriminate |].
    assert (Hfi : calculateFeatureImprovement
              (extractComprehensiveFeatures (decodePixels host url) "Raw Image")
              (extractComprehensiveFeatures (decodePixels host enh) "Enhanced Image")
            = inr noImprovement).
    { destruct Hdec as [-> | ->]; [reflexivity |].
      destruct (decodePixels host url); reflexivity. }
    rewrite Hfi.
    destruct obs; eexists; (split; [reflexivity |]); cbn;
      (split; [| reflexivity]);
      (destruct Hdec as [-> | ->]; [left | right]; reflexivity).
Qed.

Lemma host_failures_abort_extraction_failures_do_not_witness :
  (exists t, runPipeline timeoutHost "raw.png" true
             = (t ++ [Work CallWaitForOpenCV],
                inl (HostError "OpenCV initialization timed out")))
  /\ (exists r,
        runPipeline undecodableHost "raw.png" true
        = (runTrace true "raw.png" enhancedUrl, inr r)
        /\ (raw_features (raw r) = VNull
            \/ enhanced_features (enhanced r) = VNull)
        /\ featureImprovement (comparison r) = noImprovement).
Proof.
  split.
  - apply (proj1 (host_failures_abort_extraction_failures_do_not
                    timeoutHost "raw.png" true)).
    reflexivity.
  - apply (proj2 (host_failures_abort_extraction_failures_do_not
                    undecodableHost "raw.png" true)
             (uniform black 1 1) enhancedUrl); try reflexivity.
    left. reflexivity.
Defined.

End Orchestrator.

(* ================================================================== *)
(** ** Local binary patterns *)
(* ================================================================== *)

Section LocalBinaryPatterns.

Import Spec Examples.

Lemma fold_left_Zadd_init l a : fold_left Z.add l a = (a + zsum l)%Z.
Proof.
  unfold zsum. revert a. induction l as [| x l IH]; intros a; simpl.
  - lia.
  - rewrite IH, (IH x). lia.
Qed.

Lemma zsum_cons x l : zsum (x :: l) = (x + zsum l)%Z.
Proof. unfold zsum at 1. simpl. apply fold_left_Zadd_init. Qed.

Lemma zsum_repeat_0 n : zsum (repeat 0%Z n) = 0%Z.
Proof.
  induction n as [| n IH]; [reflexivity |].
  cbn [repeat]. rewrite zsum_cons, IH. lia.
Qed.

Lemma zsum_updateAt_succ n l :
  (n < List.length l)%nat -> zsum (updateAt n Z.succ l) = (zsum l + 1)%Z.
Proof.
  revert n. induction l as [| x l IH]; intros [| n] H; simpl in *; try lia.
  - rewrite !zsum_cons. lia.
  - rewrite !zsum_cons, IH by lia. lia.
Qed.

Lemma Forall_updateAt_succ n l :
  Forall (fun c => (0 <= c)%Z) l -> Forall (fun c => (0 <= c)%Z) (updateAt n Z.succ l).
Proof.
  intros H. revert n. induction H as [| x l Hx Hl IH]; intros [| n]; simpl;
    constructor; auto; lia.
Qed.

Lemma lor_below_256 a b :
  (0 <= a < 256)%Z -> (0 <= b < 256)%Z -> (0 <= Z.lor a b < 256)%Z.
Proof.
  intros Ha Hb. split; [apply Z.lor_nonneg; lia |].
  destruct (Z.eq_dec (Z.lor a b) 0) as [-> | Hne]; [lia |].
  assert (H0 : (0 < Z.lor a b)%Z).
  { pose proof (proj2 (Z.lor_nonneg a b) (conj (proj1 Ha) (proj1 Hb))). lia. }
  change 256%Z with (2 ^ 8)%Z. apply Z.log2_lt_pow2; [exact H0 |].
  rewrite Z.log2_lor by lia.
  assert (La : (Z.log2 a < 8)%Z).
  { destruct (Z.eq_dec a 0) as [-> | ?]; [simpl; lia |].
    apply Z.log2_lt_pow2; simpl; lia. }
  assert (Lb : (Z.log2 b < 8)%Z).
  { destruct (Z.eq_dec b 0) as [-> | ?]; [simpl; lia |].
    apply Z.log2_lt_pow2; simpl; lia. }
  lia.
Qed.

Lemma lbpValue_range data width x y :
  (0 <= lbpValue data width x y < 256)%Z.
Proof.
  unfold lbpValue. apply forRange_invariant; [lia |].
  intros i v Hi Hv. destruct (ge _ _); [| exact Hv].
  apply lor_below_256; [exact Hv |].
  rewrite Z.shiftl_1_l. split; [apply Z.pow_nonneg; lia |].
  change 256%Z with (2 ^ 8)%Z. apply Z.pow_lt_mono_r; lia.
Qed.

Lemma lbpCounts_total data width height :
  let hist := lbpCounts data width height in
  Forall (fun c => (0 <= c)%Z) hist
  /\ zsum hist = (Z.max 0 (width - 2) * Z.max 0 (height - 2))%Z.
Proof.
  unfold lbpCounts, radius.
  pose (P := fun hist : list Z =>
               List.length hist = 256%nat /\ Forall (fun c => (0 <= c)%Z) hist).
  destruct (@forRange_measure _ P zsum (Z.max 0 (width - 2)) 1 (height - 1)
              (fun y => forRange 1 (width - 1) (fun x histogram =>
                 updateAtZ (lbpValue data width x y) Z.succ histogram))
              (repeat 0%Z (Z.to_nat patterns))) as [[_ HF] Hm].
  - split; [reflexivity |]. apply Forall_forall. intros c Hc.
    apply repeat_spec in Hc. lia.
  - intros y acc _ Hacc.
    destruct (@forRange_measure _ P zsum 1 1 (width - 1)
                (fun x histogram =>
                   updateAtZ (lbpValue data width x y) Z.succ histogram) acc Hacc)
      as [HP Hm].
    + intros x hist _ [Hlen HF].
      pose proof (lbpValue_range data width x y) as Hr.
      unfold updateAtZ. replace (lbpValue data width x y <? 0)%Z with false by lia.
      split; [split |].
      * now rewrite updateAt_length.
      * now apply Forall_updateAt_succ.
      * apply zsum_updateAt_succ. lia.
    + split; [exact HP |]. rewrite Hm. lia.
  - split; [exact HF |]. rewrite Hm, zsum_repeat_0. lia.
Qed.

Local Open Scope R_scope.

Lemma Rdiv_nonneg x y : 0 <= x -> 0 < y -> 0 <= x / y.
Proof.
  intros Hx Hy. unfold Rdiv. apply Rmult_le_pos; [exact Hx |].
  left. now apply Rinv_0_lt_compat.
Qed.

Lemma sum_Fin_map {B : Type} (f : B -> R) l a :
  fold_left add (map (fun c => Fin (f c)) l) (Fin a)
  = Fin (fold_left (fun acc c => acc + f c) l a).
Proof.
  revert a. induction l as [| x l IH]; intros a; simpl; [reflexivity |].
  apply IH.
Qed.

Lemma fold_left_scaled l T a :
  fold_left (fun acc c => acc + IZR c / T) l a = a + IZR (zsum l) / T.
Proof.
  revert a. induction l as [| x l IH]; intros a; simpl.
  - unfold zsum. simpl. lra.
  - rewrite IH, zsum_cons, plus_IZR. lra.
Qed.

(** C9: with at least one interior pixel the LBP histogram has 256
    non-negative entries that sum to 1 within 1e-6. *)
Theorem lbp_histogram_is_distribution data width height :
  (3 <= width)%Z -> (3 <= height)%Z ->
  let h := lbp_histogram (computeLBP data width height) in
  List.length h = 256%nat
  /\ (forall v, In v h -> exists p, v = Fin p /\ 0 <= p)
  /\ exists s, JS.sum h = Fin s /\ Rabs (s - 1) < 1e-6.
Proof.
  intros Hw Hh h. subst h. split; [apply lbp_histogram_length |].
  unfold computeLBP. cbn [lbp_histogram].
  destruct (lbpCounts_total data width height) as [HF Hsum].
  fold (zsum (lbpCounts data width height)).
  set (hist := lbpCounts data width height) in *.
  set (N := zsum hist) in *.
  assert (HN : (1 <= N)%Z) by (rewrite Hsum; nia).
  assert (HNr : 1 <= IZR N) by (apply (IZR_le 1); exact HN).
  unfold ofZ. cbn [add].
  assert (Hdiv : forall c, div (Fin (IZR c)) (Fin (IZR N + 1e-6))
                           = Fin (IZR c / (IZR N + 1e-6))).
  { intros c. apply div_Fin. lra. }
  rewrite (map_ext _ _ Hdiv).
  split.
  - intros v Hv. apply in_map_iff in Hv. destruct Hv as (c & <- & Hc).
    eexists. split; [reflexivity |].
    rewrite Forall_forall in HF. specialize (HF c Hc).
    apply (IZR_le 0) in HF.
    apply Rdiv_nonneg; lra.
  - exists (IZR N / (IZR N + 1e-6)). split.
    + unfold JS.sum. rewrite sum_Fin_map, fold_left_scaled. f_equal.
      fold N. lra.
    + replace (IZR N / (IZR N + 1e-6) - 1) with (- (1e-6 / (IZR N + 1e-6)))
        by (field; lra).
      rewrite Rabs_Ropp, Rabs_right.
      * apply (Rmult_lt_reg_r (IZR N + 1e-6)); [lra |].
        unfold Rdiv. rewrite Rmult_assoc, Rinv_l by lra. lra.
      * apply Rle_ge. apply Rdiv_nonneg; lra.
Qed.

Lemma lbp_histogram_is_distribution_witness :
  let h := lbp_histogram (computeLBP (img_data (uniform black 3 3)) 3 3) in
  List.length h = 256%nat
  /\ (forall v, In v h -> exists p, v = Fin p /\ 0 <= p)
  /\ exists s, JS.sum h = Fin s /\ Rabs (s - 1) < 1e-6.
Proof.
  apply (@lbp_histogram_is_distribution (img_data (uniform black 3 3)) 3%Z 3%Z); lia.
Defined.

End LocalBinaryPatterns.

(* ================================================================== *)
(** ** Fusion and normalisation *)
(* ================================================================== *)

Section Fusion.

Import Spec Examples.
Local Open Scope R_scope.

Lemma fold_sq_init rs a :
  fold_left (fun a r => a + r * r) rs a = a + realSumSquares rs.
Proof.
  unfold realSumSquares. revert a. induction rs as [| r rs IH]; intros a; simpl.
  - lra.
  - rewrite IH, (IH (0 + r * r)). lra.
Qed.

Lemma realSumSquares_cons r rs :
  realSumSquares (r :: rs) = r * r + realSumSquares rs.
Proof. unfold realSumSquares at 1. simpl. rewrite fold_sq_init. lra. Qed.

Lemma realSumSquares_nonneg rs : 0 <= realSumSquares rs.
Proof.
  induction rs as [| r rs IH]; [unfold realSumSquares; simpl; lra |].
  rewrite realSumSquares_cons. nra.
Qed.

Lemma realSumSquares_scaled rs c :
  realSumSquares (map (fun r => r / c) rs) = realSumSquares rs / (c * c).
Proof.
  destruct (Req_dec c 0) as [-> | Hc].
  - induction rs as [| r rs IH]; simpl.
    + unfold realSumSquares. simpl. unfold Rdiv. now rewrite Rmult_0_l.
    + rewrite !realSumSquares_cons, IH. unfold Rdiv.
      rewrite Rmult_0_l, Rinv_0. lra.
  - induction rs as [| r rs IH]; simpl.
    + unfold realSumSquares. simpl. unfold Rdiv. now rewrite Rmult_0_l.
    + rewrite !realSumSquares_cons, IH. field. exact Hc.
Qed.

Lemma sumSquares_Fin rs : sumSquares (map Fin rs) = Fin (realSumSquares rs).
Proof.
  unfold sumSquares, realSumSquares.
  assert (H : forall a,
             fold_left (fun acc v => add acc (mul v v)) (map Fin rs) (Fin a)
             = Fin (fold_left (fun a r => a + r * r) rs a)).
  { induction rs as [| r rs IH]; intros a; simpl; [reflexivity | apply IH]. }
  apply H.
Qed.

Lemma l2norm_Fin rs : l2norm (map Fin rs) = Fin (R_sqrt.sqrt (realSumSquares rs)).
Proof.
  unfold l2norm. rewrite sumSquares_Fin.
  apply sqrt_Fin, realSumSquares_nonneg.
Qed.

Lemma fused_of_finite k t s rs :
  let fv := constructFeatureVector k t s in
  rawVector fv = map Fin rs ->
  let n := R_sqrt.sqrt (realSumSquares rs) in
  fused fv = map Fin (map (fun r => r / (n + 1e-6)) rs)
  /\ l2norm (fused fv) = Fin (n / (n + 1e-6)).
Proof.
  intros fv Hv n.
  assert (Hn : 0 <= n) by apply sqrt_pos.
  assert (Hf : fused fv = map Fin (map (fun r => r / (n + 1e-6)) rs)).
  { unfold fv, constructFeatureVector. cbn [fused].
    unfold rawVector, fv, constructFeatureVector in Hv.
    cbn [fv_keypoints fv_texture fv_statistical] in Hv.
    rewrite Hv. fold (l2norm (map Fin rs)). rewrite l2norm_Fin. fold n.
    cbn [add]. rewrite !map_map. apply map_ext.
    intros r. apply div_Fin. lra. }
  split; [exact Hf |].
  rewrite Hf, l2norm_Fin, realSumSquares_scaled. f_equal.
  rewrite sqrt_div_alt by nra.
  rewrite sqrt_square by lra.
  unfold n. reflexivity.
Qed.

End Fusion.

(* ================================================================== *)
(** ** Gray levels, complexity and edge density *)
(* ================================================================== *)

Section Gray.

Import Spec Examples.
Local Open Scope R_scope.

Lemma dataAt_in_range data idx :
  (0 <= idx < Z.of_nat (List.length data))%Z ->
  dataAt data idx = Fin (byteAt data idx).
Proof.
  intros H. unfold dataAt, byteAt.
  replace (idx <? 0)%Z with false by lia.
  destruct (nth_error data (Z.to_nat idx)) as [b |] eqn:E.
  - now rewrite (nth_error_nth _ _ _ E).
  - apply nth_error_None in E. lia.
Qed.

Lemma getGrayValue_wf data width height x y :
  wellFormed data width height ->
  (0 <= x < width)%Z -> (0 <= y < height)%Z ->
  getGrayValue data width x y = Fin (grayReal data width x y).
Proof.
  intros (Hw & Hh & Hlen) Hx Hy. unfold getGrayValue, grayReal.
  assert (Hidx : (0 <= (y * width + x) * 4 /\ (y * width + x) * 4 + 3 < 4 * width * height)%Z)
    by nia.
  rewrite !dataAt_in_range by lia. reflexivity.
Qed.

Lemma gradientMagnitude_wf data width height x y :
  wellFormed data width height ->
  (1 <= x < width - 1)%Z -> (1 <= y < height - 1)%Z ->
  gradientMagnitude data width x y = Fin (magnitudeReal data width x y).
Proof.
  intros Hwf Hx Hy. unfold gradientMagnitude, magnitudeReal.
  rewrite !(getGrayValue_wf Hwf) by lia.
  cbn [sub neg add mul].
  assert (Hsq : forall a b : R, 0 <= a * a + b * b) by (intros; nra).
  rewrite sqrt_Fin by apply Hsq.
  reflexivity.
Qed.

Lemma magnitudeReal_nonneg data width x y : 0 <= magnitudeReal data width x y.
Proof. apply sqrt_pos. Qed.

End Gray.

Section Grids.

Import Spec Examples.

Lemma grid_In lox hix loy hiy x y :
  In (x, y) (grid lox hix loy hiy) <-> (lox <= x < hix /\ loy <= y < hiy)%Z.
Proof.
  unfold grid. rewrite in_flat_map. split.
  - intros (y' & Hy & Hin). apply zrange_In in Hy.
    apply in_map_iff in Hin. destruct Hin as (x' & [= <- <-] & Hx).
    apply zrange_In in Hx. lia.
  - intros [Hx Hy]. exists y. split; [now apply zrange_In |].
    apply in_map_iff. exists x. split; [reflexivity | now apply zrange_In].
Qed.

Lemma grid_length lox hix loy hiy :
  Z.of_nat (List.length (grid lox hix loy hiy))
  = (Z.max 0 (hix - lox) * Z.max 0 (hiy - loy))%Z.
Proof.
  unfold grid.
  rewrite flat_map_length_const with (n := Z.to_nat (hix - lox)).
  - rewrite zrange_length. lia.
  - intros y. now rewrite length_map, zrange_length.
Qed.

Local Open Scope R_scope.

Lemma nested_sum_Fin (f : Z -> Z -> number) (fr : Z -> Z -> R)
      lox hix loy hiy a :
  (forall x y, (lox <= x < hix)%Z -> (loy <= y < hiy)%Z -> f x y = Fin (fr x y)) ->
  forRange loy hiy (fun y => forRange lox hix (fun x acc => add acc (f x y))) (Fin a)
  = Fin (fold_left (fun s p => s + fr (fst p) (snd p)) (grid lox hix loy hiy) a).
Proof.
  intros Hf. unfold forRange, grid.
  assert (Hin : forall y, In y (zrange loy hiy) -> (loy <= y < hiy)%Z)
    by (intros y; apply zrange_In).
  revert a Hin. generalize (zrange loy hiy) as ys.
  induction ys as [| y ys IH]; intros a Hin; [reflexivity |].
  cbn [fold_left flat_map]. rewrite fold_left_app.
  assert (Hrow : forall xs b,
             (forall x, In x xs -> (lox <= x < hix)%Z) ->
             fold_left (fun acc x => add acc (f x y)) xs (Fin b)
             = Fin (fold_left (fun s p => s + fr (fst p) (snd p))
                              (map (fun x => (x, y)) xs) b)).
  { induction xs as [| x xs IHx]; intros b Hxs; [reflexivity |].
    cbn [fold_left map fst snd].
    rewrite (Hf x y) by (try apply Hxs; try apply Hin; now left).
    cbn [add]. apply IHx. intros x' Hx'. apply Hxs. now right. }
  rewrite Hrow by (intros x; apply zrange_In).
  apply IH. intros y' Hy'. apply Hin. now right.
Qed.


Lemma nested_count (P : Z -> Z -> bool) lox hix loy hiy c :
  forRange loy hiy (fun y => forRange lox hix (fun x count =>
    if P x y then (count + 1)%Z else count)) c
  = (c + Z.of_nat (List.length
         (filter (fun p => P (fst p) (snd p)) (grid lox hix loy hiy))))%Z.
Proof.
  unfold forRange, grid. revert c. generalize (zrange loy hiy) as ys.
  induction ys as [| y ys IH]; intros c; [cbn; lia |].
  cbn [fold_left flat_map]. rewrite filter_app, length_app.
  assert (Hrow : forall xs b,
             fold_left (fun count x => if P x y then (count + 1)%Z else count) xs b
             = (b + Z.of_nat (List.length
                   (filter (fun p => P (fst p) (snd p))
                           (map (fun x => (x, y)) xs))))%Z).
  { induction xs as [| x xs IHx]; intros b; [cbn; lia |].
    cbn [fold_left map filter fst snd]. rewrite IHx.
    destruct (P x y); cbn [List.length]; lia. }
  rewrite Hrow, IH. lia.
Qed.

Lemma fold_left_nonneg {B : Type} (g : B -> R) l a :
  0 <= a -> (forall b, In b l -> 0 <= g b) ->
  0 <= fold_left (fun s p => s + g p) l a.
Proof.
  revert a. induction l as [| b l IH]; intros a Ha Hg; simpl; [exact Ha |].
  apply IH.
  - pose proof (Hg b (or_introl eq_refl)). lra.
  - intros b' Hb'. apply Hg. now right.
Qed.

Lemma fold_left_Rplus_map {B : Type} (g : B -> R) l a :
  fold_left (fun s p => s + g p) l a = fold_left Rplus (map g l) a.
Proof.
  revert a. induction l as [| b l IH]; intros a; simpl; [reflexivity | apply IH].
Qed.

End Grids.

Section Complexity.

Import Spec Examples.
Local Open Scope R_scope.

Lemma edgeCount_filter data width height :
  edgeCount data width height
  = Z.of_nat (List.length
      (filter (fun p => exceedsThreshold data width (fst p) (snd p))
              (examinedPixels width height))).
Proof.
  unfold edgeCount, examinedPixels.
  rewrite (nested_count (exceedsThreshold data width)). lia.
Qed.

Lemma exceedsThreshold_wf data width height x y :
  wellFormed data width height ->
  (0 <= x < width - 1)%Z -> (0 <= y < height - 1)%Z ->
  exceedsThreshold data width x y = realExceeds data width x y.
Proof.
  intros Hwf Hx Hy. unfold exceedsThreshold, realExceeds.
  rewrite !(getGrayValue_wf Hwf) by lia. reflexivity.
Qed.








Lemma complexity_real data width height :
  wellFormed data width height -> (1 <= width)%Z -> (1 <= height)%Z ->
  calculateImageComplexity data width height
  = Fin (IZR (Z.of_nat (List.length
                 (filter (fun p => realExceeds data width (fst p) (snd p))
                         (examinedPixels width height))))
         / IZR (width * height)).
Proof.
  intros Hwf Hw Hh. unfold calculateImageComplexity.
  rewrite edgeCount_filter.
  rewrite (filter_ext_in (fun p => exceedsThreshold data width (fst p) (snd p))
                         (fun p => realExceeds data width (fst p) (snd p))).
  - unfold ofZ. apply div_Fin.
    apply not_0_IZR. nia.
  - intros [x y] Hin. apply grid_In in Hin.
    apply (exceedsThreshold_wf Hwf); cbn [fst snd]; lia.
Qed.

Lemma edgeStrength_real data width height :
  wellFormed data width height ->
  edgeStrength data width height
  = Fin (fold_left Rplus
           (map (fun p => magnitudeReal data width (fst p) (snd p))
                (interiorPixels width height)) 0).
Proof.
  intros Hwf. unfold edgeStrength, interiorPixels.
  rewrite (nested_sum_Fin (fun x y => gradientMagnitude data width x y)
                          (fun x y => magnitudeReal data width x y)).
  - now rewrite fold_left_Rplus_map.
  - intros x y Hx Hy. now apply (gradientMagnitude_wf Hwf).
Qed.

Lemma edgeDensity_real data width height :
  wellFormed data width height -> (3 <= width)%Z -> (3 <= height)%Z ->
  calculateEdgeDensity data width height
  = Fin (realMean (map (fun p => magnitudeReal data width (fst p) (snd p))
                       (interiorPixels width height)) / 255).
Proof.
  intros Hwf Hw Hh. unfold calculateEdgeDensity, realMean.
  rewrite (edgeStrength_real Hwf). unfold ofZ.
  rewrite length_map. unfold interiorPixels at 3. rewrite grid_length.
  replace (Z.max 0 (width - 1 - 1) * Z.max 0 (height - 1 - 1))%Z
    with ((width - 2) * (height - 2))%Z by lia.
  assert (Hn : IZR ((width - 2) * (height - 2)) <> 0) by (apply not_0_IZR; nia).
  rewrite div_Fin by (rewrite mult_IZR; nra).
  f_equal. rewrite mult_IZR. field. exact Hn.
Qed.


End Complexity.

Section Degenerate.

Import Spec Examples.
Local Open Scope R_scope.

(** Two-pixel-wide images have no interior pixel. *)
Lemma edgeStrength_width_2 data height : edgeStrength data 2 height = Fin 0.
Proof.
  unfold edgeStrength. apply forRange_invariant; [reflexivity |].
  intros y acc _ ->. now apply forRange_empty.
Qed.

Lemma edgeDensity_width_2 data height : calculateEdgeDensity data 2 height = NaN.
Proof.
  unfold calculateEdgeDensity. rewrite edgeStrength_width_2.
  change ((2 - 2) * (height - 2) * 255)%Z with 0%Z.
  apply div_zero_zero.
Qed.

Lemma extractKeypoints_width_2 data height :
  extractKeypoints data 2 height = {| orb := NaN; fast := NaN; sift := NaN |}.
Proof.
  unfold extractKeypoints. rewrite edgeDensity_width_2.
  cbn [mul]. now rewrite !add_NaN_r.
Qed.

(** C10, at a 2x2 image: the edge density is 0/0, so the three keypoint
    estimates are NaN and none of the lower bounds holds. *)
Theorem keypoints_of_2x2_image_are_NaN :
  extractKeypoints (img_data corner2x2) 2 2
  = {| orb := NaN; fast := NaN; sift := NaN |}
  /\ ge (orb (extractKeypoints (img_data corner2x2) 2 2)) (Fin 30) = false
  /\ ge (fast (extractKeypoints (img_data corner2x2) 2 2)) (Fin 80) = false
  /\ ge (sift (extractKeypoints (img_data corner2x2) 2 2)) (Fin 20) = false.
Proof. rewrite extractKeypoints_width_2. repeat split. Qed.

Lemma sharpness_width_2 data height :
  sharpness (analyzeImageQuality data 2 height) = NaN.
Proof.
  unfold analyzeImageQuality.
  set (loop := forRange 0 height _ _).
  assert (H : snd loop = Fin 0).
  { unfold loop. apply forRange_invariant; [reflexivity |].
    intros y acc _ Hacc. apply forRange_invariant; [exact Hacc |].
    intros x [[s q] sh] _ Hsh. cbn [snd] in *.
    replace ((x >? 0) && (x <? 2 - 1))%Z with false by lia.
    exact Hsh. }
  destruct loop as [[s q] sh]. cbn [snd] in H. subst sh.
  cbn [sharpness].
  change ((2 - 2) * (height - 2))%Z with 0%Z.
  unfold ofZ. now rewrite div_zero_zero.
Qed.

(** C7, at a 2x2 image: the quality analyzer divides the Laplacian sum
    by (2 - 2) * (2 - 2) and reports a sharpness of NaN. *)
Theorem sharpness_of_2x2_image_is_NaN :
  sharpness (analyzeImageQuality (img_data corner2x2) 2 2) = NaN
  /\ isNaN (sharpness (analyzeImageQuality (img_data corner2x2) 2 2)) = true.
Proof. now rewrite sharpness_width_2. Qed.

Lemma edgeCount_nonneg data width height : (0 <= edgeCount data width height)%Z.
Proof. rewrite edgeCount_filter. lia. Qed.

Lemma floor_affine_lower_bound (b c e kc ke : R) (z : Z) :
  b = IZR z -> 0 <= c -> 0 <= e -> 0 <= kc -> 0 <= ke ->
  exists n, floor (add (add (Fin b) (mul (Fin c) (Fin kc))) (mul (Fin e) (Fin ke)))
            = ofZ n /\ (z <= n)%Z.
Proof.
  intros -> Hc He Hkc Hke. cbn [mul add floor]. unfold ofZ.
  eexists. split; [reflexivity |].
  apply Zfloor_lub. nra.
Qed.

(** With at least one interior pixel the three estimates are integers
    of at least 30, 80 and 20. *)
Lemma keypoints_lower_bounds data width height :
  wellFormed data width height -> (3 <= width)%Z -> (3 <= height)%Z ->
  exists o f s,
    extractKeypoints data width height
    = {| orb := ofZ o; fast := ofZ f; sift := ofZ s |}
    /\ (30 <= o)%Z /\ (80 <= f)%Z /\ (20 <= s)%Z.
Proof.
  intros Hwf Hw Hh. unfold extractKeypoints.
  rewrite (complexity_real Hwf) by lia.
  rewrite (edgeDensity_real Hwf) by lia.
  set (c := IZR _ / IZR (width * height)).
  set (e := realMean _ / 255).
  assert (Hc : 0 <= c).
  { unfold c. apply Rdiv_nonneg.
    - apply (IZR_le 0). lia.
    - apply (IZR_lt 0). nia. }
  assert (He : 0 <= e).
  { unfold e, realMean. apply Rdiv_nonneg; [| lra]. apply Rdiv_nonneg.
    - rewrite <- fold_left_Rplus_map. apply fold_left_nonneg; [lra |].
      intros p _. apply magnitudeReal_nonneg.
    - rewrite length_map. unfold interiorPixels. rewrite grid_length.
      apply (IZR_lt 0). nia. }
  destruct (@floor_affine_lower_bound 30 c e 250 100 30 eq_refl Hc He) as (o & Ho & Hob); try lra.
  destruct (@floor_affine_lower_bound 80 c e 400 150 80 eq_refl Hc He) as (f & Hf & Hfb); try lra.
  destruct (@floor_affine_lower_bound 20 c e 180 80 20 eq_refl Hc He) as (s & Hs & Hsb); try lra.
  exists o, f, s. rewrite Ho, Hf, Hs. auto.
Qed.

End Degenerate.

(* ================================================================== *)
(** ** Vectors built from images *)
(* ================================================================== *)

Section ImageVectors.

Import Spec Examples.

Local Open Scope R_scope.

Lemma guarded_ratio_near_one n :
  1 <= n -> Rabs (n / (n + 1e-6) - 1) < 1e-6.
Proof.
  intros H1.
  replace (n / (n + 1e-6) - 1) with (- (1e-6 / (n + 1e-6))) by (field; lra).
  rewrite Rabs_Ropp, Rabs_right by (apply Rle_ge, Rdiv_nonneg; lra).
  apply (Rmult_lt_reg_r (n + 1e-6)); [lra |].
  unfold Rdiv. rewrite Rmult_assoc, Rinv_l by lra. lra.
Qed.

(** The vector built from an image with an interior pixel starts with a
    keypoint count of at least 30, so, its components being finite, the
    fused vector has norm 1 within 1e-6. *)
Lemma fused_norm_of_image_vector data width height rs :
  wellFormed data width height -> (3 <= width)%Z -> (3 <= height)%Z ->
  rawVector (a_featureVector (analyze data width height)) = map Fin rs ->
  exists m,
    l2norm (fused (a_featureVector (analyze data width height))) = Fin m
    /\ Rabs (m - 1) < 1e-6.
Proof.
  intros Hwf Hw Hh Hv.
  destruct (keypoints_lower_bounds Hwf Hw Hh) as (o & f & s & Hk & Ho & _).
  unfold analyze in *. cbn [a_featureVector] in *.
  destruct (fused_of_finite _ Hv) as [_ Hl].
  eexists. split; [exact Hl |].
  apply guarded_ratio_near_one.
  apply (f_equal (hd NaN)) in Hv.
  unfold rawVector, constructFeatureVector in Hv.
  cbn [fv_keypoints hd app] in Hv. rewrite Hk in Hv. cbn [orb] in Hv.
  destruct rs as [| r0 rs']; cbn [map hd] in Hv; [discriminate |].
  unfold ofZ in Hv. injection Hv as Hr0.
  assert (H30 : 30 <= r0) by (rewrite <- Hr0; apply (IZR_le 30); exact Ho).
  rewrite realSumSquares_cons.
  pose proof (realSumSquares_nonneg rs') as Hs.
  replace 1 with (R_sqrt.sqrt 1) by apply sqrt_1.
  apply sqrt_le_1_alt. nra.
Qed.

Lemma sumSquares_from_NaN xs :
  fold_left (fun acc v => add acc (mul v v)) xs NaN = NaN.
Proof. induction xs as [| x xs IH]; [reflexivity | exact IH]. Qed.

Lemma l2norm_with_NaN_head xs : l2norm (NaN :: xs) = NaN.
Proof.
  unfold l2norm, sumSquares. cbn [fold_left mul add].
  now rewrite sumSquares_from_NaN.
Qed.

(** NaN keypoint counts make the norm NaN, and with it every component
    of the fused vector. *)
Lemma fused_of_NaN_keypoints t s :
  let fv := constructFeatureVector {| orb := NaN; fast := NaN; sift := NaN |} t s in
  l2norm (rawVector fv) = NaN
  /\ Forall (fun v => v = NaN) (fused fv)
  /\ l2norm (fused fv) = NaN.
Proof.
  intros fv.
  assert (Hraw : l2norm (rawVector fv) = NaN) by apply l2norm_with_NaN_head.
  assert (Hf : fused fv = map (fun _ => NaN) (rawVector fv)).
  { unfold fv, constructFeatureVector, rawVector.
    cbn [fused fv_keypoints fv_texture fv_statistical FeatureExtraction.orb
         fast sift].
    cbn [app]. apply map_ext_in. intros v _.
    pose proof l2norm_with_NaN_head as Hn. unfold l2norm in Hn.
    rewrite Hn. now destruct v. }
  split; [exact Hraw |]. split.
  - rewrite Hf. apply Forall_forall. intros v Hv.
    apply in_map_iff in Hv. now destruct Hv as (_ & <- & _).
  - rewrite Hf. unfold fv, constructFeatureVector, rawVector.
    cbn [fv_keypoints fv_texture fv_statistical app map].
    apply l2norm_with_NaN_head.
Qed.

(** C8, at a 2x2 image: the keypoint counts are NaN, so the norm before
    normalisation is NaN, which does not exceed the guard, and every
    component of the fused vector is NaN: its norm is not about 1 and it
    is not the zero vector.  The lengths are as the specification has
    them. *)
Theorem fused_vector_of_2x2_image_is_NaN :
  let fv := a_featureVector (analyze (img_data corner2x2) 2 2) in
  dimensionality fv = Z.of_nat (List.length (fused fv))
  /\ List.length (fused fv)
     = (List.length (fv_keypoints fv) + List.length (fv_texture fv)
        + List.length (fv_statistical fv))%nat
  /\ dimensionality fv = 39%Z
  /\ l2norm (rawVector fv) = NaN
  /\ gt (l2norm (rawVector fv)) (Fin 1e-6) = false
  /\ Forall (fun v => v = NaN) (fused fv)
  /\ l2norm (fused fv) = NaN.
Proof.
  intros fv.
  assert (Hdim : dimensionality fv = 39%Z).
  { unfold fv. rewrite analyze_dimensionality. reflexivity. }
  assert (Hnan : l2norm (rawVector fv) = NaN
                 /\ Forall (fun v => v = NaN) (fused fv)
                 /\ l2norm (fused fv) = NaN).
  { unfold fv, analyze. cbn [a_featureVector].
    rewrite extractKeypoints_width_2. apply fused_of_NaN_keypoints. }
  destruct Hnan as (Hraw & Hall & Hnorm).
  split; [reflexivity |]. split.
  { unfold fv, analyze, constructFeatureVector.
    cbn [a_featureVector fused fv_keypoints fv_texture fv_statistical].
    rewrite length_map, !length_app. lia. }
  split; [exact Hdim |]. split; [exact Hraw |]. split.
  { now rewrite Hraw. }
  split; [exact Hall | exact Hnorm].
Qed.

End ImageVectors.

(* ================================================================== *)
(** ** services/yoloDetection.ts: non-maximum suppression *)
(* ================================================================== *)

Section IndexedLoops.

Context {A : Type}.

Lemma zrange_cons lo hi : (lo < hi)%Z -> zrange lo hi = lo :: zrange (lo + 1) hi.
Proof.
  intros H. unfold zrange.
  replace (Z.to_nat (hi - lo)) with (S (Z.to_nat (hi - (lo + 1)))) by lia.
  cbn [seq map]. f_equal; [lia |].
  rewrite <- seq_shift, map_map. apply map_ext. intros k. lia.
Qed.

Lemma zrange_nil lo hi : (hi <= lo)%Z -> zrange lo hi = [].
Proof. intros H. unfold zrange. now replace (Z.to_nat (hi - lo)) with O by lia. Qed.

Lemma zrange_snoc lo hi : (lo <= hi)%Z -> zrange lo (hi + 1) = zrange lo hi ++ [hi].
Proof.
  intros H. unfold zrange.
  replace (Z.to_nat (hi + 1 - lo)) with (Z.to_nat (hi - lo) + 1)%nat by lia.
  rewrite seq_app, map_app. cbn [seq map]. f_equal. f_equal. lia.
Qed.

(** A counting loop keeps an invariant that may mention the index. *)
Lemma forRange_indexed (P : Z -> A -> Prop) lo hi (body : Z -> A -> A) init :
  (lo <= hi)%Z ->
  P lo init ->
  (forall i acc, (lo <= i < hi)%Z -> P i acc -> P (i + 1)%Z (body i acc)) ->
  P hi (forRange lo hi body init).
Proof.
  intros Hle H0 Hstep.
  remember (Z.to_nat (hi - lo)) as n eqn:Hn.
  revert lo init Hle H0 Hstep Hn.
  induction n as [| n IH]; intros lo init Hle H0 Hstep Hn.
  - assert (hi = lo) by lia. subst hi.
    unfold forRange. rewrite zrange_nil by lia. exact H0.
  - unfold forRange. rewrite zrange_cons by lia. cbn [fold_left].
    apply (IH (lo + 1)%Z); try lia.
    + apply Hstep; [lia | exact H0].
    + intros i acc Hi. apply Hstep. lia.
Qed.

End IndexedLoops.

Section NonMaximumSuppression.

Import YoloDetection Statement.

Implicit Types (sorted : list BoundingBox) (used : list Z).

Lemma boxAt_Some sorted k :
  (0 <= k < Z.of_nat (List.length sorted))%Z -> exists b, boxAt sorted k = Some b.
Proof.
  intros H. unfold boxAt. replace (k <? 0)%Z with false by lia.
  destruct (nth_error sorted (Z.to_nat k)) as [b |] eqn:E; [now exists b |].
  apply nth_error_None in E. lia.
Qed.

Lemma boxAt_In sorted k b : boxAt sorted k = Some b -> In b sorted.
Proof.
  unfold boxAt. destruct (k <? 0)%Z; [discriminate |]. apply nth_error_In.
Qed.

Lemma boxAt_range sorted k b :
  boxAt sorted k = Some b -> (0 <= k < Z.of_nat (List.length sorted))%Z.
Proof.
  unfold boxAt. destruct (k <? 0)%Z eqn:E; [discriminate |].
  intros H. assert (nth_error sorted (Z.to_nat k) <> None) by congruence.
  apply nth_error_Some in H0. apply Z.ltb_ge in E. lia.
Qed.

Lemma In_boxAt sorted b : In b sorted -> exists k, boxAt sorted k = Some b.
Proof.
  intros H. apply In_nth_error in H. destruct H as [n Hn].
  exists (Z.of_nat n). unfold boxAt.
  destruct (Z.ltb_spec (Z.of_nat n) 0); [lia |].
  now rewrite Nat2Z.id.
Qed.

Lemma has_cons used j k : has (j :: used) k = (Z.eqb k j || has used k).
Proof. reflexivity. Qed.

(** The inner loop marks exactly the later boxes that overlap [bi]. *)
Lemma suppress_spec sorted i bi used j :
  (0 <= i < Z.of_nat (List.length sorted))%Z ->
  has (suppress sorted i bi used) j = true
  <-> has used j = true
      \/ ((i < j < Z.of_nat (List.length sorted))%Z
          /\ exists bj, boxAt sorted j = Some bj /\ overlaps bi bj = true).
Proof.
  intros Hi. unfold suppress.
  set (n := Z.of_nat (List.length sorted)).
  apply (forRange_indexed
           (fun m u => has u j = true
                       <-> has used j = true
                           \/ ((i < j < m)%Z
                               /\ exists bj, boxAt sorted j = Some bj
                                             /\ overlaps bi bj = true))).
  - lia.
  - split; [auto | intros [H | [H _]]; [exact H | lia]].
  - intros m u Hm IH.
    destruct (has u m) eqn:Hum.
    { rewrite IH. split.
      - intros [H | [Hr Hb]]; [auto | right; split; [lia | exact Hb]].
      - intros [H | [Hr Hb]]; [auto |].
        destruct (Z.eq_dec j m) as [-> | Hne].
        + rewrite <- IH. exact Hum.
        + right. split; [lia | exact Hb]. }
    destruct (@boxAt_Some sorted m) as [bm Hbm]; [fold n; lia |].
    assert (Hnth : nth_error sorted (Z.to_nat m) = Some bm).
    { unfold boxAt in Hbm. now replace (m <? 0)%Z with false in Hbm by lia. }
    rewrite Hnth.
    assert (Hov : (if negb (String.eqb (box_class bi) (box_class bm)) then u
                   else if gt (calculateIoU bi bm) nmsThreshold then m :: u else u)
                  = if overlaps bi bm then m :: u else u).
    { unfold overlaps. destruct (String.eqb _ _); cbn; [| reflexivity].
      destruct (gt (calculateIoU bi bm) nmsThreshold); reflexivity. }
    rewrite Hov. clear Hov.
    destruct (overlaps bi bm) eqn:Ho.
    + rewrite has_cons, orb_true_iff, IH, Z.eqb_eq. split.
      * intros [-> | [H | [Hr Hb]]].
        -- right. split; [lia | now exists bm].
        -- auto.
        -- right. split; [lia | exact Hb].
      * intros [H | [Hr Hb]]; [auto |].
        destruct (Z.eq_dec j m) as [-> | Hne]; [auto |].
        right. right. split; [lia | exact Hb].
    + rewrite IH. split.
      * intros [H | [Hr Hb]]; [auto | right; split; [lia | exact Hb]].
      * intros [H | [Hr (bj & Hbj & Hoj)]]; [auto |].
        destruct (Z.eq_dec j m) as [-> | Hne].
        -- rewrite Hbm in Hbj. injection Hbj as <-. congruence.
        -- right. split; [lia | now exists bj].
Qed.

Lemma flat_map_ext_in {B C : Type} (f g : B -> list C) l :
  (forall x, In x l -> f x = g x) -> flat_map f l = flat_map g l.
Proof.
  induction l as [| x l IH]; intros H; [reflexivity |].
  cbn. rewrite (H x (or_introl eq_refl)), IH; [reflexivity |].
  intros y Hy. apply H. now right.
Qed.

Lemma nmsLoop_invariant sorted :
  nmsInvariant sorted (Z.of_nat (List.length sorted)) (nmsLoop sorted).
Proof.
  unfold nmsLoop. set (n := Z.of_nat (List.length sorted)).
  apply (forRange_indexed (nmsInvariant sorted)); [lia | |].
  - cbn. repeat split; [discriminate | intros; lia].
  - intros i [selected used] Hi (Hsel & Hused & Hfree).
    destruct (has used i) eqn:Hui.
    + (* already suppressed *)
      cbn. repeat split.
      * rewrite zrange_snoc, flat_map_app by lia. cbn [flat_map].
        unfold keptAt at 2. rewrite Hui, app_nil_r. exact Hsel.
      * intros j Hj. destruct (Hused j Hj) as (k & bk & bj & H1 & H2 & H3).
        exists k, bk, bj. repeat split; try tauto; lia.
      * intros k j bk bj Hk Hkj Hnk Hnj Hbk Hbj.
        assert (k <> i) by congruence.
        apply (Hfree k j bk bj); auto; lia.
    + destruct (@boxAt_Some sorted i) as [bi Hbi]; [fold n; lia |].
      assert (Hnth : nth_error sorted (Z.to_nat i) = Some bi).
      { unfold boxAt in Hbi. now replace (i <? 0)%Z with false in Hbi by lia. }
      rewrite Hnth. cbn.
      pose proof (fun j => @suppress_spec sorted i bi used j ltac:(fold n; lia)) as Hs.
      set (used' := suppress sorted i bi used) in *.
      assert (Hsame : forall k, (k <= i)%Z -> has used' k = has used k).
      { intros k Hk. destruct (has used k) eqn:E.
        - apply Hs. now left.
        - destruct (has used' k) eqn:E'; [| reflexivity].
          apply Hs in E'. destruct E' as [E' | [Hr _]]; [congruence | lia]. }
      assert (Hmono : forall j, has used' j = false -> has used j = false).
      { intros j Hj. destruct (has used j) eqn:E; [| reflexivity].
        assert (has used' j = true) by (apply Hs; now left). congruence. }
      repeat split.
      * rewrite zrange_snoc, flat_map_app by lia. cbn [flat_map].
        unfold keptAt at 2. rewrite (Hsame i) by lia. rewrite Hui, Hbi, app_nil_r.
        f_equal. rewrite Hsel. apply flat_map_ext_in.
        intros k Hk. apply zrange_In in Hk. unfold keptAt.
        now rewrite (Hsame k) by lia.
      * intros j Hj. apply Hs in Hj. destruct Hj as [Hj | [Hr (bj & Hbj & Ho)]].
        -- destruct (Hused j Hj) as (k & bk & bj & H1 & H2 & H3 & H4).
           exists k, bk, bj. repeat split; try tauto; try lia.
           rewrite Hsame by lia. exact H3.
        -- exists i, bi, bj. repeat split; try lia; auto.
           rewrite Hsame by lia. exact Hui.
      * intros k j bk bj Hk Hkj Hnk Hnj Hbk Hbj.
        destruct (Z.eq_dec k i) as [-> | Hne].
        -- rewrite Hbi in Hbk. injection Hbk as <-.
           destruct (overlaps bi bj) eqn:Ho; [| reflexivity].
           assert (has used' j = true); [| congruence].
           apply Hs. right. split; [| now exists bj].
           apply boxAt_range in Hbj. fold n in Hbj. lia.
        -- apply (Hfree k j bk bj); auto; lia.
Qed.

End NonMaximumSuppression.

Section Sorting.

Import YoloDetection.

Context {A : Type}.

Lemma insertSorted_perm (cmp : A -> A -> number) x l :
  Permutation (insertSorted cmp x l) (x :: l).
Proof.
  induction l as [| y t IH]; cbn; [reflexivity |].
  destruct (lt (cmp x y) (Fin 0)); [reflexivity |].
  rewrite IH. apply perm_swap.
Qed.

Lemma sortWith_perm (cmp : A -> A -> number) l : Permutation (sortWith cmp l) l.
Proof.
  unfold sortWith.
  assert (H : forall acc, Permutation (fold_left (fun acc x => insertSorted cmp x acc) l acc)
                                      (acc ++ l)).
  { induction l as [| x t IH]; intros acc; cbn.
    - now rewrite app_nil_r.
    - rewrite IH, insertSorted_perm.
      change (x :: acc) with ([x] ++ acc).
      rewrite <- (Permutation_app_comm acc [x]), <- app_assoc. reflexivity. }
  apply (H []).
Qed.

End Sorting.

Lemma Forall_perm {B : Type} (P : B -> Prop) l l' :
  Permutation l l' -> Forall P l -> Forall P l'.
Proof. intros Hp. exact (Permutation_Forall Hp). Qed.

Section SortedByConfidence.

Import YoloDetection Statement.

Local Open Scope R_scope.

Lemma byConfidence_lt a b :
  finiteConfidence a -> finiteConfidence b ->
  lt (byConfidence a b) (Fin 0) = true <-> confidenceOf b < confidenceOf a.
Proof.
  unfold finiteConfidence, byConfidence, confidenceOf.
  destruct (box_confidence a) as [ca | |]; try discriminate.
  destruct (box_confidence b) as [cb | |]; try discriminate.
  intros _ _. cbn. unfold Rltb.
  destruct (Rlt_dec (cb + - ca) 0); split; intros; try lra; congruence.
Qed.

Lemma insertSorted_descending x l :
  finiteConfidence x -> Forall finiteConfidence l ->
  descending l -> descending (insertSorted byConfidence x l).
Proof.
  intros Hx Hl Hs. induction Hs as [| y t Ht IH Hy]; cbn.
  - constructor; constructor.
  - apply Forall_cons_iff in Hl. destruct Hl as [Hfy Hft].
    destruct (lt (byConfidence x y) (Fin 0)) eqn:E.
    + apply byConfidence_lt in E; auto.
      constructor; [constructor; assumption |].
      constructor; [lra |].
      eapply Forall_impl; [| exact Hy]. cbn. intros b Hb. lra.
    + assert (Hle : confidenceOf x <= confidenceOf y).
      { destruct (Rle_dec (confidenceOf x) (confidenceOf y)) as [? | Hn]; [assumption |].
        assert (lt (byConfidence x y) (Fin 0) = true)
          by (apply byConfidence_lt; auto; lra).
        congruence. }
      constructor; [apply IH; assumption |].
      apply (@Forall_perm _ _ (x :: t)).
      * symmetry. apply insertSorted_perm.
      * constructor; assumption.
Qed.

Lemma sortWith_descending l :
  Forall finiteConfidence l -> descending (sortWith byConfidence l).
Proof.
  intros Hl. unfold sortWith.
  assert (H : forall acc, Forall finiteConfidence acc -> descending acc ->
                          descending (fold_left (fun acc x => insertSorted byConfidence x acc) l acc)).
  { induction Hl as [| x t Hx Ht IH]; intros acc Hacc Hs; cbn; [exact Hs |].
    apply IH.
    - apply (@Forall_perm _ _ (x :: acc)).
      + symmetry. apply insertSorted_perm.
      + constructor; assumption.
    - now apply insertSorted_descending. }
  apply H; constructor.
Qed.

End SortedByConfidence.

Section NmsResults.

Import YoloDetection Statement Cases.

Local Open Scope R_scope.

Lemma keptAt_In sorted used k b :
  In b (keptAt sorted used k) -> has used k = false /\ boxAt sorted k = Some b.
Proof.
  unfold keptAt. destruct (has used k); [contradiction |].
  destruct (boxAt sorted k) as [b' |]; [| contradiction].
  intros [-> | []]. auto.
Qed.

Lemma keptAt_length sorted used k : (List.length (keptAt sorted used k) <= 1)%nat.
Proof.
  unfold keptAt. destruct (has used k); [cbn; lia |].
  destruct (boxAt sorted k); cbn; lia.
Qed.

Lemma flat_map_length_le {B C : Type} (f : B -> list C) l :
  (forall x, (List.length (f x) <= 1)%nat) ->
  (List.length (flat_map f l) <= List.length l)%nat.
Proof.
  intros H. induction l as [| x l IH]; cbn; [lia |].
  rewrite length_app. specialize (H x). lia.
Qed.

Lemma ordered_flat_map_zrange {C : Type} (R : C -> C -> Prop) (f : Z -> list C) lo hi :
  (forall k, (List.length (f k) <= 1)%nat) ->
  (forall k j a b, (lo <= k < j)%Z -> (j < hi)%Z -> In a (f k) -> In b (f j) -> R a b) ->
  ForallOrdPairs R (flat_map f (zrange lo hi)).
Proof.
  intros Hlen HR.
  remember (Z.to_nat (hi - lo)) as n eqn:Hn.
  revert lo HR Hn. induction n as [| n IH]; intros lo HR Hn.
  - rewrite zrange_nil by lia. constructor.
  - rewrite zrange_cons by lia. cbn [flat_map].
    assert (Hrest : ForallOrdPairs R (flat_map f (zrange (lo + 1) hi))).
    { apply IH; [| lia]. intros k j a b Hk Hj. apply HR; lia. }
    assert (Hall : forall a, In a (f lo) ->
                     Forall (R a) (flat_map f (zrange (lo + 1) hi))).
    { intros a Ha. apply Forall_forall. intros b Hb.
      apply in_flat_map in Hb. destruct Hb as (j & Hj & Hb).
      apply zrange_In in Hj. apply (HR lo j); auto; lia. }
    specialize (Hlen lo).
    destruct (f lo) as [| a [| a' t]]; cbn in *; [exact Hrest | | lia].
    constructor; [apply Hall; now left | exact Hrest].
Qed.

Lemma applyNMS_kept boxes :
  boxes <> [] ->
  exists used,
    let sorted := sortWith byConfidence boxes in
    applyNMS boxes
    = flat_map (keptAt sorted used) (zrange 0 (Z.of_nat (List.length sorted)))
    /\ nmsInvariant sorted (Z.of_nat (List.length sorted)) (applyNMS boxes, used).
Proof.
  intros Hne. unfold applyNMS. destruct boxes as [| b0 t]; [congruence |].
  set (sorted := sortWith byConfidence (b0 :: t)).
  pose proof (nmsLoop_invariant sorted) as Hinv.
  destruct (nmsLoop sorted) as [selected used]. cbn [fst].
  exists used. split; [apply Hinv | exact Hinv].
Qed.

Lemma applyNMS_incl boxes : incl (applyNMS boxes) boxes.
Proof.
  destruct boxes as [| b0 t] eqn:E; [apply incl_refl |].
  rewrite <- E. assert (Hne : boxes <> []) by (rewrite E; discriminate).
  destruct (applyNMS_kept Hne) as (used & Hout & _). cbn zeta in Hout.
  pose proof (sortWith_perm byConfidence boxes) as Hperm.
  intros b Hb. rewrite Hout in Hb. apply in_flat_map in Hb.
  destruct Hb as (k & _ & Hb). apply keptAt_In in Hb. destruct Hb as [_ Hb].
  apply boxAt_In in Hb. eapply Permutation_in; eassumption.
Qed.

(** [applyNMS] returns boxes of its input, and no more of them than the
    input has. *)
Theorem applyNMS_selects_input_boxes boxes :
  incl (applyNMS boxes) boxes
  /\ (List.length (applyNMS boxes) <= List.length boxes)%nat.
Proof.
  split; [apply applyNMS_incl |].
  destruct boxes as [| b0 t] eqn:E; [cbn; lia |].
  rewrite <- E. assert (Hne : boxes <> []) by (rewrite E; discriminate).
  destruct (applyNMS_kept Hne) as (used & Hout & _). cbn zeta in Hout.
  pose proof (sortWith_perm byConfidence boxes) as Hperm.
  - rewrite Hout, <- (Permutation_length Hperm).
    etransitivity; [apply flat_map_length_le, keptAt_length |].
    rewrite zrange_length. lia.
Qed.

(** Of two boxes that [applyNMS] returns, the later one is of another class
    than the earlier one or has an IoU of at most 0.3 with it. *)
Theorem applyNMS_kept_boxes_do_not_overlap boxes :
  ForallOrdPairs (fun a b => overlaps a b = false) (applyNMS boxes).
Proof.
  destruct boxes as [| b0 t] eqn:E; [constructor |].
  rewrite <- E. assert (Hne : boxes <> []) by (rewrite E; discriminate).
  destruct (applyNMS_kept Hne) as (used & Hout & Hinv). cbn zeta in Hout, Hinv.
  destruct Hinv as (_ & _ & Hfree). rewrite Hout.
  apply ordered_flat_map_zrange; [apply keptAt_length |].
  intros k j a b Hk Hj Ha Hb.
  apply keptAt_In in Ha, Hb. destruct Ha as [Hua Ha], Hb as [Hub Hb].
  apply (Hfree k j a b); auto; lia.
Qed.

(** [applyNMS] drops a box only on account of a returned box of the same
    class whose IoU with it exceeds 0.3. *)
Theorem applyNMS_covers_input boxes b :
  In b boxes ->
  In b (applyNMS boxes)
  \/ exists a, In a (applyNMS boxes) /\ overlaps a b = true.
Proof.
  intros Hb. assert (Hne : boxes <> []) by (intros ->; contradiction).
  destruct (applyNMS_kept Hne) as (used & Hout & Hinv). cbn zeta in Hout, Hinv.
  destruct Hinv as (_ & Hused & _).
  set (sorted := sortWith byConfidence boxes) in *.
  assert (Hs : In b sorted).
  { eapply Permutation_in; [symmetry; apply sortWith_perm | exact Hb]. }
  destruct (In_boxAt _ _ Hs) as [j Hj].
  assert (Hkept : forall k bk, has used k = false -> boxAt sorted k = Some bk ->
                               In bk (applyNMS boxes)).
  { intros k bk Hk Hbk. rewrite Hout. apply in_flat_map. exists k. split.
    - apply zrange_In. apply boxAt_range in Hbk. lia.
    - unfold keptAt. rewrite Hk, Hbk. now left. }
  destruct (has used j) eqn:Huj.
  - right. destruct (Hused j Huj) as (k & bk & bj & _ & _ & Hk & Hbk & Hbj & Ho).
    rewrite Hj in Hbj. injection Hbj as <-.
    exists bk. split; [now apply (Hkept k) | exact Ho].
  - left. now apply (Hkept j).
Qed.

(** With finite confidences, the first box [applyNMS] returns is a box of
    the input of highest confidence. *)
Theorem applyNMS_keeps_a_most_confident_box boxes :
  boxes <> [] -> Forall finiteConfidence boxes ->
  exists best rest,
    applyNMS boxes = best :: rest
    /\ In best boxes
    /\ forall b, In b boxes -> confidenceOf b <= confidenceOf best.
Proof.
  intros Hne Hfin.
  destruct (applyNMS_kept Hne) as (used & Hout & Hinv). cbn zeta in Hout, Hinv.
  destruct Hinv as (_ & Hused & _).
  pose proof (sortWith_perm byConfidence boxes) as Hperm.
  pose proof (sortWith_descending Hfin) as Hdesc.
  set (sorted := sortWith byConfidence boxes) in *.
  destruct sorted as [| best tail] eqn:Es.
  { apply Permutation_nil in Hperm. congruence. }
  assert (H0 : has used 0 = false).
  { destruct (has used 0) eqn:E; [| reflexivity].
    destruct (Hused 0%Z E) as (k & _ & _ & Hk & _). lia. }
  rewrite zrange_cons in Hout by (cbn [List.length]; lia).
  cbn [flat_map] in Hout. unfold keptAt at 1 in Hout.
  rewrite H0 in Hout. cbn in Hout.
  eexists best, _. split; [exact Hout |]. split.
  - eapply Permutation_in; [exact Hperm | now left].
  - intros b Hb. apply (Permutation_in _ (Permutation_sym Hperm)) in Hb.
    destruct Hb as [-> | Hb]; [lra |].
    apply StronglySorted_inv in Hdesc. destruct Hdesc as [_ Hall].
    rewrite Forall_forall in Hall. now apply Hall.
Qed.

Lemma applyNMS_covers_input_witness :
  In walkerAgain street
  /\ (In walkerAgain (applyNMS street)
      \/ exists a, In a (applyNMS street) /\ overlaps a walkerAgain = true).
Proof.
  split; [now left | apply (@applyNMS_covers_input street walkerAgain); now left].
Defined.

Lemma applyNMS_keeps_a_most_confident_box_witness :
  street <> [] /\ Forall finiteConfidence street
  /\ exists best rest,
       applyNMS street = best :: rest
       /\ In best street
       /\ forall b, In b street -> confidenceOf b <= confidenceOf best.
Proof.
  assert (Hne : street <> []) by discriminate.
  assert (Hfin : Forall finiteConfidence street) by (repeat constructor).
  split; [exact Hne |]. split; [exact Hfin |].
  exact (@applyNMS_keeps_a_most_confident_box street Hne Hfin).
Defined.

End NmsResults.

(* ================================================================== *)
(** ** services/yoloDetection.ts: intersection over union *)
(* ================================================================== *)

Section IntersectionOverUnion.

Import MetricsCalculation YoloDetection Statement Cases.

Local Open Scope R_scope.

Lemma max2_Fin a b : max2 (Fin a) (Fin b) = Fin (Rmax a b).
Proof.
  unfold max2, lt, Rltb, Rmax.
  destruct (Rlt_dec a b), (Rle_dec a b); try reflexivity; try lra.
  f_equal. lra.
Qed.

Lemma min2_Fin a b : min2 (Fin a) (Fin b) = Fin (Rmin a b).
Proof.
  unfold min2, lt, Rltb, Rmin.
  destruct (Rlt_dec b a), (Rle_dec a b); try reflexivity; try lra.
Qed.

Lemma add_comm a b : add a b = add b a.
Proof.
  destruct a as [x | s |], b as [y | t |]; cbn; try reflexivity.
  - f_equal. apply Rplus_comm.
  - destruct s, t; reflexivity.
Qed.

Lemma mul_comm a b : mul a b = mul b a.
Proof.
  destruct a as [x | s |], b as [y | t |]; cbn; try reflexivity.
  - f_equal. apply Rmult_comm.
  - destruct s, t; reflexivity.
Qed.

Lemma max2_comm a b : max2 a b = max2 b a.
Proof.
  destruct a as [x | [] |], b as [y | [] |]; cbn; try reflexivity.
  unfold Rltb. destruct (Rlt_dec x y), (Rlt_dec y x); try reflexivity; try lra.
  f_equal. lra.
Qed.

Lemma min2_comm a b : min2 a b = min2 b a.
Proof.
  destruct a as [x | [] |], b as [y | [] |]; cbn; try reflexivity.
  unfold Rltb. destruct (Rlt_dec x y), (Rlt_dec y x); try reflexivity; try lra.
  f_equal. lra.
Qed.

(** [Math.max(0, v)] is NaN or not below 0; so is a product of two such
    numbers, and so is their quotient by a number above 0. *)
Lemma max2_0_not_negative v : lt (max2 (Fin 0) v) (Fin 0) = false.
Proof.
  destruct v as [x | [] |]; cbn; unfold Rltb; try reflexivity.
  - destruct (Rlt_dec 0 x); cbn; unfold Rltb;
      destruct (Rlt_dec _ 0); try reflexivity; lra.
  - destruct (Rlt_dec 0 0); [lra | reflexivity].
Qed.

Lemma mul_not_negative a b :
  lt a (Fin 0) = false -> lt b (Fin 0) = false -> lt (mul a b) (Fin 0) = false.
Proof.
  destruct a as [x | s |], b as [y | t |]; cbn; unfold Rltb, Reqb;
    try reflexivity.
  - destruct (Rlt_dec x 0), (Rlt_dec y 0); try discriminate.
    intros _ _. destruct (Rlt_dec (x * y) 0); [nra | reflexivity].
  - intros Hx ->. destruct (Req_dec_T x 0); [reflexivity |].
    cbn. exact Hx.
  - intros -> Hy. destruct (Req_dec_T y 0); [reflexivity |].
    cbn. exact Hy.
  - now intros -> ->.
Qed.

Lemma div_not_negative a b :
  lt a (Fin 0) = false -> gt b (Fin 0) = true -> lt (div a b) (Fin 0) = false.
Proof.
  destruct a as [x | s |], b as [y | t |]; cbn; unfold Rltb, Reqb;
    try reflexivity; try discriminate.
  - destruct (Rlt_dec x 0), (Rlt_dec 0 y); try discriminate.
    intros _ _. destruct (Req_dec_T y 0); [lra |]. cbn. unfold Rltb.
    destruct (Rlt_dec (x / y) 0) as [Hneg |]; [| reflexivity].
    assert (0 <= x / y) by (apply Rdiv_nonneg; lra). lra.
  - intros _ _. cbn. unfold Rltb. destruct (Rlt_dec 0 0); [lra | reflexivity].
  - intros -> Hy. destruct (Rlt_dec 0 y); [| discriminate].
    cbn. destruct (Rlt_dec y 0); [lra | reflexivity].
Qed.

(** The IoU of two boxes is the same in both argument orders and is
    never below 0, whatever numbers the boxes hold; so the test under
    which [applyNMS] suppresses a box is symmetric. *)
Theorem calculateIoU_symmetric_and_not_negative box1 box2 :
  calculateIoU box1 box2 = calculateIoU box2 box1
  /\ lt (calculateIoU box1 box2) (Fin 0) = false
  /\ overlaps box1 box2 = overlaps box2 box1.
Proof.
  assert (Hsym : forall a b, calculateIoU a b = calculateIoU b a).
  { intros a b. unfold calculateIoU. cbn zeta.
    rewrite (max2_comm (box_x a)), (max2_comm (box_y a)).
    rewrite (min2_comm (add (box_x a) (box_width a))).
    rewrite (min2_comm (add (box_y a) (box_height a))).
    now rewrite (add_comm (mul (box_width a) (box_height a))). }
  split; [apply Hsym |]. split.
  - unfold calculateIoU. cbn zeta.
    match goal with |- context [gt ?u (Fin 0)] => destruct (gt u (Fin 0)) eqn:Hu end.
    + apply div_not_negative; [| exact Hu].
      apply mul_not_negative; apply max2_0_not_negative.
    + cbn. unfold Rltb. destruct (Rlt_dec 0 0); [lra | reflexivity].
  - unfold overlaps. rewrite (Hsym box1 box2).
    now rewrite String.eqb_sym.
Qed.

End IntersectionOverUnion.

(* ================================================================== *)
(** ** services/yoloDetection.ts: the filter and the failures of detect *)
(* ================================================================== *)

Section Detector.

Import Spec YoloDetection Statement Cases.

Lemma lookupId_In name m id : lookupId name m = Some id -> In (name, id) m.
Proof.
  induction m as [| [k v] rest IH]; cbn; [discriminate |].
  destruct (String.eqb k name) eqn:E.
  - apply String.eqb_eq in E. intros [= <-]. left. now subst.
  - intros H. right. now apply IH.
Qed.

Lemma isValid_true maxBoxArea pred :
  isValid maxBoxArea pred = true ->
  lt (mul (bbox_width pred) (bbox_height pred)) maxBoxArea = true
  /\ gt (mul (bbox_width pred) (bbox_height pred)) (Fin 100) = true
  /\ ge (score pred) confidenceThreshold = true.
Proof.
  unfold isValid. cbn zeta. rewrite !andb_true_iff. tauto.
Qed.

Lemma lookupId_of_entry name id :
  In (name, id) CLASS_ID_MAP -> lookupId name CLASS_ID_MAP = Some id.
Proof.
  unfold CLASS_ID_MAP. cbn [In]. intros H.
  repeat (destruct H as [H | H]; [inversion H; subst; reflexivity |]).
  contradiction.
Qed.

Lemma lookupId_outside name :
  (forall id, ~ In (name, id) CLASS_ID_MAP) -> lookupId name CLASS_ID_MAP = None.
Proof.
  intros H. destruct (lookupId name CLASS_ID_MAP) as [id |] eqn:E;
    [| reflexivity].
  apply lookupId_In in E. now apply H in E.
Qed.

(** Every box [detect] reports is, field by field, a prediction of the
    model that has a score of at least 0.10 and an area above 100 and
    below half the image's.  Its class id is the entry of its class in
    [CLASS_ID_MAP]; it is -1 when the class has no entry and is not the
    name of an inherited property. *)
Theorem detectedBoxes_pass_the_filter width height predictions :
  Forall (fun b =>
            ge (box_confidence b) confidenceThreshold = true
            /\ gt (mul (box_width b) (box_height b)) (Fin 100) = true
            /\ lt (mul (box_width b) (box_height b))
                  (mul (ofZ (width * height)) maxBoxAreaRatio) = true
            /\ (forall id, In (box_class b, id) CLASS_ID_MAP ->
                           box_classId b = id)
            /\ ((forall id, ~ In (box_class b, id) CLASS_ID_MAP) ->
                plainName (box_class b) = true -> box_classId b = (-1)%Z)
            /\ exists pred,
                 In pred predictions
                 /\ box_x b = bbox_x pred /\ box_y b = bbox_y pred
                 /\ box_width b = bbox_width pred
                 /\ box_height b = bbox_height pred
                 /\ box_confidence b = score pred
                 /\ box_class b = pred_class pred)
         (detectedBoxes width height predictions).
Proof.
  apply Forall_forall. intros b Hb. unfold detectedBoxes in Hb. cbn zeta in Hb.
  apply applyNMS_incl in Hb. apply in_map_iff in Hb.
  destruct Hb as (pred & <- & Hp). apply filter_In in Hp.
  destruct Hp as [Hin Hvalid]. apply isValid_true in Hvalid.
  destruct Hvalid as (Hmax & Hmin & Hscore).
  cbn [toBox box_x box_y box_confidence box_width box_height box_class
       box_classId].
  split; [exact Hscore |]. split; [exact Hmin |]. split; [exact Hmax |].
  split; [| split].
  - intros id Hid. now rewrite (lookupId_of_entry Hid).
  - intros Hout _. now rewrite (lookupId_outside Hout).
  - exists pred. repeat split; assumption.
Qed.

Lemma lt_gt_Fin a x y : lt a (Fin x) = true -> gt a (Fin y) = true -> (y < x)%R.
Proof.
  destruct a as [r | s |]; cbn; try discriminate.
  - unfold Rltb. destruct (Rlt_dec r x), (Rlt_dec y r); try discriminate. lra.
  - destruct s; discriminate.
Qed.

(** On an image of at most 200 pixels no prediction passes the size
    filter: [detect] reports no box, whatever the model predicts. *)
Theorem detectedBoxes_of_small_image width height predictions :
  (width * height <= 200)%Z ->
  detectedBoxes width height predictions = [].
Proof.
  intros Hsmall. unfold detectedBoxes. cbn zeta.
  replace (filter _ predictions) with (@nil Prediction); [reflexivity |].
  symmetry. induction predictions as [| p rest IH]; [reflexivity |].
  cbn [filter]. rewrite <- IH.
  destruct (isValid _ p) eqn:E; [| reflexivity].
  apply isValid_true in E. destruct E as (Hmax & Hmin & _).
  unfold ofZ, maxBoxAreaRatio in Hmax. cbn [mul] in Hmax.
  pose proof (@lt_gt_Fin _ _ _ Hmax Hmin) as Hlt.
  apply IZR_le in Hsmall. lra.
Qed.

Lemma detectedBoxes_of_small_image_witness :
  (16 * 12 <= 200)%Z
  /\ detectedBoxes 16 12
       [ {| bbox_x := Fin 0; bbox_y := Fin 0; bbox_width := Fin 10;
            bbox_height := Fin 11; pred_class := "person";
            score := Fin 0.99 |} ] = [].
Proof.
  split; [lia | apply detectedBoxes_of_small_image; lia].
Defined.

(** [detect] rejects exactly when one of its steps fails, and with the
    error of that step: the model download, the canvas calls of the
    pre-processing, or the model's inference.  An image that fails to
    load is no error. *)
Theorem detect_rejects_with_the_error_of_a_step host modelReady imageUrl e :
  fst (YoloDetection.detect host modelReady imageUrl) = inl e <->
  (modelReady = false /\ cocoLoad host = inl e)
  \/ ((modelReady = true \/ exists u, cocoLoad host = inr u)
      /\ exists img,
           imageLoad host imageUrl = Some img
           /\ (getImageData host img = inl e
               \/ exists pixels,
                    getImageData host img = inr pixels
                    /\ modelDetect host (preprocessForDetection pixels)
                       = inl e)).
Proof.
  assert (Himage :
    forall ready : bool,
      fst (match imageLoad host imageUrl with
           | None =>
               (inr {| boxes := []; imageWidth := Fin 0; imageHeight := Fin 0;
                       modelVersion := modelVersionName |}, ready)
           | Some img =>
               match getImageData host img with
               | inl e' => (inl e', ready)
               | inr pixels =>
                   match modelDetect host (preprocessForDetection pixels) with
                   | inl e' => (inl e', ready)
                   | inr predictions =>
                       (inr {| boxes := detectedBoxes (img_width img)
                                                      (img_height img)
                                                      predictions;
                               imageWidth := ofZ (img_width img);
                               imageHeight := ofZ (img_height img);
                               modelVersion := modelVersionName |}, ready)
                   end
               end
           end) = inl e
      <-> exists img,
            imageLoad host imageUrl = Some img
            /\ (getImageData host img = inl e
                \/ exists pixels,
                     getImageData host img = inr pixels
                     /\ modelDetect host (preprocessForDetection pixels)
                        = inl e)).
  { intros ready.
    destruct (imageLoad host imageUrl) as [img |] eqn:Ei; cbn [fst].
    - destruct (getImageData host img) as [e1 | pixels] eqn:Eg; cbn [fst].
      + split.
        * intros [= <-]. exists img. split; [reflexivity | now left].
        * intros (img' & [= <-] & [H | (px & H & _)]); congruence.
      + destruct (modelDetect host (preprocessForDetection pixels))
          as [e2 | ps] eqn:Em; cbn [fst]; split.
        * intros [= <-]. exists img. split; [reflexivity |].
          right. now exists pixels.
        * intros (img' & [= <-] & [H | (px & H & Hm)]); congruence.
        * discriminate.
        * intros (img' & [= <-] & [H | (px & H & Hm)]); congruence.
    - split; [discriminate |]. intros (img' & H & _). discriminate. }
  unfold YoloDetection.detect, YoloDetection.loadModel.
  destruct modelReady; cbn [negb].
  - rewrite Himage. split.
    + intros H. right. split; [now left | exact H].
    + intros [[? _] | [_ H]]; [discriminate | exact H].
  - destruct (cocoLoad host) as [e' | u] eqn:Ec; cbn [fst negb].
    + split.
      * intros [= <-]. now left.
      * intros [[_ He] | [[? | [u Hu]] _]]; congruence.
    + rewrite Himage. split.
      * intros H. right. split; [right; now exists u | exact H].
      * intros [[_ ?] | [_ H]]; [discriminate | exact H].
Qed.

Lemma detect_rejects_with_the_error_of_a_step_witness :
  fst (YoloDetection.detect emptyCanvasHost false "dark.png")
  = inl (HostError "IndexSizeError").
Proof.
  apply (proj2 (@detect_rejects_with_the_error_of_a_step
                  emptyCanvasHost false "dark.png"
                  (HostError "IndexSizeError"))).
  right. split; [right; now exists tt |].
  eexists. split; [reflexivity | now left].
Defined.

(** An image that fails to load makes [detect] resolve with no boxes and
    a 0 x 0 image, without consulting the model; the model stays loaded. *)
Theorem detect_of_unloadable_image host modelReady imageUrl :
  modelReady = true \/ (exists u, cocoLoad host = inr u) ->
  imageLoad host imageUrl = None ->
  YoloDetection.detect host modelReady imageUrl
  = (inr {| boxes := []; imageWidth := Fin 0; imageHeight := Fin 0;
            modelVersion := modelVersionName |}, true).
Proof.
  intros Hmodel Himg. unfold YoloDetection.detect, YoloDetection.loadModel.
  destruct modelReady; cbn [negb]; [now rewrite Himg |].
  destruct Hmodel as [? | [u Hu]]; [discriminate |].
  rewrite Hu. cbn [negb]. now rewrite Himg.
Qed.

Lemma detect_of_unloadable_image_witness :
  (false = true \/ exists u, cocoLoad brokenLinkHost = inr u)
  /\ imageLoad brokenLinkHost "missing.png" = None
  /\ YoloDetection.detect brokenLinkHost false "missing.png"
     = (inr {| boxes := []; imageWidth := Fin 0; imageHeight := Fin 0;
               modelVersion := modelVersionName |}, true).
Proof.
  assert (Hmodel : false = true \/ exists u, cocoLoad brokenLinkHost = inr u)
    by (right; now exists tt).
  split; [exact Hmodel |]. split; [reflexivity |].
  exact (@detect_of_unloadable_image brokenLinkHost false "missing.png"
           Hmodel eq_refl).
Defined.

End Detector.

(* ================================================================== *)
(** ** services/yoloDetection.ts: brightening before detection *)
(* ================================================================== *)

Section BrighteningForDetection.

Import YoloDetection Brightening.

Lemma nth_error_updateAt {A : Type} n (f : A -> A) l k :
  nth_error (updateAt n f l) k
  = if Nat.eqb k n then option_map f (nth_error l k) else nth_error l k.
Proof.
  revert n k. induction l as [| a l IH]; intros n k.
  - destruct n, k; cbn; try reflexivity; now destruct (Nat.eqb k n).
  - destruct n as [| n], k as [| k]; cbn; try reflexivity. apply IH.
Qed.

Lemma store_boost_nth cur i k :
  (0 <= i)%Z ->
  nth_error (store cur i (boost (dataAt cur i))) k
  = if Nat.eqb k (Z.to_nat i) then option_map boostedByte (nth_error cur k)
    else nth_error cur k.
Proof.
  intros Hi. unfold store, updateAtZ.
  replace (i <? 0)%Z with false by lia.
  rewrite nth_error_updateAt. destruct (Nat.eqb k (Z.to_nat i)) eqn:E; [| reflexivity].
  apply Nat.eqb_eq in E. subst k. unfold dataAt.
  replace (i <? 0)%Z with false by lia.
  destruct (nth_error cur (Z.to_nat i)) as [b |]; reflexivity.
Qed.

Lemma preprocess_iterations data n k :
  nth_error
    (fold_left (fun acc i =>
                  let data := store acc i (boost (dataAt acc i)) in
                  let data := store data (i + 1) (boost (dataAt data (i + 1))) in
                  store data (i + 2) (boost (dataAt data (i + 2))))
               (map (fun j => (0 + 4 * Z.of_nat j)%Z) (seq 0 n)) data) k
  = if (k <? 4 * n)%nat then option_map (brightenedAt k) (nth_error data k)
    else nth_error data k.
Proof.
  induction n as [| n IH].
  - reflexivity.
  - rewrite seq_S, map_app, fold_left_app. cbn [map fold_left Nat.add].
    set (cur := fold_left _ _ data) in *.
    rewrite !store_boost_nth by lia.
    replace (Z.to_nat (0 + 4 * Z.of_nat n + 2)) with (4 * n + 2)%nat by lia.
    replace (Z.to_nat (0 + 4 * Z.of_nat n + 1)) with (4 * n + 1)%nat by lia.
    replace (Z.to_nat (0 + 4 * Z.of_nat n)) with (4 * n)%nat by lia.
    rewrite IH.
    assert (Hmod : forall r, (0 <= r < 4)%Z ->
              ((4 * Z.of_nat n + r) mod 4 = r)%Z).
    { intros r Hr. rewrite Z.add_comm, Z.mul_comm, Z.mod_add by lia.
      now apply Z.mod_small. }
    destruct (Nat.eqb k (4 * n + 2)) eqn:E2;
      [apply Nat.eqb_eq in E2; subst k |].
    { replace (4 * n + 2 =? 4 * n + 1)%nat with false by (symmetry; apply Nat.eqb_neq; lia).
      replace (4 * n + 2 =? 4 * n)%nat with false by (symmetry; apply Nat.eqb_neq; lia).
      replace (4 * n + 2 <? 4 * n)%nat with false by (symmetry; apply Nat.ltb_ge; lia).
      replace (4 * n + 2 <? 4 * S n)%nat with true by (symmetry; apply Nat.ltb_lt; lia).
      unfold brightenedAt.
      replace (Z.of_nat (4 * n + 2)) with (4 * Z.of_nat n + 2)%Z by lia.
      rewrite Hmod by lia. reflexivity. }
    destruct (Nat.eqb k (4 * n + 1)) eqn:E1;
      [apply Nat.eqb_eq in E1; subst k |].
    { replace (4 * n + 1 =? 4 * n)%nat with false by (symmetry; apply Nat.eqb_neq; lia).
      replace (4 * n + 1 <? 4 * n)%nat with false by (symmetry; apply Nat.ltb_ge; lia).
      replace (4 * n + 1 <? 4 * S n)%nat with true by (symmetry; apply Nat.ltb_lt; lia).
      unfold brightenedAt.
      replace (Z.of_nat (4 * n + 1)) with (4 * Z.of_nat n + 1)%Z by lia.
      rewrite Hmod by lia. reflexivity. }
    destruct (Nat.eqb k (4 * n)) eqn:E0;
      [apply Nat.eqb_eq in E0; subst k |].
    { replace (4 * n <? 4 * n)%nat with false by (symmetry; apply Nat.ltb_ge; lia).
      replace (4 * n <? 4 * S n)%nat with true by (symmetry; apply Nat.ltb_lt; lia).
      unfold brightenedAt.
      replace (Z.of_nat (4 * n)) with (4 * Z.of_nat n + 0)%Z by lia.
      rewrite Hmod by lia. reflexivity. }
    apply Nat.eqb_neq in E2, E1, E0.
    destruct (Nat.ltb_spec k (4 * n)) as [Hlt | Hge].
    + replace (k <? 4 * S n)%nat with true by (symmetry; apply Nat.ltb_lt; lia).
      reflexivity.
    + destruct (Nat.ltb_spec k (4 * S n)) as [Hlt' | Hge']; [| reflexivity].
      assert (k = 4 * n + 3)%nat by lia. subst k.
      unfold brightenedAt.
      replace (Z.of_nat (4 * n + 3)) with (4 * Z.of_nat n + 3)%Z by lia.
      rewrite Hmod by lia. rewrite Z.eqb_refl.
      now destruct (nth_error data (4 * n + 3)).
Qed.

Lemma preprocessPixels_nth data k :
  nth_error (preprocessPixels data) k
  = option_map (brightenedAt k) (nth_error data k).
Proof.
  unfold preprocessPixels, forStep, zrangeStep.
  rewrite preprocess_iterations.
  set (n := Z.to_nat _).
  destruct (Nat.ltb_spec k (4 * n)) as [Hlt | Hge]; [reflexivity |].
  assert (Hlen : (List.length data <= 4 * n)%nat).
  { subst n. rewrite Z.sub_0_r.
    pose proof (Z.div_mod (Z.of_nat (List.length data) + 4 - 1) 4 ltac:(lia)) as Hd.
    pose proof (Z.mod_pos_bound (Z.of_nat (List.length data) + 4 - 1) 4 ltac:(lia)).
    assert (0 <= (Z.of_nat (List.length data) + 4 - 1) / 4)%Z
      by (apply Z.div_pos; lia).
    lia. }
  assert (Hnone : nth_error data k = None) by (apply nth_error_None; lia).
  now rewrite Hnone.
Qed.

(** The brightening keeps the number of bytes, leaves every alpha byte as
    it is, and replaces every colour byte by a function of that byte
    alone. *)
Theorem preprocessForDetection_is_pixelwise img :
  img_width (preprocessForDetection img) = img_width img
  /\ img_height (preprocessForDetection img) = img_height img
  /\ List.length (img_data (preprocessForDetection img))
     = List.length (img_data img)
  /\ forall k,
       nth_error (img_data (preprocessForDetection img)) k
       = option_map (brightenedAt k) (nth_error (img_data img) k).
Proof.
  cbn [preprocessForDetection img_width img_height img_data].
  repeat split; [| apply preprocessPixels_nth].
  unfold preprocessPixels. unfold forStep.
  apply fold_left_invariant; [reflexivity |].
  intros a i _ Ha. unfold store. now rewrite !updateAtZ_length.
Qed.

Local Open Scope R_scope.

Lemma factor_value : factor = Fin (102305 / 30345).
Proof.
  unfold factor, contrast. cbn [mul add sub neg].
  rewrite div_Fin by lra. f_equal.
  replace (1.4 * 100 + 255) with 395 by lra.
  replace (255 * (259 + - (1.4 * 100))) with 30345 by lra.
  lra.
Qed.

Lemma boost_Fin v :
  boost (Fin v)
  = Fin (Rmin 255 (Rmax 0 (102305 / 30345 * (v - 128) + 128 + 40))).
Proof.
  unfold boost, brightness. rewrite factor_value. cbn [sub neg add mul].
  now rewrite max2_Fin, min2_Fin.
Qed.

Lemma byteVal_byteZ b : byteVal b = IZR (byteZ b).
Proof. reflexivity. Qed.

Lemma byteZ_range b : (0 <= byteZ b <= 255)%Z.
Proof.
  unfold byteZ. pose proof (Byte.to_N_bounded b) as H.
  apply N2Z.inj_le in H. cbn in H. lia.
Qed.

Lemma byteZ_byteOfZ z : (0 <= z <= 255)%Z -> byteZ (byteOfZ z) = z.
Proof.
  intros Hz. unfold byteZ, byteOfZ.
  destruct (Byte.of_N (Z.to_N z)) as [b |] eqn:E.
  - apply Byte.to_of_N in E. rewrite E. lia.
  - apply Byte.of_N_None_iff in E. lia.
Qed.

Lemma roundHalfEven_bounds x :
  (Zfloor x <= roundHalfEven x <= Zfloor x + 1)%Z.
Proof.
  unfold roundHalfEven. cbn zeta.
  destruct (Rlt_dec _ _); [lia |].
  destruct (Rlt_dec _ _); [lia |].
  destruct (Z.even _); lia.
Qed.

Lemma roundHalfEven_monotone x y : x <= y -> (roundHalfEven x <= roundHalfEven y)%Z.
Proof.
  intros Hxy.
  pose proof (Zfloor_le x y Hxy) as Hf.
  pose proof (roundHalfEven_bounds x) as Hx.
  pose proof (roundHalfEven_bounds y) as Hy.
  destruct (Z.eq_dec (Zfloor x) (Zfloor y)) as [Heq | Hne]; [| lia].
  unfold roundHalfEven. cbn zeta. rewrite <- Heq.
  destruct (Rlt_dec (x - IZR (Zfloor x)) (/ 2)) as [Hx1 | Hx1];
    destruct (Rlt_dec (y - IZR (Zfloor x)) (/ 2)) as [Hy1 | Hy1];
    try lia; try lra.
  - destruct (Rlt_dec (/ 2) (y - IZR (Zfloor x))); [lia |].
    destruct (Z.even (Zfloor x)); lia.
  - destruct (Rlt_dec (/ 2) (x - IZR (Zfloor x))) as [Hx2 | Hx2];
      destruct (Rlt_dec (/ 2) (y - IZR (Zfloor x))) as [Hy2 | Hy2];
      try lia; try lra.
    all: destruct (Z.even (Zfloor x)); lia.
Qed.

Lemma toUint8Clamp_range x : (0 <= toUint8Clamp (Fin x) <= 255)%Z.
Proof.
  cbn [toUint8Clamp].
  destruct (Rle_dec x 0) as [H0 | H0]; [lia |].
  destruct (Rle_dec 255 x) as [H1 | H1]; [lia |].
  pose proof (roundHalfEven_bounds x) as Hb.
  assert (0 <= Zfloor x)%Z by (apply Zfloor_lub; cbn; lra).
  assert (Zfloor x < 255)%Z.
  { apply lt_IZR. pose proof (Zfloor_bound x). lra. }
  lia.
Qed.

Lemma toUint8Clamp_monotone x y :
  x <= y -> (toUint8Clamp (Fin x) <= toUint8Clamp (Fin y))%Z.
Proof.
  intros Hxy. pose proof (toUint8Clamp_range x) as Hx.
  pose proof (toUint8Clamp_range y) as Hy. cbn [toUint8Clamp] in *.
  destruct (Rle_dec x 0) as [Hx0 | Hx0]; [lia |].
  destruct (Rle_dec y 0) as [Hy0 | Hy0]; [lra |].
  destruct (Rle_dec 255 y) as [Hy1 | Hy1]; [lia |].
  destruct (Rle_dec 255 x) as [Hx1 | Hx1]; [lra |].
  now apply roundHalfEven_monotone.
Qed.

(** A colour byte of at most 78 becomes 0 and one of at least 154 becomes
    255. *)
Theorem boostedByte_saturates b :
  ((byteZ b <= 78)%Z -> boostedByte b = x00)
  /\ ((154 <= byteZ b)%Z -> boostedByte b = xff).
Proof.
  unfold boostedByte. rewrite boost_Fin, byteVal_byteZ.
  split; intros Hb; apply IZR_le in Hb.
  - rewrite Rmax_left by lra. rewrite Rmin_right by lra.
    cbn [toUint8Clamp]. destruct (Rle_dec 0 0); [reflexivity | lra].
  - rewrite Rmax_right by lra. rewrite Rmin_left by lra.
    cbn [toUint8Clamp].
    destruct (Rle_dec 255 0); [lra |].
    destruct (Rle_dec 255 255); [reflexivity | lra].
Qed.

Lemma boostedByte_saturates_witness :
  boostedByte "N"%byte = x00 /\ boostedByte x9a = xff.
Proof.
  split.
  - apply (proj1 (boostedByte_saturates "N"%byte)). vm_compute. discriminate.
  - apply (proj2 (boostedByte_saturates x9a)). vm_compute. discriminate.
Defined.

(** The brightening preserves the order of colour bytes. *)
Theorem boostedByte_monotone a b :
  (byteZ a <= byteZ b)%Z -> (byteZ (boostedByte a) <= byteZ (boostedByte b))%Z.
Proof.
  intros Hab. unfold boostedByte. rewrite !boost_Fin.
  rewrite !byteZ_byteOfZ by apply toUint8Clamp_range.
  apply toUint8Clamp_monotone. rewrite !byteVal_byteZ. apply IZR_le in Hab.
  apply Rle_min_compat_l, Rle_max_compat_l. nra.
Qed.

Lemma boostedByte_monotone_witness :
  (byteZ x64 <= byteZ x96)%Z
  /\ (byteZ (boostedByte x64) <= byteZ (boostedByte x96))%Z.
Proof.
  assert (H : (byteZ x64 <= byteZ x96)%Z) by (vm_compute; discriminate).
  split; [exact H | exact (@boostedByte_monotone x64 x96 H)].
Defined.

End BrighteningForDetection.

(* ================================================================== *)
(** ** services/metricsCalculation.ts: counting detections *)
(* ================================================================== *)

Section DetectionCounts.

Import Spec Counting ModelTraining Statement Cases.

Lemma countAt_countClass c c' counts :
  countAt c' (countClass c counts)
  = if String.eqb c c'
    then Some (match countAt c counts with Some n => n + 1 | None => 1 end)%Z
    else countAt c' counts.
Proof.
  induction counts as [| [k n] rest IH]; cbn [countClass countAt].
  - destruct (String.eqb c c'); reflexivity.
  - destruct (String.eqb k c) eqn:Ekc; cbn [countAt].
    + apply String.eqb_eq in Ekc. subst k.
      destruct (String.eqb c c'); reflexivity.
    + rewrite IH. destruct (String.eqb c c') eqn:Ecc; [| reflexivity].
      apply String.eqb_eq in Ecc. subst c'. now rewrite Ekc.
Qed.

Lemma zsum_countClass c counts :
  zsum (map snd (countClass c counts)) = (zsum (map snd counts) + 1)%Z.
Proof.
  induction counts as [| [k n] rest IH]; cbn [countClass map snd].
  - reflexivity.
  - destruct (String.eqb k c); cbn [map snd]; rewrite !zsum_cons; [lia |].
    rewrite IH. lia.
Qed.

Lemma keys_countClass_In c counts k :
  In k (map fst (countClass c counts)) -> k = c \/ In k (map fst counts).
Proof.
  induction counts as [| [k' n] rest IH]; cbn [countClass map fst].
  - intros [<- | []]. now left.
  - destruct (String.eqb k' c); cbn [map fst].
    + intros H. now right.
    + intros [<- | H]; [right; now left |].
      destruct (IH H) as [-> | Hin]; [now left | right; now right].
Qed.

Lemma keys_countClass c counts :
  NoDup (map fst counts) -> NoDup (map fst (countClass c counts)).
Proof.
  induction counts as [| [k n] rest IH]; cbn [countClass map fst]; intros Hnd.
  - repeat constructor. intros [].
  - inversion Hnd as [| ? ? Hnotin Hrest]; subst.
    destruct (String.eqb k c) eqn:E; cbn [map fst]; [now constructor |].
    constructor; [| now apply IH].
    intros Hin. destruct (@keys_countClass_In _ _ _ Hin) as [-> | Hin'];
      [| contradiction].
    now rewrite String.eqb_refl in E.
Qed.

Lemma tally_spec detections counts :
  NoDup (map fst counts) ->
  NoDup (map fst (tally detections counts))
  /\ zsum (map snd (tally detections counts))
     = (zsum (map snd counts) + Z.of_nat (List.length detections))%Z
  /\ forall c,
       match countAt c (tally detections counts) with
       | Some n => n
       | None => 0%Z
       end
       = (match countAt c counts with Some n => n | None => 0%Z end
          + countOf c detections)%Z.
Proof.
  revert counts. induction detections as [| d rest IH]; intros counts Hnd.
  - unfold tally, countOf. cbn [fold_left filter List.length].
    repeat split; [exact Hnd | lia | intros c; lia].
  - cbn [tally fold_left].
    destruct (IH (countClass (box_class d) counts)
                 (@keys_countClass (box_class d) counts Hnd))
      as (Hk & Hs & Hc).
    fold (tally rest (countClass (box_class d) counts)).
    repeat split; [exact Hk | |].
    + rewrite Hs, zsum_countClass. cbn [List.length]. lia.
    + intros c. rewrite Hc, countAt_countClass. unfold countOf. cbn [filter].
      destruct (String.eqb (box_class d) c) eqn:E.
      * apply String.eqb_eq in E. subst c.
        cbn [List.length]. destruct (countAt (box_class d) counts); lia.
      * lia.
Qed.

Lemma countClass_positive c counts :
  Forall (fun p => (0 < snd p)%Z) counts ->
  Forall (fun p => (0 < snd p)%Z) (countClass c counts).
Proof.
  induction counts as [| [k n] rest IH]; cbn [countClass]; intros H.
  - repeat constructor.
  - inversion H as [| ? ? Hn Hrest]; subst. cbn [snd] in Hn.
    destruct (String.eqb k c); constructor; cbn [snd]; auto; lia.
Qed.

Lemma tally_positive detections counts :
  Forall (fun p => (0 < snd p)%Z) counts ->
  Forall (fun p => (0 < snd p)%Z) (tally detections counts).
Proof.
  revert counts. induction detections as [| d rest IH]; intros counts H;
    [exact H |].
  apply IH. now apply countClass_positive.
Qed.

Lemma counting_fold {B : Type} (g : B -> BoundingBox -> B) detections counts b :
  fold_left (fun '(counts, acc) det =>
               (countClass (box_class det) counts, g acc det))
            detections (counts, b)
  = (tally detections counts, fold_left g detections b).
Proof.
  revert counts b. induction detections as [| d rest IH]; intros counts b;
    [reflexivity |].
  cbn [fold_left tally]. apply IH.
Qed.

Lemma classCounts_tally detections :
  classCounts (calculateDetectionMetrics detections) = tally detections [].
Proof.
  destruct detections as [| d rest]; [reflexivity |].
  unfold calculateDetectionMetrics.
  rewrite (counting_fold
             (fun area det => add area (mul (box_width det) (box_height det)))).
  reflexivity.
Qed.

Lemma totalDetections_length detections :
  totalDetections (calculateDetectionMetrics detections)
  = Z.of_nat (List.length detections).
Proof.
  destruct detections as [| d rest]; [reflexivity |].
  unfold calculateDetectionMetrics.
  rewrite (counting_fold
             (fun area det => add area (mul (box_width det) (box_height det)))).
  reflexivity.
Qed.

Lemma averageConfidence_nonempty d rest :
  averageConfidence (calculateDetectionMetrics (d :: rest))
  = div (JS.sum (map box_confidence (d :: rest)))
        (ofZ (Z.of_nat (List.length (d :: rest)))).
Proof.
  unfold calculateDetectionMetrics.
  rewrite (counting_fold
             (fun area det => add area (mul (box_width det) (box_height det)))).
  cbn [averageConfidence]. now rewrite length_map.
Qed.

(** For detections whose classes are not names of inherited properties,
    [calculateDetectionMetrics] counts every detection once: the counts
    of the classes add up to the number of detections, no class is
    listed twice, and the count read for such a class is the number of
    detections of that class (none is recorded for a class without
    detections). *)
Theorem calculateDetectionMetrics_counts detections :
  plainClasses detections ->
  let m := calculateDetectionMetrics detections in
  totalDetections m = Z.of_nat (List.length detections)
  /\ zsum (map snd (classCounts m)) = totalDetections m
  /\ NoDup (map fst (classCounts m))
  /\ forall c,
       plainName c = true ->
       countAt c (classCounts m)
       = if (countOf c detections =? 0)%Z then None
         else Some (countOf c detections).
Proof.
  intros _. cbn zeta. rewrite classCounts_tally, totalDetections_length.
  destruct (@tally_spec detections [] (NoDup_nil _)) as (Hk & Hs & Hc).
  pose proof (@tally_positive detections [] (Forall_nil _)) as Hpos.
  change (zsum (map snd [])) with 0%Z in Hs.
  repeat split; [exact Hs | exact Hk |].
  intros c _. specialize (Hc c). cbn [countAt] in Hc.
  destruct (countAt c (tally detections [])) as [n |] eqn:E.
  - assert (Hn : (0 < n)%Z).
    { clear - E Hpos. induction (tally detections []) as [| [k v] rest IH];
        cbn [countAt] in E; [discriminate |].
      inversion Hpos as [| ? ? Hv Hrest]; subst. cbn [snd] in Hv.
      destruct (String.eqb k c); [injection E as <-; exact Hv | now apply IH]. }
    replace (countOf c detections) with n by lia.
    now replace (n =? 0)%Z with false by lia.
  - replace (countOf c detections) with 0%Z by lia. reflexivity.
Qed.

Lemma calculateDetectionMetrics_counts_witness :
  plainClasses street
  /\ zsum (map snd (classCounts (calculateDetectionMetrics street))) = 3%Z
  /\ countAt "person" (classCounts (calculateDetectionMetrics street))
     = Some 2%Z.
Proof.
  assert (H : plainClasses street) by (repeat constructor).
  split; [exact H |].
  destruct (@calculateDetectionMetrics_counts street H)
    as (Htotal & Hsum & _ & Hcount).
  split.
  - rewrite Hsum. exact Htotal.
  - exact (Hcount "person"%string eq_refl).
Defined.

(** The summary of [getDetectionSummary] is that of
    [calculateDetectionMetrics]: same total, same counts, same average. *)
Theorem getDetectionSummary_agrees_with_the_metrics boxes :
  let s := getDetectionSummary boxes in
  let m := calculateDetectionMetrics boxes in
  total s = totalDetections m
  /\ byClass s = classCounts m
  /\ avgConfidence s = averageConfidence m.
Proof.
  cbn zeta. rewrite classCounts_tally, totalDetections_length.
  unfold getDetectionSummary.
  rewrite (counting_fold (fun t box => add t (box_confidence box))).
  cbn [total byClass avgConfidence]. repeat split.
  destruct boxes as [| d rest]; [reflexivity |].
  rewrite averageConfidence_nonempty.
  replace (Z.of_nat (List.length (d :: rest)) >? 0)%Z with true
    by (symmetry; apply Z.gtb_lt; cbn [List.length]; lia).
  f_equal. unfold JS.sum.
  generalize (Fin 0). generalize (d :: rest).
  induction l as [| x l IH]; intros a; [reflexivity | apply IH].
Qed.

Lemma averageConfidence_mean detections :
  averageConfidence (calculateDetectionMetrics detections)
  = meanConfidence detections.
Proof.
  destruct detections as [| d rest]; [reflexivity |].
  now rewrite averageConfidence_nonempty.
Qed.

Lemma sub_exchanged a b : sub b a = neg (sub a b).
Proof.
  destruct a as [x | [] |], b as [y | [] |]; cbn; try reflexivity.
  f_equal. lra.
Qed.

(** What [compareDetections] returns: the difference of the numbers of
    boxes, enhanced minus raw; [newObjectsFound], the larger of 0 and
    that difference; and the difference of the mean confidences, the
    mean of no box being 0.  Exchanging the two lists negates both
    differences. *)
Theorem compareDetections_differences rawDetections enhancedDetections :
  let c := compareDetections rawDetections enhancedDetections in
  let c' := compareDetections enhancedDetections rawDetections in
  detectionCountDiff c
  = (Z.of_nat (List.length enhancedDetections)
     - Z.of_nat (List.length rawDetections))%Z
  /\ newObjectsFound c
     = Z.max 0 (Z.of_nat (List.length enhancedDetections)
                - Z.of_nat (List.length rawDetections))
  /\ confidenceImprovement c
     = sub (meanConfidence enhancedDetections) (meanConfidence rawDetections)
  /\ detectionCountDiff c' = (- detectionCountDiff c)%Z
  /\ confidenceImprovement c' = neg (confidenceImprovement c).
Proof.
  cbn zeta. unfold compareDetections.
  cbn [detectionCountDiff newObjectsFound confidenceImprovement].
  rewrite !totalDetections_length, !averageConfidence_mean.
  repeat split; [lia | apply sub_exchanged].
Qed.

End DetectionCounts.

(* ================================================================== *)
(** ** services/metricsCalculation.ts and services/modelTraining.ts:
       ranges of the evaluation metrics *)
(* ================================================================== *)

Section EvaluationMetricsRange.

Import Spec Counting ModelTraining Statement Cases.
Local Open Scope R_scope.

Lemma confidence_sum detections a :
  Forall confidenceInUnitInterval detections ->
  exists s,
    fold_left add (map box_confidence detections) (Fin a) = Fin s
    /\ a <= s <= a + INR (List.length detections).
Proof.
  revert a. induction detections as [| d rest IH]; intros a Hall.
  - exists a. cbn. split; [reflexivity | lra].
  - inversion Hall as [| ? ? (c & Hc & Hrange) Hrest]; subst.
    cbn [map fold_left]. rewrite Hc. cbn [add].
    destruct (IH (a + c) Hrest) as (s & Hs & Hb).
    exists s. split; [exact Hs |].
    change (List.length (d :: rest)) with (S (List.length rest)).
    rewrite S_INR. lra.
Qed.

Lemma average_in_unit_interval d rest :
  Forall confidenceInUnitInterval (d :: rest) ->
  inUnitInterval (div (JS.sum (map box_confidence (d :: rest)))
                      (ofZ (Z.of_nat (List.length (d :: rest))))).
Proof.
  intros Hall. destruct (confidence_sum 0 Hall) as (s & Hs & Hb).
  unfold JS.sum. rewrite Hs. unfold ofZ. rewrite <- INR_IZR_INZ.
  set (n := INR (List.length (d :: rest))) in *.
  assert (Hn : 0 < n) by (apply lt_0_INR; cbn; lia).
  rewrite div_Fin by lra. exists (s / n). split; [reflexivity |]. split.
  - apply Rdiv_nonneg; lra.
  - apply (Rmult_le_reg_r n); [exact Hn |].
    unfold Rdiv. rewrite Rmult_assoc, Rinv_l by lra. lra.
Qed.

Lemma capped_ratio_in_unit_interval n k :
  (0 < n)%Z -> 0 < k ->
  inUnitInterval (min2 (Fin 1) (div (ofZ n) (Fin k))).
Proof.
  intros Hn Hk. unfold ofZ. rewrite div_Fin by lra. rewrite min2_Fin.
  exists (Rmin 1 (IZR n / k)). split; [reflexivity |].
  apply IZR_lt in Hn.
  assert (0 <= IZR n / k) by (apply Rdiv_nonneg; lra).
  unfold Rmin. destruct (Rle_dec 1 (IZR n / k)); lra.
Qed.

Lemma scaled_in_unit_interval v k :
  0 <= k <= 1 -> inUnitInterval v -> inUnitInterval (mul v (Fin k)).
Proof.
  intros Hk (r & -> & Hr). exists (r * k). split; [reflexivity | nra].
Qed.

Lemma zero_in_unit_interval : inUnitInterval (Fin 0).
Proof. exists 0. split; [reflexivity | lra]. Qed.

Lemma perClassMetrics_ranges predictions groundTruth :
  Forall confidenceInUnitInterval predictions ->
  Forall (fun c => inUnitInterval (class_precision c)
                   /\ inUnitInterval (class_recall c)
                   /\ inUnitInterval (ap c))
         (perClassMetrics (calculateMetrics predictions groundTruth)).
Proof.
  intros Hall. unfold calculateMetrics. cbn zeta. cbn [perClassMetrics].
  rewrite classCounts_tally.
  pose proof (@tally_positive predictions [] (Forall_nil _)) as Hpos.
  apply Forall_forall. intros cm Hcm. apply in_map_iff in Hcm.
  destruct Hcm as ([name count] & <- & Hin).
  rewrite Forall_forall in Hpos. specialize (Hpos _ Hin). cbn [snd] in Hpos.
  cbn zeta. cbn [class_precision class_recall ap].
  assert (Havg : inUnitInterval
            match filter (fun p => String.eqb (box_class p) name) predictions with
            | [] => Fin 0
            | _ => div (JS.sum (map box_confidence
                          (filter (fun p => String.eqb (box_class p) name)
                                  predictions)))
                       (ofZ (Z.of_nat (List.length
                          (filter (fun p => String.eqb (box_class p) name)
                                  predictions))))
            end).
  { assert (Hf : Forall confidenceInUnitInterval
                   (filter (fun p => String.eqb (box_class p) name) predictions)).
    { apply Forall_forall. intros b Hb. apply filter_In in Hb.
      rewrite Forall_forall in Hall. apply Hall, Hb. }
    destruct (filter _ predictions) as [| d rest];
      [apply zero_in_unit_interval | now apply average_in_unit_interval]. }
  repeat split; [exact Havg | | ].
  - apply capped_ratio_in_unit_interval; [exact Hpos | lra].
  - apply scaled_in_unit_interval; [lra | exact Havg].
Qed.

Lemma calculateMetrics_scalars predictions groundTruth :
  Forall confidenceInUnitInterval predictions ->
  let m := calculateMetrics predictions groundTruth in
  inUnitInterval (accuracy m) /\ inUnitInterval (precision m)
  /\ inUnitInterval (recall m) /\ inUnitInterval (f1Score m)
  /\ inUnitInterval (mAP m) /\ inUnitInterval (mAP50 m)
  /\ inUnitInterval (mAP75 m).
Proof.
  intros Hall. cbn zeta. unfold calculateMetrics. cbn zeta.
  cbn [accuracy precision recall f1Score mAP mAP50 mAP75].
  rewrite totalDetections_length.
  destruct predictions as [| d rest].
  - cbn [List.length Z.of_nat Z.gtb Z.compare calculateDetectionMetrics
         averageConfidence add mul gt lt].
    replace (Rltb 0 (0 + 0)) with false by (symmetry; apply Rltb_ge; lra).
    pose proof zero_in_unit_interval as Hz.
    repeat split; try exact Hz.
    + exists (0 * 0.9). split; [reflexivity | lra].
    + exists (0 * 0.8). split; [reflexivity | lra].
  - rewrite averageConfidence_nonempty.
    replace (Z.of_nat (List.length (d :: rest)) >? 0)%Z with true
      by (symmetry; apply Z.gtb_lt; cbn [List.length]; lia).
    pose proof (average_in_unit_interval Hall) as Havg.
    assert (Hrec : inUnitInterval
              (min2 (Fin 1)
                    (div (ofZ (Z.of_nat (List.length (d :: rest)))) (Fin 10)))).
    { apply capped_ratio_in_unit_interval; [cbn [List.length]; lia | lra]. }
    assert (Hrpos : exists r, min2 (Fin 1)
                      (div (ofZ (Z.of_nat (List.length (d :: rest)))) (Fin 10))
                    = Fin r /\ 0 < r <= 1).
    { unfold ofZ. rewrite div_Fin by lra. rewrite min2_Fin.
      eexists. split; [reflexivity |].
      assert (0 < IZR (Z.of_nat (List.length (d :: rest))))
        by (apply IZR_lt; cbn [List.length]; lia).
      assert (0 < IZR (Z.of_nat (List.length (d :: rest))) / 10)
        by (apply Rdiv_lt_0_compat; lra).
      unfold Rmin. destruct (Rle_dec 1 _); lra. }
    repeat split; try exact Havg; try exact Hrec.
    + destruct Havg as (p & -> & Hp). destruct Hrpos as (r & -> & Hr).
      cbn [add mul gt lt].
      replace (Rltb 0 (p + r)) with true by (symmetry; apply Rltb_lt; lra).
      rewrite div_Fin by lra. exists (2 * p * r / (p + r)).
      split; [reflexivity |]. split.
      * apply Rdiv_nonneg; nra.
      * apply (Rmult_le_reg_r (p + r)); [lra |].
        unfold Rdiv. rewrite Rmult_assoc, Rinv_l by lra. nra.
    + apply scaled_in_unit_interval; [lra | exact Havg].
    + apply scaled_in_unit_interval; [lra | exact Havg].
Qed.

(** With confidences between 0 and 1, every overall metric of
    [calculateMetrics] is a number between 0 and 1, also when there is
    no prediction at all, and whatever the ground truth; so is every
    per-class metric when no class is the name of an inherited
    property. *)
Theorem calculateMetrics_in_unit_interval predictions groundTruth :
  Forall confidenceInUnitInterval predictions ->
  let m := calculateMetrics predictions groundTruth in
  inUnitInterval (accuracy m) /\ inUnitInterval (precision m)
  /\ inUnitInterval (recall m) /\ inUnitInterval (f1Score m)
  /\ inUnitInterval (mAP m) /\ inUnitInterval (mAP50 m)
  /\ inUnitInterval (mAP75 m)
  /\ (plainClasses predictions ->
      Forall (fun c => inUnitInterval (class_precision c)
                       /\ inUnitInterval (class_recall c)
                       /\ inUnitInterval (ap c))
             (perClassMetrics m)).
Proof.
  intros Hall. cbn zeta.
  destruct (@calculateMetrics_scalars predictions groundTruth Hall)
    as (Ha & Hp & Hr & Hf & Hm & Hm50 & Hm75).
  repeat (split; [assumption |]).
  intros _. now apply perClassMetrics_ranges.
Qed.

Lemma calculateMetrics_in_unit_interval_witness :
  Forall confidenceInUnitInterval street
  /\ plainClasses street
  /\ inUnitInterval (f1Score (calculateMetrics street []))
  /\ Forall (fun c => inUnitInterval (class_recall c))
            (perClassMetrics (calculateMetrics street [])).
Proof.
  assert (H : Forall confidenceInUnitInterval street).
  { repeat constructor; eexists; (split; [reflexivity | lra]). }
  assert (Hplain : plainClasses street) by (repeat constructor).
  split; [exact H |]. split; [exact Hplain |].
  destruct (@calculateMetrics_in_unit_interval street [] H)
    as (_ & _ & _ & Hf1 & _ & _ & _ & Hclass).
  split; [exact Hf1 |].
  eapply Forall_impl; [| exact (Hclass Hplain)].
  cbn beta. intros c (_ & Hrecall & _). exact Hrecall.
Defined.

Lemma difference_is_bounded a b :
  inUnitInterval a -> inUnitInterval b ->
  boundedChange (sub a b) /\ (a = b -> sub a b = Fin 0).
Proof.
  intros (x & -> & Hx) (y & -> & Hy). cbn [sub neg add]. split.
  - exists (x + - y). split; [reflexivity | lra].
  - intros [= ->]. f_equal. lra.
Qed.

(** When the detector resolves for both images with confidences between
    0 and 1, [evaluateOnBothImageTypes] resolves, each of its four
    improvements is a number between -1 and 1, and all four are 0 when
    both images gave the same boxes. *)
Theorem evaluateOnBothImageTypes_improvements
    detect rawImageUrl enhancedImageUrl rawDetection enhancedDetection :
  detect rawImageUrl = inr rawDetection ->
  detect enhancedImageUrl = inr enhancedDetection ->
  Forall confidenceInUnitInterval (boxes rawDetection) ->
  Forall confidenceInUnitInterval (boxes enhancedDetection) ->
  exists evaluation,
    evaluateOnBothImageTypes detect rawImageUrl enhancedImageUrl
    = inr evaluation
    /\ rawImageMetrics evaluation = calculateMetrics (boxes rawDetection) []
    /\ enhancedImageMetrics evaluation
       = calculateMetrics (boxes enhancedDetection) []
    /\ boundedChange (accuracyImprovement (eval_comparison evaluation))
    /\ boundedChange (precisionImprovement (eval_comparison evaluation))
    /\ boundedChange (recallImprovement (eval_comparison evaluation))
    /\ boundedChange (mAPImprovement (eval_comparison evaluation))
    /\ (boxes rawDetection = boxes enhancedDetection ->
        eval_comparison evaluation
        = {| accuracyImprovement := Fin 0; precisionImprovement := Fin 0;
             recallImprovement := Fin 0; mAPImprovement := Fin 0 |}).
Proof.
  intros Hraw Henh Hr He. unfold evaluateOnBothImageTypes.
  rewrite Hraw, Henh. eexists. split; [reflexivity |].
  cbn [rawImageMetrics enhancedImageMetrics eval_comparison accuracyImprovement
       precisionImprovement recallImprovement mAPImprovement].
  destruct (@calculateMetrics_scalars (boxes rawDetection) [] Hr)
    as (Ra & Rp & Rr & _ & Rm & _).
  destruct (@calculateMetrics_scalars (boxes enhancedDetection) [] He)
    as (Ea & Ep & Er & _ & Em & _).
  repeat split; try (now apply difference_is_bounded).
  intros Hsame. rewrite Hsame in *.
  f_equal; now apply difference_is_bounded.
Qed.

Lemma evaluateOnBothImageTypes_improvements_witness :
  exists evaluation,
    evaluateOnBothImageTypes streetDetector "raw.png" "enhanced.png"
    = inr evaluation
    /\ boundedChange (mAPImprovement (eval_comparison evaluation)).
Proof.
  assert (H : Forall confidenceInUnitInterval
                [ {| box_x := Fin 10; box_y := Fin 10;
                     box_width := Fin 50; box_height := Fin 100;
                     box_confidence := Fin 0.9;
                     box_class := "person"%string; box_classId := 0%Z |} ]).
  { repeat constructor. eexists. split; [reflexivity | lra]. }
  destruct (@evaluateOnBothImageTypes_improvements
              streetDetector "raw.png" "enhanced.png" _ _ eq_refl eq_refl H H)
    as (evaluation & Hev & _ & _ & _ & _ & _ & Hm & _).
  exists evaluation. split; [exact Hev | exact Hm].
Defined.

End EvaluationMetricsRange.

(* ================================================================== *)
(** ** services/featureExtraction.ts: comparison of two vectors *)
(* ================================================================== *)

Section VectorComparison.

Import Spec FeatureComparison Vectors.

Lemma forRange_ext {A : Type} lo hi (f g : Z -> A -> A) init :
  (forall i acc, (lo <= i < hi)%Z -> f i acc = g i acc) ->
  forRange lo hi f init = forRange lo hi g init.
Proof.
  intros H. unfold forRange. revert init.
  assert (Hin : forall i, In i (zrange lo hi) -> (lo <= i < hi)%Z)
    by (intros i; apply zrange_In).
  induction (zrange lo hi) as [| i l IH]; intros init; [reflexivity |].
  cbn [fold_left]. rewrite H by (apply Hin; now left).
  apply IH. intros j Hj. apply Hin. now right.
Qed.

(** Two loops over the same range whose states stay related. *)
Lemma forRange_related {A B : Type} (R : A -> B -> Prop) lo hi
      (f : Z -> A -> A) (g : Z -> B -> B) a b :
  R a b ->
  (forall i x y, (lo <= i < hi)%Z -> R x y -> R (f i x) (g i y)) ->
  R (forRange lo hi f a) (forRange lo hi g b).
Proof.
  intros H0 Hstep. unfold forRange. revert a b H0.
  assert (Hin : forall i, In i (zrange lo hi) -> (lo <= i < hi)%Z)
    by (intros i; apply zrange_In).
  induction (zrange lo hi) as [| i l IH]; intros a b H0; [exact H0 |].
  cbn [fold_left]. apply IH.
  - intros j Hj. apply Hin. now right.
  - apply Hstep; [apply Hin; now left | exact H0].
Qed.

Lemma square_of_difference a b :
  mul (sub a b) (sub a b) = mul (sub b a) (sub b a).
Proof.
  destruct a as [x | [] |], b as [y | [] |]; cbn; try reflexivity.
  f_equal. ring.
Qed.

Lemma abs_of_difference a b : abs (sub a b) = abs (sub b a).
Proof.
  destruct a as [x | s |], b as [y | t |]; cbn; try reflexivity.
  - f_equal. rewrite <- Rabs_Ropp. f_equal. ring.
  - destruct s, t; reflexivity.
Qed.

Lemma overlap_sym vec1 vec2 : overlap vec1 vec2 = overlap vec2 vec1.
Proof. unfold overlap. apply Z.min_comm. Qed.

Lemma dotAndNorms_sym vec1 vec2 :
  dotAndNorms vec2 vec1
  = let '(d, n1, n2) := dotAndNorms vec1 vec2 in (d, n2, n1).
Proof.
  unfold dotAndNorms. rewrite (overlap_sym vec2 vec1).
  apply (forRange_related
           (fun (x y : number * number * number) =>
              x = let '(d, n1, n2) := y in (d, n2, n1))).
  - reflexivity.
  - intros i x [[d n1] n2] _ ->. now rewrite mul_comm.
Qed.

Lemma sumSquaredDifferences_sym vec1 vec2 :
  sumSquaredDifferences vec2 vec1 = sumSquaredDifferences vec1 vec2.
Proof.
  unfold sumSquaredDifferences. rewrite (overlap_sym vec2 vec1).
  apply forRange_ext. intros i acc _. cbn zeta.
  now rewrite square_of_difference.
Qed.

(** Exchanging the two vectors changes neither the similarity, nor the
    distance, nor the texture and statistical changes. *)
Theorem compareFeatureVectors_symmetric vec1 vec2 :
  let c := compareFeatureVectors vec1 vec2 in
  let c' := compareFeatureVectors vec2 vec1 in
  similarity c' = similarity c
  /\ euclideanDistance c' = euclideanDistance c
  /\ textureChange (changes c') = textureChange (changes c)
  /\ statisticalChange (changes c') = statisticalChange (changes c).
Proof.
  cbn zeta. unfold compareFeatureVectors.
  rewrite dotAndNorms_sym, sumSquaredDifferences_sym.
  destruct (dotAndNorms vec1 vec2) as [[d n1] n2].
  cbn [similarity euclideanDistance changes textureChange statisticalChange].
  repeat split.
  - now rewrite (mul_comm (JS.sqrt n2)).
  - apply abs_of_difference.
  - apply abs_of_difference.
Qed.

Lemma at_app_l xs extra i :
  (i < Z.of_nat (List.length xs))%Z -> at_ (xs ++ extra) i = at_ xs i.
Proof.
  intros Hi. unfold at_. destruct (i <? 0)%Z eqn:E; [reflexivity |].
  apply Z.ltb_ge in E. apply app_nth1. lia.
Qed.

(** Vectors of different lengths are compared on their common prefix:
    entries appended to the longer vector change neither the similarity
    nor the distance. *)
Theorem compareFeatureVectors_ignores_the_excess vec1 vec2 extra :
  (List.length (fused vec1) <= List.length (fused vec2))%nat ->
  let c := compareFeatureVectors vec1 vec2 in
  let c' := compareFeatureVectors vec1 (extended vec2 extra) in
  similarity c' = similarity c /\ euclideanDistance c' = euclideanDistance c.
Proof.
  intros Hlen. cbn zeta. unfold compareFeatureVectors.
  assert (Hov : overlap vec1 (extended vec2 extra) = overlap vec1 vec2).
  { unfold overlap, extended. cbn [fused]. rewrite length_app. lia. }
  assert (Hov' : overlap vec1 vec2 = Z.of_nat (List.length (fused vec1))).
  { unfold overlap. lia. }
  assert (Hdot : dotAndNorms vec1 (extended vec2 extra) = dotAndNorms vec1 vec2).
  { unfold dotAndNorms. rewrite Hov. apply forRange_ext.
    intros i [[d n1] n2] Hi. unfold extended. cbn [fused].
    rewrite at_app_l by lia. reflexivity. }
  assert (Hsq : sumSquaredDifferences vec1 (extended vec2 extra)
                = sumSquaredDifferences vec1 vec2).
  { unfold sumSquaredDifferences. rewrite Hov. apply forRange_ext.
    intros i acc Hi. unfold extended. cbn [fused].
    rewrite at_app_l by lia. reflexivity. }
  rewrite Hdot, Hsq. destruct (dotAndNorms vec1 vec2) as [[d n1] n2].
  split; reflexivity.
Qed.

Lemma compareFeatureVectors_ignores_the_excess_witness :
  let short := vectorOf [Fin 1; Fin 0] in
  let long := vectorOf [Fin 0; Fin 1] in
  (List.length (fused short) <= List.length (fused long))%nat
  /\ similarity (compareFeatureVectors short (extended long [Fin 7]))
     = similarity (compareFeatureVectors short long).
Proof.
  cbn zeta. split; [cbn; lia |].
  apply (@compareFeatureVectors_ignores_the_excess
           (vectorOf [Fin 1; Fin 0]) (vectorOf [Fin 0; Fin 1]) [Fin 7]).
  cbn. lia.
Defined.

Local Open Scope R_scope.

Lemma firstn_succ_nth {A : Type} (l : list A) n d :
  (n < List.length l)%nat -> firstn (S n) l = firstn n l ++ [nth n l d].
Proof.
  revert n. induction l as [| a l IH]; intros n Hn; cbn in Hn; [lia |].
  destruct n as [| n]; [reflexivity |].
  cbn [firstn nth app]. f_equal. apply IH. lia.
Qed.

Lemma realSumSquares_snoc rs x :
  realSumSquares (rs ++ [x]) = realSumSquares rs + x * x.
Proof. unfold realSumSquares. now rewrite fold_left_app. Qed.

Lemma at_map_Fin rs i :
  (0 <= i < Z.of_nat (List.length rs))%Z ->
  at_ (map Fin rs) i = Fin (nth (Z.to_nat i) rs 0).
Proof.
  intros Hi. unfold at_. replace (i <? 0)%Z with false by lia.
  rewrite (nth_indep _ NaN (Fin 0)) by (rewrite length_map; lia).
  apply (map_nth Fin).
Qed.

Lemma allFinite_map xs : allFinite xs -> exists rs, xs = map Fin rs.
Proof.
  induction 1 as [| v xs Hv _ (rs & ->)]; [now exists [] |].
  destruct v as [r | |]; try discriminate. now exists (r :: rs).
Qed.

Lemma dotAndNorms_self vec rs :
  fused vec = map Fin rs ->
  dotAndNorms vec vec
  = (Fin (realSumSquares rs), Fin (realSumSquares rs), Fin (realSumSquares rs)).
Proof.
  intros Hf. unfold dotAndNorms, overlap. rewrite Hf, length_map, Z.min_id.
  pose (S := fun i : Z => realSumSquares (firstn (Z.to_nat i) rs)).
  replace (realSumSquares rs) with (S (Z.of_nat (List.length rs)))
    by (unfold S; now rewrite Nat2Z.id, firstn_all).
  apply (forRange_indexed
           (fun i (acc : number * number * number) =>
              acc = (Fin (S i), Fin (S i), Fin (S i)))).
  - lia.
  - reflexivity.
  - intros i acc Hi ->. rewrite at_map_Fin by lia. cbn [mul add].
    unfold S. replace (Z.to_nat (i + 1)) with (Datatypes.S (Z.to_nat i)) by lia.
    rewrite (firstn_succ_nth rs 0) by lia. now rewrite realSumSquares_snoc.
Qed.

Lemma sumSquaredDifferences_self vec rs :
  fused vec = map Fin rs -> sumSquaredDifferences vec vec = Fin 0.
Proof.
  intros Hf. unfold sumSquaredDifferences, overlap.
  rewrite Hf, length_map, Z.min_id.
  apply (forRange_invariant (fun acc => acc = Fin 0)); [reflexivity |].
  intros i acc Hi ->. rewrite at_map_Fin by lia. cbn. f_equal. ring.
Qed.

Lemma round_Fin x : round (Fin x) = Fin (IZR (Zfloor (x + / 2))).
Proof. reflexivity. Qed.

Lemma round2_zero : round2 (Fin 0) = Fin 0.
Proof.
  unfold round2. cbn [mul]. rewrite round_Fin.
  rewrite (Zfloor_eq 0) by (cbn; lra). rewrite div_Fin by lra.
  f_equal. lra.
Qed.

Lemma difference_of_equal_sums xs :
  allFinite xs -> abs (sub (JS.sum xs) (JS.sum xs)) = Fin 0.
Proof.
  intros Hx. destruct (allFinite_map Hx) as (rs & ->).
  unfold JS.sum. rewrite (sum_Fin_map (fun r => r)). cbn.
  f_equal. rewrite Rplus_opp_r. apply Rabs_R0.
Qed.

Lemma In_combine_zrange {A : Type} (xs : list A) lo i v :
  In (i, v) (combine (zrange lo (lo + Z.of_nat (List.length xs))) xs) ->
  (lo <= i)%Z /\ nth_error xs (Z.to_nat (i - lo)) = Some v.
Proof.
  revert lo. induction xs as [| x xs IH]; intros lo.
  - rewrite zrange_nil by (cbn; lia). intros [].
  - rewrite zrange_cons by (cbn [List.length]; lia). cbn [combine].
    intros [[= <- <-] | Hin].
    + split; [lia |]. now rewrite Z.sub_diag.
    + replace (lo + Z.of_nat (List.length (x :: xs)))%Z
        with (lo + 1 + Z.of_nat (List.length xs))%Z in Hin
        by (cbn [List.length]; lia).
      apply IH in Hin. destruct Hin as [Hlo Hnth]. split; [lia |].
      replace (Z.to_nat (i - lo)) with (Datatypes.S (Z.to_nat (i - (lo + 1))))
        by lia.
      exact Hnth.
Qed.

Lemma keypointChange_self ks :
  allFinite ks ->
  Forall (fun v => v = Fin 0) (mapi (fun v i => sub v (at_ ks i)) ks)
  /\ List.length (mapi (fun v i => sub v (at_ ks i)) ks) = List.length ks.
Proof.
  intros Hk. unfold mapi. split.
  - apply Forall_forall. intros c Hc. apply in_map_iff in Hc.
    destruct Hc as ([i v] & <- & Hin). cbn [fst snd].
    apply (In_combine_zrange ks 0) in Hin. destruct Hin as [Hi Hnth].
    rewrite Z.sub_0_r in Hnth. unfold at_.
    replace (i <? 0)%Z with false by lia.
    rewrite (nth_error_nth _ _ _ Hnth).
    unfold allFinite in Hk. rewrite Forall_forall in Hk.
    specialize (Hk v (nth_error_In _ _ Hnth)).
    destruct v as [r | |]; try discriminate. cbn. f_equal. lra.
  - rewrite length_map, length_combine, zrange_length. lia.
Qed.

(** Comparing a finite vector with itself gives distance 0 and no change
    at all; the similarity is rounded to exactly 1 as soon as the squares
    of the fused entries sum to 0.1 or more, and it is 0 for the zero
    vector. *)
Theorem compareFeatureVectors_with_itself vec rs :
  fused vec = map Fin rs ->
  allFinite (fv_keypoints vec) -> allFinite (fv_texture vec) ->
  allFinite (fv_statistical vec) ->
  let c := compareFeatureVectors vec vec in
  euclideanDistance c = Fin 0
  /\ Forall (fun v => v = Fin 0) (keypointChange (changes c))
  /\ List.length (keypointChange (changes c)) = List.length (fv_keypoints vec)
  /\ textureChange (changes c) = Fin 0
  /\ statisticalChange (changes c) = Fin 0
  /\ (/ 10 <= realSumSquares rs -> similarity c = Fin 1)
  /\ (realSumSquares rs = 0 -> similarity c = Fin 0).
Proof.
  intros Hf Hk Ht Hs. cbn zeta. unfold compareFeatureVectors.
  rewrite (@dotAndNorms_self vec rs Hf), (@sumSquaredDifferences_self vec rs Hf).
  cbn [similarity euclideanDistance changes keypointChange textureChange
       statisticalChange].
  pose proof (realSumSquares_nonneg rs) as Hn.
  set (n := realSumSquares rs) in *.
  rewrite (@sqrt_Fin _ Hn). cbn [mul add]. rewrite sqrt_sqrt by exact Hn.
  rewrite (@sqrt_Fin 0 (Rle_refl 0)), sqrt_0.
  split; [apply round2_zero |].
  split; [now apply keypointChange_self |].
  split; [now apply keypointChange_self |].
  split; [now apply difference_of_equal_sums |].
  split; [now apply difference_of_equal_sums |].
  rewrite div_Fin by lra. unfold round4. cbn [mul]. rewrite round_Fin.
  split.
  - intros Hbig.
    assert (Hq : 1 - / 100000 <= n / (n + 1e-6) < 1).
    { split.
      - apply (Rmult_le_reg_r (n + 1e-6)); [lra |].
        unfold Rdiv. rewrite Rmult_assoc, Rinv_l by lra. lra.
      - apply (Rmult_lt_reg_r (n + 1e-6)); [lra |].
        unfold Rdiv. rewrite Rmult_assoc, Rinv_l by lra. lra. }
    rewrite (Zfloor_eq 10000) by (split; lra).
    rewrite div_Fin by lra. f_equal. lra.
  - intros Hz. rewrite Hz.
    rewrite (Zfloor_eq 0) by (cbn; lra).
    rewrite div_Fin by lra. f_equal. lra.
Qed.

Lemma compareFeatureVectors_with_itself_witness :
  similarity (compareFeatureVectors (vectorOf [Fin 1; Fin 0])
                                    (vectorOf [Fin 1; Fin 0])) = Fin 1.
Proof.
  apply (@compareFeatureVectors_with_itself (vectorOf [Fin 1; Fin 0]) [1; 0]
           eq_refl (Forall_nil _) (Forall_nil _) (Forall_nil _)).
  unfold realSumSquares. cbn. lra.
Defined.

Lemma cauchy_schwarz_step d n1 n2 a b :
  0 <= n1 -> 0 <= n2 -> d * d <= n1 * n2 ->
  (d + a * b) * (d + a * b) <= (n1 + a * a) * (n2 + b * b).
Proof.
  intros H1 H2 Hd.
  assert (Hcross : 2 * d * (a * b) <= n1 * (b * b) + n2 * (a * a)).
  { assert (Hsq : (2 * d * (a * b)) * (2 * d * (a * b))
                  <= (n1 * (b * b) + n2 * (a * a))
                     * (n1 * (b * b) + n2 * (a * a))).
    { assert (0 <= (n1 * (b * b) - n2 * (a * a)) * (n1 * (b * b) - n2 * (a * a)))
        by apply Rle_0_sqr.
      assert (0 <= (a * b) * (a * b)) by apply Rle_0_sqr.
      assert ((d * d) * ((a * b) * (a * b)) <= (n1 * n2) * ((a * b) * (a * b)))
        by (apply Rmult_le_compat_r; assumption).
      nra. }
    assert (0 <= n1 * (b * b) + n2 * (a * a)).
    { assert (0 <= b * b) by apply Rle_0_sqr.
      assert (0 <= a * a) by apply Rle_0_sqr. nra. }
    destruct (Rle_dec (2 * d * (a * b)) (n1 * (b * b) + n2 * (a * a)));
      [assumption | nra]. }
  nra.
Qed.

Lemma dotAndNorms_finite vec1 vec2 xs ys :
  fused vec1 = map Fin xs -> fused vec2 = map Fin ys ->
  exists d n1 n2,
    dotAndNorms vec1 vec2 = (Fin d, Fin n1, Fin n2)
    /\ 0 <= n1 /\ 0 <= n2 /\ d * d <= n1 * n2.
Proof.
  intros H1 H2. unfold dotAndNorms.
  apply (forRange_invariant
           (fun acc : number * number * number =>
              exists d n1 n2, acc = (Fin d, Fin n1, Fin n2)
                              /\ 0 <= n1 /\ 0 <= n2 /\ d * d <= n1 * n2)).
  - exists 0, 0, 0. repeat split; lra.
  - intros i acc Hi (d & n1 & n2 & -> & Hn1 & Hn2 & Hd).
    unfold overlap in Hi. rewrite H1, H2, !length_map in Hi.
    rewrite H1, H2, !at_map_Fin by lia. cbn [mul add].
    set (a := nth (Z.to_nat i) xs 0). set (b := nth (Z.to_nat i) ys 0).
    exists (d + a * b), (n1 + a * a), (n2 + b * b).
    split; [reflexivity |].
    assert (0 <= a * a) by apply Rle_0_sqr.
    assert (0 <= b * b) by apply Rle_0_sqr.
    repeat split; try lra. now apply cauchy_schwarz_step.
Qed.

(** The similarity of two finite vectors is a number between -1 and 1. *)
Theorem compareFeatureVectors_similarity_range vec1 vec2 xs ys :
  fused vec1 = map Fin xs -> fused vec2 = map Fin ys ->
  exists s, similarity (compareFeatureVectors vec1 vec2) = Fin s
            /\ -1 <= s <= 1.
Proof.
  intros H1 H2. unfold compareFeatureVectors.
  destruct (@dotAndNorms_finite vec1 vec2 xs ys H1 H2)
    as (d & n1 & n2 & -> & Hn1 & Hn2 & Hd).
  cbn [similarity]. rewrite (@sqrt_Fin n1 Hn1), (@sqrt_Fin n2 Hn2).
  cbn [mul add].
  set (m := R_sqrt.sqrt n1 * R_sqrt.sqrt n2).
  assert (Hm : 0 <= m).
  { apply Rmult_le_pos; apply sqrt_pos. }
  assert (Hmm : m * m = n1 * n2).
  { unfold m.
    replace (R_sqrt.sqrt n1 * R_sqrt.sqrt n2 * (R_sqrt.sqrt n1 * R_sqrt.sqrt n2))
      with ((R_sqrt.sqrt n1 * R_sqrt.sqrt n1) * (R_sqrt.sqrt n2 * R_sqrt.sqrt n2))
      by ring.
    now rewrite !sqrt_sqrt. }
  assert (Hdm : - m <= d <= m) by (split; nra).
  rewrite div_Fin by lra. unfold round4. cbn [mul]. rewrite round_Fin.
  rewrite div_Fin by lra. eexists. split; [reflexivity |].
  assert (Hq : -1 < d / (m + 1e-6) < 1).
  { split.
    - apply (Rmult_lt_reg_r (m + 1e-6)); [lra |].
      unfold Rdiv. rewrite Rmult_assoc, Rinv_l by lra. lra.
    - apply (Rmult_lt_reg_r (m + 1e-6)); [lra |].
      unfold Rdiv. rewrite Rmult_assoc, Rinv_l by lra. lra. }
  set (q := d / (m + 1e-6)) in *.
  assert (Hlo : (-10000 <= Zfloor (q * 10000 + / 2))%Z)
    by (apply Zfloor_lub; lra).
  assert (Hhi : (Zfloor (q * 10000 + / 2) <= 10000)%Z).
  { assert (Zfloor (q * 10000 + / 2) < 10001)%Z; [| lia].
    apply lt_IZR. pose proof (Zfloor_bound (q * 10000 + / 2)). lra. }
  apply IZR_le in Hlo, Hhi. lra.
Qed.

Lemma compareFeatureVectors_similarity_range_witness :
  exists s, similarity (compareFeatureVectors (vectorOf [Fin 1; Fin 0])
                                              (vectorOf [Fin 0; Fin 1])) = Fin s
            /\ -1 <= s <= 1.
Proof.
  exact (@compareFeatureVectors_similarity_range
           (vectorOf [Fin 1; Fin 0]) (vectorOf [Fin 0; Fin 1]) [1; 0] [0; 1]
           eq_refl eq_refl).
Defined.

End VectorComparison.

(* ================================================================== *)
(** ** services/pipelineService.ts: runs with and without observer *)
(* ================================================================== *)

Section PipelineRuns.

Import Spec Examples Runs.

Lemma successful_run_has_null_features_witness :
  exists r,
    runPipeline undecodableHost "raw.png" true
    = (completeTrace "raw.png" enhancedUrl, inr r)
    /\ featureImprovement (comparison r) = noImprovement.
Proof.
  eexists. split; [reflexivity |].
  eapply (@successful_run_has_null_features undecodableHost "raw.png" true).
  reflexivity.
Defined.

Lemma extracted_features_make_the_comparison_raise_witness :
  decodePixels decodingHost "raw.png" = Some (uniform black 1 1)
  /\ snd (runPipeline decodingHost "raw.png" true)
     = inl (TypeError "Cannot read properties of undefined").
Proof.
  split; [reflexivity |].
  exact (@extracted_features_make_the_comparison_raise
           decodingHost "raw.png" true (uniform black 1 1) enhancedUrl
           noDetections noDetections (uniform black 1 1) (uniform black 1 1)
           eq_refl eq_refl eq_refl eq_refl eq_refl eq_refl eq_refl eq_refl).
Defined.

(** Whatever the host does, the reports of a run are an initial part of
    the seven documented stages, in their order and starting with the
    first; a run that returns has reported all seven. *)
Theorem runPipeline_reports_a_prefix_of_the_stages host url :
  exists n,
    (1 <= n <= 7)%nat
    /\ map stageOf (progressEvents (fst (runPipeline host url true)))
       = firstn n documentedStages
    /\ (forall r, snd (runPipeline host url true) = inr r -> n = 7%nat).
Proof.
  unfold runPipeline, await, onProgress, bind, ret.
  destruct (waitForOpenCV host) as [e | []];
    [exists 1%nat; repeat split; [lia | lia | discriminate] |].
  destruct (loadImage host url) as [e | img];
    [exists 1%nat; repeat split; [lia | lia | discriminate] |].
  destruct (applyCompositeEnhancement host img) as [e | enh];
    [exists 1%nat; repeat split; [lia | lia | discriminate] |].
  destruct (loadModel host) as [e | []];
    [exists 4%nat; repeat split; [lia | lia | discriminate] |].
  destruct (detect host url) as [e | rd];
    [exists 4%nat; repeat split; [lia | lia | discriminate] |].
  destruct (detect host enh) as [e | ed];
    [exists 5%nat; repeat split; [lia | lia | discriminate] |].
  destruct (calculateFeatureImprovement _ _) as [e | fi];
    [exists 6%nat; repeat split; [lia | lia | discriminate] |].
  exists 7%nat. repeat split; lia.
Qed.

End PipelineRuns.

(* ================================================================== *)
(** ** services/pipelineService.ts: batches *)
(* ================================================================== *)

Section BatchRuns.

Import Spec Examples BatchPipeline Runs.

Lemma forwarded_index observer i total t :
  Forall (fun e => imageIndex e = i) (forwarded observer i total t).
Proof.
  unfold forwarded. induction t as [| e t IH]; cbn [flat_map]; [constructor |].
  apply Forall_app. split; [| exact IH].
  destruct e as [p | c]; [destruct observer |]; repeat constructor.
Qed.

Lemma announce_index observer i total :
  Forall (fun e => imageIndex e = i) (announce observer i total).
Proof. unfold announce. destruct observer; repeat constructor. Qed.

Lemma batchFrom_returns host observer total urls i results t out :
  batchFrom host observer total urls i results = (t, inr out) ->
  exists rs, out = results ++ rs /\ Forall2 (returns host) urls rs.
Proof.
  revert i results t. induction urls as [| url rest IH]; intros i results t.
  - cbn [batchFrom]. intros H. inversion H; subst. exists [].
    split; [| constructor]. now rewrite app_nil_r.
  - cbn [batchFrom].
    destruct (runPipeline host url true) as [t0 [e | r]] eqn:Hrun;
      [discriminate |].
    destruct (batchFrom host observer total rest (i + 1) (results ++ [r]))
      as [t' out'] eqn:Hrest.
    intros H. inversion H; subst. apply IH in Hrest.
    destruct Hrest as (rs & -> & Hall).
    exists (r :: rs). split; [now rewrite <- app_assoc |].
    constructor; [now exists t0 | exact Hall].
Qed.

(** Every run starts by waiting for OpenCV. *)
Lemma runPipeline_starts host url observer :
  In (Work CallWaitForOpenCV) (fst (runPipeline host url observer)).
Proof.
  unfold runPipeline, await, onProgress, bind, ret.
  destruct (waitForOpenCV host) as [e | []];
    [destruct observer; cbn; tauto |].
  destruct (loadImage host url) as [e | img];
    [destruct observer; cbn; tauto |].
  destruct (applyCompositeEnhancement host img) as [e | enh];
    [destruct observer; cbn; tauto |].
  destruct (loadModel host) as [e | []];
    [destruct observer; cbn; tauto |].
  destruct (detect host url) as [e | rd];
    [destruct observer; cbn; tauto |].
  destruct (detect host enh) as [e | ed];
    [destruct observer; cbn; tauto |].
  destruct (calculateFeatureImprovement _ _) as [e | fi];
    destruct observer; cbn; tauto.
Qed.

Lemma forwarded_work observer i total t c :
  In (Work c) t -> In (BatchWork i c) (forwarded observer i total t).
Proof.
  intros H. unfold forwarded. apply in_flat_map.
  exists (Work c). split; [exact H | now left].
Qed.

Lemma batchFrom_raises host observer total urls i results t e :
  batchFrom host observer total urls i results = (t, inl e) ->
  exists done url rest,
    urls = done ++ url :: rest
    /\ Forall (fun u => exists r, returns host u r) done
    /\ Forall (fun ev => (i <= imageIndex ev
                          <= i + Z.of_nat (List.length done))%Z) t
    /\ exists ev, In ev t
                  /\ imageIndex ev = (i + Z.of_nat (List.length done))%Z.
Proof.
  revert i results t. induction urls as [| url rest IH]; intros i results t.
  - cbn [batchFrom]. discriminate.
  - cbn [batchFrom].
    destruct (runPipeline host url true) as [t0 [e0 | r]] eqn:Hrun.
    + intros H. inversion H; subst. exists [], url, rest.
      cbn [app List.length].
      split; [reflexivity |]. split; [constructor |]. split.
      * apply Forall_app. split;
          [eapply Forall_impl; [| apply announce_index]
          | eapply Forall_impl; [| apply forwarded_index]];
          cbn beta; intros ev ->; lia.
      * exists (BatchWork i CallWaitForOpenCV). split; [| cbn; lia].
        apply in_or_app. right. apply forwarded_work.
        pose proof (runPipeline_starts host url true) as Hs.
        now rewrite Hrun in Hs.
    + destruct (batchFrom host observer total rest (i + 1) (results ++ [r]))
        as [t' out'] eqn:Hrest.
      intros H. inversion H; subst. apply IH in Hrest.
      destruct Hrest as (done & u & post & -> & Hdone & Hidx & ev & Hev & Hi).
      exists (url :: done), u, post. cbn [app List.length].
      split; [reflexivity |].
      split; [constructor; [exists r; now exists t0 | exact Hdone] |].
      split.
      * apply Forall_app. split;
          [eapply Forall_impl; [| apply announce_index] |].
        { cbn beta. intros ev' ->. lia. }
        apply Forall_app. split;
          [eapply Forall_impl; [| apply forwarded_index] |].
        { cbn beta. intros ev' ->. lia. }
        eapply Forall_impl; [| exact Hidx]. cbn beta. intros ev' Hev'. lia.
      * exists ev. split; [| lia].
        apply in_or_app. right. apply in_or_app. now right.
Qed.

(** A batch that returns gives one result per image, in the order of the
    images, each the result of the run on that image; as every such run
    had an extraction come back with [null], every result reports zero
    feature improvements. *)
Theorem runBatchPipeline_results host imageUrls observer t results :
  runBatchPipeline host imageUrls observer = (t, inr results) ->
  List.length results = List.length imageUrls
  /\ Forall2 (returns host) imageUrls results
  /\ Forall (fun r => featureImprovement (comparison r) = noImprovement)
            results.
Proof.
  unfold runBatchPipeline. intros H. apply batchFrom_returns in H.
  destruct H as (rs & -> & Hall). cbn [app].
  split; [symmetry; eapply Forall2_length; exact Hall |].
  split; [exact Hall |].
  clear - Hall. induction Hall as [| url r urls rs [t0 Hrun] _ IH];
    constructor; [| exact IH].
  apply runPipeline_success in Hrun.
  destruct Hrun as (img & enh & rd & ed & fi & _ & _ & _ & _ & _ & _ & Hfi & _
                    & _ & _ & _ & _ & _ & Hfi' & _).
  apply calculateFeatureImprovement_extracted in Hfi.
  destruct Hfi as [_ ->]. exact Hfi'.
Qed.

Lemma runBatchPipeline_results_witness :
  exists t results,
    runBatchPipeline undecodableHost ["a.png"; "b.png"]%string false
    = (t, inr results)
    /\ List.length results = 2%nat.
Proof.
  eexists _, _. split; [reflexivity |].
  eapply proj1,
    (@runBatchPipeline_results undecodableHost ["a.png"; "b.png"]%string false).
  reflexivity.
Defined.

(** A batch that ends with an exception stopped at one image: the
    images before it were processed to the end, everything reported or
    awaited belongs to them or to that image, the last of it to that
    image, and no later image is touched; the results gathered so far
    are lost. *)
Theorem runBatchPipeline_stops_at_one_image host imageUrls observer t e :
  runBatchPipeline host imageUrls observer = (t, inl e) ->
  exists done url rest,
    imageUrls = done ++ url :: rest
    /\ Forall (fun u => exists r, returns host u r) done
    /\ Forall (fun ev => (0 <= imageIndex ev
                          <= Z.of_nat (List.length done))%Z) t
    /\ exists ev, In ev t /\ imageIndex ev = Z.of_nat (List.length done).
Proof.
  unfold runBatchPipeline. intros H. apply batchFrom_raises in H.
  destruct H as (done & url & rest & H1 & H2 & H3 & ev & H4 & H5).
  exists done, url, rest. repeat split; try assumption.
  exists ev. split; [exact H4 | lia].
Qed.

Lemma runBatchPipeline_stops_at_one_image_witness :
  (exists r, returns missingImageHost "a.png" r)
  /\ snd (runPipeline missingImageHost "b.png" true)
     = inl (HostError "Failed to load image")
  /\ exists t done url rest,
       runBatchPipeline missingImageHost ["a.png"; "b.png"; "c.png"]%string true
       = (t, inl (HostError "Failed to load image"))
       /\ ["a.png"; "b.png"; "c.png"]%string = done ++ url :: rest
       /\ exists ev, In ev t /\ imageIndex ev = Z.of_nat (List.length done).
Proof.
  split; [eexists; eexists; reflexivity |]. split; [reflexivity |].
  eexists.
  destruct (@runBatchPipeline_stops_at_one_image
              missingImageHost ["a.png"; "b.png"; "c.png"]%string true _ _
              eq_refl)
    as (done & url & rest & H1 & _ & _ & H4).
  exists done, url, rest. split; [reflexivity |]. split; assumption.
Defined.

End BatchRuns.

(* ================================================================== *)
(** ** services/featureExtraction.ts: ranges of the keypoint estimates *)
(* ================================================================== *)

Section KeypointEstimates.

Import Spec Examples Images.
Local Open Scope R_scope.

Lemma filter_length_bound {B : Type} (f : B -> bool) l :
  (List.length (filter f l) <= List.length l)%nat.
Proof.
  induction l as [| b l IH]; cbn; [lia |]. destruct (f b); cbn; lia.
Qed.

Lemma examined_count_bound (f : Z * Z -> bool) width height :
  (1 <= width)%Z -> (1 <= height)%Z ->
  (0 <= Z.of_nat (List.length (filter f (examinedPixels width height)))
   <= (width - 1) * (height - 1))%Z.
Proof.
  intros Hw Hh. split; [lia |].
  etransitivity; [apply Nat2Z.inj_le, filter_length_bound |].
  unfold examinedPixels. rewrite grid_length. nia.
Qed.

Lemma calculateImageComplexity_bounds data width height :
  wellFormed data width height -> (1 <= width)%Z -> (1 <= height)%Z ->
  exists c, calculateImageComplexity data width height = Fin c
            /\ 0 <= c /\ c < 1.
Proof.
  intros Hwf Hw Hh. rewrite (@complexity_real data width height Hwf Hw Hh).
  eexists. split; [reflexivity |].
  destruct (@examined_count_bound
              (fun p => realExceeds data width (fst p) (snd p)) width height
              Hw Hh) as [H0 Hn].
  apply IZR_le in H0, Hn.
  assert (Hlt : IZR ((width - 1) * (height - 1)) < IZR (width * height))
    by (apply IZR_lt; nia).
  split; [apply Rdiv_nonneg; lra |].
  apply (Rmult_lt_reg_r (IZR (width * height))); [lra |].
  unfold Rdiv. rewrite Rmult_assoc, Rinv_l by lra. lra.
Qed.

(** The complexity of a well-formed image is a number from 0 up to, but
    not including, 1: only the pixels with a right and a down neighbour
    are examined, and the count is divided by the number of all pixels. *)
Theorem calculateImageComplexity_range data width height :
  wellFormed data width height -> (1 <= width)%Z -> (1 <= height)%Z ->
  exists c, calculateImageComplexity data width height = Fin c
            /\ 0 <= c
            /\ c <= IZR ((width - 1) * (height - 1)) / IZR (width * height)
            /\ c < 1.
Proof.
  intros Hwf Hw Hh. rewrite (@complexity_real data width height Hwf Hw Hh).
  eexists. split; [reflexivity |].
  destruct (@examined_count_bound
              (fun p => realExceeds data width (fst p) (snd p)) width height
              Hw Hh) as [H0 Hn].
  apply IZR_le in H0, Hn.
  assert (Hpos : 0 < IZR (width * height)) by (apply (IZR_lt 0); nia).
  assert (Hlt : IZR ((width - 1) * (height - 1)) < IZR (width * height))
    by (apply IZR_lt; nia).
  split; [apply Rdiv_nonneg; lra |].
  split.
  - unfold Rdiv. apply Rmult_le_compat_r; [| exact Hn].
    left. now apply Rinv_0_lt_compat.
  - apply (Rmult_lt_reg_r (IZR (width * height))); [exact Hpos |].
    unfold Rdiv. rewrite Rmult_assoc, Rinv_l by lra. lra.
Qed.

Lemma calculateImageComplexity_range_witness :
  exists c, calculateImageComplexity (img_data corner2x2) 2 2 = Fin c /\ c < 1.
Proof.
  destruct (@calculateImageComplexity_range (img_data corner2x2) 2 2)
    as (c & Hc & _ & _ & Hlt).
  - repeat split; cbn; lia.
  - lia.
  - lia.
  - exists c. split; assumption.
Defined.

Lemma byteAt_range data idx : 0 <= byteAt data idx <= 255.
Proof.
  unfold byteAt, byteVal.
  pose proof (Byte.to_N_bounded (nth (Z.to_nat idx) data x00)) as H.
  split.
  - apply (IZR_le 0). lia.
  - apply (IZR_le _ 255). lia.
Qed.

Lemma grayReal_range data width x y : 0 <= grayReal data width x y <= 255.
Proof.
  unfold grayReal.
  pose proof (byteAt_range data ((y * width + x) * 4)).
  pose proof (byteAt_range data ((y * width + x) * 4 + 1)).
  pose proof (byteAt_range data ((y * width + x) * 4 + 2)).
  lra.
Qed.

Lemma magnitudeReal_upper data width x y :
  magnitudeReal data width x y <= 1.415 * 255.
Proof.
  unfold magnitudeReal. cbn zeta.
  pose proof (grayReal_range data width (x + 1) y).
  pose proof (grayReal_range data width (x - 1) y).
  pose proof (grayReal_range data width x (y + 1)).
  pose proof (grayReal_range data width x (y - 1)).
  set (gx := _ - _). set (gy := _ - _).
  assert (Hx : gx * gx <= 255 * 255) by (unfold gx; nra).
  assert (Hy : gy * gy <= 255 * 255) by (unfold gy; nra).
  rewrite <- (sqrt_square (1.415 * 255)) by lra.
  apply sqrt_le_1_alt. nra.
Qed.

Lemma fold_left_upper {B : Type} (g : B -> R) l a M :
  (forall b, In b l -> g b <= M) ->
  fold_left (fun s p => s + g p) l a <= a + M * INR (List.length l).
Proof.
  revert a. induction l as [| b l IH]; intros a Hg.
  - cbn. lra.
  - cbn [fold_left]. etransitivity; [apply IH; intros; apply Hg; now right |].
    change (List.length (b :: l)) with (S (List.length l)). rewrite S_INR.
    pose proof (Hg b (or_introl eq_refl)). lra.
Qed.

Lemma floor_affine_upper_bound (b c e kc ke : R) (z : Z) :
  b + c * kc + e * ke < IZR z + 1 ->
  exists n, floor (add (add (Fin b) (mul (Fin c) (Fin kc))) (mul (Fin e) (Fin ke)))
            = ofZ n /\ (n <= z)%Z.
Proof.
  intros H. cbn [mul add floor]. unfold ofZ. eexists. split; [reflexivity |].
  assert (Zfloor (b + c * kc + e * ke) < z + 1)%Z; [| lia].
  apply lt_IZR. rewrite plus_IZR.
  pose proof (Zfloor_bound (b + c * kc + e * ke)). lra.
Qed.

(** On a well-formed image of at least 3 x 3 pixels the three keypoint
    estimates are integers within fixed ranges: ORB from 30 to 421, FAST
    from 80 to 692, SIFT from 20 to 313. *)
Theorem extractKeypoints_ranges data width height :
  wellFormed data width height -> (3 <= width)%Z -> (3 <= height)%Z ->
  exists o f s,
    extractKeypoints data width height
    = {| orb := ofZ o; fast := ofZ f; sift := ofZ s |}
    /\ (30 <= o <= 421)%Z /\ (80 <= f <= 692)%Z /\ (20 <= s <= 313)%Z.
Proof.
  intros Hwf Hw Hh.
  destruct (@keypoints_lower_bounds data width height Hwf Hw Hh)
    as (o & f & s & Hk & Ho & Hf & Hs).
  exists o, f, s. split; [exact Hk |].
  unfold extractKeypoints in Hk.
  destruct (@calculateImageComplexity_bounds data width height Hwf)
    as (c & Hc & Hc0 & Hc1); [lia | lia |].
  rewrite Hc in Hk.
  rewrite (@edgeDensity_real data width height Hwf Hw Hh) in Hk.
  set (e := realMean _ / 255) in Hk.
  assert (He : e <= 1.415).
  { unfold e, realMean. rewrite length_map.
    set (pixels := interiorPixels width height).
    assert (Hlen : 0 < IZR (Z.of_nat (List.length pixels))).
    { unfold pixels, interiorPixels. rewrite grid_length.
      apply (IZR_lt 0). nia. }
    rewrite <- fold_left_Rplus_map.
    pose proof (@fold_left_upper _
                  (fun p => magnitudeReal data width (fst p) (snd p))
                  pixels 0 (1.415 * 255)
                  (fun p _ => magnitudeReal_upper data width (fst p) (snd p)))
      as Hsum.
    rewrite INR_IZR_INZ in Hsum. cbn beta in Hsum.
    set (total := fold_left _ pixels 0) in *.
    set (n := IZR (Z.of_nat (List.length pixels))) in *.
    apply (Rmult_le_reg_r 255); [lra |].
    unfold Rdiv at 1. rewrite Rmult_assoc, Rinv_l, Rmult_1_r by lra.
    apply (Rmult_le_reg_r n); [exact Hlen |].
    unfold Rdiv. rewrite Rmult_assoc, Rinv_l, Rmult_1_r by lra. lra. }
  destruct (@floor_affine_upper_bound 30 c e 250 100 421) as (o' & Ho' & Hob);
    [nra |].
  destruct (@floor_affine_upper_bound 80 c e 400 150 692) as (f' & Hf' & Hfb);
    [nra |].
  destruct (@floor_affine_upper_bound 20 c e 180 80 313) as (s' & Hs' & Hsb);
    [nra |].
  rewrite Ho', Hf', Hs' in Hk. unfold ofZ in Hk.
  injection Hk as Eo Ef Es.
  apply eq_IZR in Eo, Ef, Es. lia.
Qed.

Lemma extractKeypoints_ranges_witness :
  wellFormed (img_data (uniform black 3 3)) 3 3
  /\ exists o f s,
       extractKeypoints (img_data (uniform black 3 3)) 3 3
       = {| orb := ofZ o; fast := ofZ f; sift := ofZ s |}
       /\ (30 <= o <= 421)%Z /\ (80 <= f <= 692)%Z /\ (20 <= s <= 313)%Z.
Proof.
  assert (Hwf : wellFormed (img_data (uniform black 3 3)) 3 3)
    by (repeat split; cbn; lia).
  split; [exact Hwf |].
  apply (@extractKeypoints_ranges (img_data (uniform black 3 3)) 3 3 Hwf); lia.
Defined.

(** An image that is two pixels wide or two pixels high has no interior
    pixel: whatever its data, the edge density is 0/0 and the three
    keypoint estimates and the sharpness are NaN. *)
Theorem two_pixel_images_give_NaN data width height :
  width = 2%Z \/ height = 2%Z ->
  extractKeypoints data width height = allNaN
  /\ sharpness (analyzeImageQuality data width height) = NaN.
Proof.
  intros [-> | ->].
  - split; [apply extractKeypoints_width_2 | apply sharpness_width_2].
  - split.
    + assert (He : calculateEdgeDensity data width 2 = NaN).
      { unfold calculateEdgeDensity, edgeStrength.
        rewrite forRange_empty by lia.
        replace ((width - 2) * (2 - 2) * 255)%Z with 0%Z by lia.
        apply div_zero_zero. }
      unfold extractKeypoints. rewrite He.
      cbn [mul]. now rewrite !add_NaN_r.
    + unfold analyzeImageQuality.
      set (loop := forRange 0 2 _ _).
      assert (H : snd loop = Fin 0).
      { unfold loop. apply forRange_invariant; [reflexivity |].
        intros y acc Hy Hacc. apply forRange_invariant; [exact Hacc |].
        intros x [[s q] sh] _ Hsh. cbn [snd] in *.
        replace ((x >? 0) && (x <? width - 1) && (y >? 0) && (y <? 2 - 1))%Z
          with false; [exact Hsh |].
        assert (Hy' : y = 0%Z \/ y = 1%Z) by lia.
        destruct Hy' as [-> | ->];
          [change (0 >? 0)%Z with false | change (1 <? 2 - 1)%Z with false];
          now rewrite ?andb_false_r. }
      destruct loop as [[s q] sh]. cbn [snd] in H. subst sh.
      cbn [sharpness].
      replace ((width - 2) * (2 - 2))%Z with 0%Z by lia.
      unfold ofZ. now rewrite div_zero_zero.
Qed.

Lemma two_pixel_images_give_NaN_witness :
  extractKeypoints (img_data (uniform white 5 2)) 5 2 = allNaN
  /\ sharpness (analyzeImageQuality (img_data (uniform white 5 2)) 5 2) = NaN.
Proof.
  apply (@two_pixel_images_give_NaN (img_data (uniform white 5 2)) 5 2).
  now right.
Defined.

Lemma filter_none {B : Type} (f : B -> bool) l :
  (forall b, In b l -> f b = false) -> filter f l = [].
Proof.
  induction l as [| b l IH]; intros H; [reflexivity |].
  cbn [filter]. rewrite (H b (or_introl eq_refl)).
  apply IH. intros c Hc. apply H. now right.
Qed.

Lemma flat_no_edges data width height x y :
  flat data width height ->
  (0 <= x < width - 1)%Z -> (0 <= y < height - 1)%Z ->
  realExceeds data width x y = false.
Proof.
  intros [g Hg] Hx Hy. unfold realExceeds.
  rewrite !Hg by lia. rewrite Rminus_diag, Rabs_R0.
  now rewrite Rltb_ge by lra.
Qed.

Lemma flat_no_gradient data width height x y :
  flat data width height ->
  (1 <= x < width - 1)%Z -> (1 <= y < height - 1)%Z ->
  magnitudeReal data width x y = 0.
Proof.
  intros [g Hg] Hx Hy. unfold magnitudeReal. cbn zeta.
  rewrite !Hg by lia. rewrite Rminus_diag, Rmult_0_l, Rplus_0_l.
  apply sqrt_0.
Qed.

(** On a well-formed image of at least 3 x 3 pixels whose pixels all have
    the same gray level, the complexity is 0 and the keypoint estimates
    are exactly their base values 30, 80 and 20. *)
Theorem extractKeypoints_of_flat_image data width height :
  wellFormed data width height -> (3 <= width)%Z -> (3 <= height)%Z ->
  flat data width height ->
  calculateImageComplexity data width height = Fin 0
  /\ extractKeypoints data width height
     = {| orb := Fin 30; fast := Fin 80; sift := Fin 20 |}.
Proof.
  intros Hwf Hw Hh Hflat.
  assert (Hc : calculateImageComplexity data width height = Fin 0).
  { rewrite (@complexity_real data width height Hwf) by lia.
    replace (filter _ (examinedPixels width height)) with (@nil (Z * Z)).
    - cbn [List.length Z.of_nat]. f_equal. unfold Rdiv. apply Rmult_0_l.
    - symmetry. apply filter_none. intros [x y] Hin.
      apply grid_In in Hin. cbn [fst snd].
      apply (@flat_no_edges data width height x y Hflat); lia. }
  split; [exact Hc |].
  unfold extractKeypoints. rewrite Hc.
  rewrite (@edgeDensity_real data width height Hwf Hw Hh).
  assert (He : realMean (map (fun p => magnitudeReal data width (fst p) (snd p))
                             (interiorPixels width height)) = 0).
  { unfold realMean. rewrite <- fold_left_Rplus_map.
    assert (Hz : forall l a,
               (forall p, In p l -> magnitudeReal data width (fst p) (snd p) = 0) ->
               fold_left (fun s p => s + magnitudeReal data width (fst p) (snd p))
                         l a = a).
    { induction l as [| p l IH]; intros a Hl; [reflexivity |].
      cbn [fold_left]. rewrite (Hl p (or_introl eq_refl)), Rplus_0_r.
      apply IH. intros q Hq. apply Hl. now right. }
    rewrite Hz.
    - unfold Rdiv. apply Rmult_0_l.
    - intros [x y] Hin. apply grid_In in Hin. cbn [fst snd].
      apply (@flat_no_gradient data width height x y Hflat); lia. }
  rewrite He. cbn [mul add floor].
  assert (H30 : Zfloor (30 + 0 * 250 + 0 / 255 * 100) = 30%Z)
    by (apply Zfloor_eq; lra).
  assert (H80 : Zfloor (80 + 0 * 400 + 0 / 255 * 150) = 80%Z)
    by (apply Zfloor_eq; lra).
  assert (H20 : Zfloor (20 + 0 * 180 + 0 / 255 * 80) = 20%Z)
    by (apply Zfloor_eq; lra).
  now rewrite H30, H80, H20.
Qed.

Lemma extractKeypoints_of_flat_image_witness :
  flat (img_data (uniform white 3 3)) 3 3
  /\ extractKeypoints (img_data (uniform white 3 3)) 3 3
     = {| orb := Fin 30; fast := Fin 80; sift := Fin 20 |}.
Proof.
  assert (Hwf : wellFormed (img_data (uniform white 3 3)) 3 3)
    by (repeat split; cbn; lia).
  assert (Hflat : flat (img_data (uniform white 3 3)) 3 3).
  { exists (grayReal (img_data (uniform white 3 3)) 3 0 0). intros x y Hx Hy.
    assert (Hx' : x = 0%Z \/ x = 1%Z \/ x = 2%Z) by lia.
    assert (Hy' : y = 0%Z \/ y = 1%Z \/ y = 2%Z) by lia.
    destruct Hx' as [-> | [-> | ->]], Hy' as [-> | [-> | ->]]; reflexivity. }
  split; [exact Hflat |].
  apply (@extractKeypoints_of_flat_image (img_data (uniform white 3 3)) 3 3
           Hwf); [lia | lia | exact Hflat].
Defined.

End KeypointEstimates.

(* ================================================================== *)
(** ** services/imageUtils.ts: brightening and degenerate gammas *)
(* ================================================================== *)

Section GammaCorrection.

Import ImageUtils Spec.
Local Open Scope R_scope.

Lemma realPow_root_above x y : 0 <= x <= 1 -> 0 < y <= 1 -> x <= realPow x y.
Proof.
  intros Hx Hy. unfold realPow.
  destruct (Req_dec_T x 0) as [-> | Hne]; [lra |].
  assert (Hpos : 0 < x) by lra.
  unfold Rpower. rewrite <- (exp_ln x Hpos) at 1.
  destruct (Rle_lt_or_eq_dec _ _ (proj2 Hx)) as [Hlt | ->].
  - assert (Hln : ln x < 0) by (rewrite <- ln_1; now apply ln_increasing).
    destruct (Rle_lt_or_eq_dec _ _ (proj2 Hy)) as [Hy1 | ->].
    + left. apply exp_increasing. nra.
    + rewrite Rmult_1_l. lra.
  - rewrite ln_1, Rmult_0_r. lra.
Qed.

Lemma gammaFormula_brightens g i :
  1 <= g -> (0 <= i < 256)%Z -> (i <= gammaFormula g i <= 255)%Z.
Proof.
  intros Hg Hi. unfold gammaFormula.
  assert (Hx : 0 <= IZR i / 255 <= 1).
  { destruct Hi as [H0 H1]. apply IZR_le in H0.
    assert (IZR i <= 255) by (apply (IZR_le i 255); lia).
    split; [apply Rdiv_nonneg; lra |].
    apply (Rmult_le_reg_r 255); [lra |].
    unfold Rdiv. rewrite Rmult_assoc, Rinv_l by lra. lra. }
  assert (Hy : 0 < 1 / g <= 1).
  { split; [apply Rdiv_lt_0_compat; lra |].
    apply (Rmult_le_reg_r g); [lra |].
    unfold Rdiv. rewrite Rmult_assoc, Rinv_l by lra. lra. }
  pose proof (@realPow_root_above _ _ Hx Hy) as Hlow.
  pose proof (@realPow_bounds (IZR i / 255) (1 / g) Hx (proj1 Hy)) as Hb.
  split.
  - apply Zfloor_lub.
    assert (Hi' : IZR i = IZR i / 255 * 255) by field.
    set (x := IZR i / 255) in *. lra.
  - assert (Zfloor (realPow (IZR i / 255) (1 / g) * 255) < 256)%Z; [| lia].
    apply lt_IZR. pose proof (Zfloor_bound (realPow (IZR i / 255) (1 / g) * 255)).
    lra.
Qed.

(** A gamma of at least 1 brightens: the table maps every byte to a byte
    that is not smaller, so the corrected data has the length of the
    source and no element of it is darker. *)
Theorem gamma_of_at_least_one_brightens g srcData :
  1 <= g -> Forall (fun v => (0 <= v < 256)%Z) srcData ->
  List.length (applyLutManual srcData (gammaLut (Fin g)))
  = List.length srcData
  /\ Forall2 (fun v out => (v <= out <= 255)%Z)
             srcData (applyLutManual srcData (gammaLut (Fin g))).
Proof.
  intros Hg Hsrc. unfold applyLutManual. split; [apply length_map |].
  induction Hsrc as [| v rest Hv _ IH]; cbn [map]; constructor; [| exact IH].
  rewrite gammaLut_nth by (try lra; exact Hv).
  now apply gammaFormula_brightens.
Qed.

Lemma gamma_of_at_least_one_brightens_witness :
  Forall2 (fun v out => (v <= out <= 255)%Z)
          [0; 64; 255]%Z (applyLutManual [0; 64; 255]%Z (gammaLut (Fin 1.8))).
Proof.
  apply (@gamma_of_at_least_one_brightens 1.8 [0; 64; 255]%Z); [lra |].
  repeat constructor; lia.
Defined.

(** A gamma of 0 or NaN gives the table that is 0 everywhere: the
    corrected image is black, whatever the source. *)
Theorem gamma_zero_or_NaN_blackens gamma srcData :
  gamma = Fin 0 \/ gamma = NaN ->
  Forall (fun v => v = 0%Z) (gammaLut gamma)
  /\ applyLutManual srcData (gammaLut gamma) = map (fun _ => 0%Z) srcData.
Proof.
  intros Hgamma.
  assert (Hlut : Forall (fun v => v = 0%Z) (gammaLut gamma)).
  { apply gammaLut_without_exponent.
    destruct Hgamma as [-> | ->]; [left | right; reflexivity].
    unfold reciprocal, div. rewrite Reqb_refl, (@Reqb_neq 1 0) by lra.
    now rewrite Rltb_ge by lra. }
  split; [exact Hlut |].
  unfold applyLutManual. apply map_ext. intros v.
  rewrite Forall_forall in Hlut.
  destruct (Nat.lt_ge_cases (Z.to_nat v) (List.length (gammaLut gamma)))
    as [Hin | Hout].
  - apply Hlut, nth_In, Hin.
  - now apply nth_overflow.
Qed.

Lemma gamma_zero_or_NaN_blackens_witness :
  applyLutManual [0; 64; 255]%Z (gammaLut (Fin 0)) = [0; 0; 0]%Z.
Proof.
  apply (@gamma_zero_or_NaN_blackens (Fin 0) [0; 64; 255]%Z). now left.
Defined.

End GammaCorrection.
